(** * cluster_network: cluster-count allocation and busmap generation

    A shallow embedding of [scripts/cluster_network.py] (PyPSA-Eur fork):
    [normed], [weighting_for_country], [distribute_clusters],
    [busmap_for_n_clusters] with its nested strategies, and the busmap branch
    of [clustering_for_n_clusters].

    Conventions of the embedding.
    - A pandas [Series] is an association list in index order.
    - A float64 is an exact rational or one of the IEEE special values
      (+inf, -inf, NaN). The arithmetic on finite values is exact: rounding,
      overflow to an infinity, underflow to zero and the sign of zero are not
      modelled. A statement that depends on one of them carries a hypothesis
      that rules it out ([focus_sum_exact], [series_in_range],
      [inputs_in_range]); [round64] and [py_sum] give the rounded sum that
      Python computes, for the comparison the script makes on it.
    - A raised exception is the [Raise] case of [result].
    - Library calls whose code is outside the script (the pyomo solver, PyPSA's
      topology and clustering routines, scikit-learn, python-louvain, the
      [newman] module) are the fields of a record [Collaborators]. A call of
      one of them is taken to return: an exception raised inside a library is
      outside the embedding. *)

From Stdlib Require Import String Ascii List ZArith QArith Qabs Qround Lia Lqa
  Bool Permutation Arith DecimalString.
Import ListNotations.

Local Open Scope string_scope.
Local Open Scope list_scope.

(** ** Exceptions *)

Inductive exn : Type :=
| AssertionError (msg : string)
| ValueError (msg : string)
| KeyError (msg : string)
| NameError (msg : string)
| AttributeError (msg : string).

Inductive result (A : Type) : Type :=
| Ok (a : A)
| Raise (e : exn).

Arguments Ok {A} a.
Arguments Raise {A} e.

Definition bind {A B : Type} (c : result A) (k : A -> result B) : result B :=
  match c with
  | Ok a => k a
  | Raise e => Raise e
  end.

Notation "x <- c ;; k" := (bind c (fun x => k))
  (at level 61, c at next level, right associativity).

Definition assert (b : bool) (msg : string) : result unit :=
  if b then Ok tt else Raise (AssertionError msg).

Definition is_ok {A : Type} (r : result A) : bool :=
  match r with Ok _ => true | Raise _ => false end.

Fixpoint mapM {A B : Type} (f : A -> result B) (l : list A) : result (list B) :=
  match l with
  | [] => Ok []
  | a :: t => b <- f a ;; bs <- mapM f t ;; Ok (b :: bs)
  end.

(** ** float64 with the IEEE special values *)

Inductive float64 : Type :=
| Fin (q : Q)
| PInf
| NInf
| NaN.

Definition Qis_zero (q : Q) : bool := Qeq_bool q 0.
Definition Qis_pos (q : Q) : bool := negb (Qle_bool q 0).
Definition Qlt_bool (a b : Q) : bool := negb (Qle_bool b a).

Definition fopp (a : float64) : float64 :=
  match a with
  | Fin q => Fin (- q)
  | PInf => NInf
  | NInf => PInf
  | NaN => NaN
  end.

Definition fadd (a b : float64) : float64 :=
  match a, b with
  | NaN, _ | _, NaN => NaN
  | Fin x, Fin y => Fin (x + y)
  | PInf, NInf | NInf, PInf => NaN
  | PInf, _ | _, PInf => PInf
  | NInf, _ | _, NInf => NInf
  end.

Definition fsub (a b : float64) : float64 := fadd a (fopp b).

(** [inf_signed pos] is +inf when [pos] holds and -inf otherwise. *)
Definition inf_signed (pos : bool) : float64 := if pos then PInf else NInf.

Definition fmul (a b : float64) : float64 :=
  match a, b with
  | NaN, _ | _, NaN => NaN
  | Fin x, Fin y => Fin (x * y)
  | Fin x, PInf | PInf, Fin x =>
      if Qis_zero x then NaN else inf_signed (Qis_pos x)
  | Fin x, NInf | NInf, Fin x =>
      if Qis_zero x then NaN else inf_signed (negb (Qis_pos x))
  | PInf, PInf | NInf, NInf => PInf
  | PInf, NInf | NInf, PInf => NInf
  end.

Definition fdiv (a b : float64) : float64 :=
  match a, b with
  | NaN, _ | _, NaN => NaN
  | Fin x, Fin y =>
      if Qis_zero y
      then (if Qis_zero x then NaN else inf_signed (Qis_pos x))
      else Fin (x / y)
  | Fin _, PInf | Fin _, NInf => Fin 0
  | PInf, Fin y => inf_signed (negb (Qlt_bool y 0))
  | NInf, Fin y => inf_signed (Qlt_bool y 0)
  | _, _ => NaN
  end.

Definition fabs (a : float64) : float64 :=
  match a with
  | Fin q => Fin (Qabs q)
  | PInf | NInf => PInf
  | NaN => NaN
  end.

(** [a <= b] on floats; every comparison with NaN is false. *)
Definition fle (a b : float64) : bool :=
  match a, b with
  | NaN, _ | _, NaN => false
  | NInf, _ | _, PInf => true
  | Fin x, Fin y => Qle_bool x y
  | _, _ => false
  end.

Definition is_nan (a : float64) : bool :=
  match a with NaN => true | _ => false end.

(** [Series.fillna(v)] on one cell. *)
Definition fillna (v : float64) (a : float64) : float64 :=
  if is_nan a then v else a.

(** [Series.clip(lower=lo)] on one cell; NaN is left as it is. *)
Definition clip_lower (lo : float64) (a : float64) : float64 :=
  if is_nan a then NaN else if fle lo a then a else lo.

(** [Series.sum()] skips NaN cells; the empty sum is 0. *)
Definition fsum (l : list float64) : float64 :=
  fold_right (fun a acc => if is_nan a then acc else fadd a acc) (Fin 0) l.

(** [Series.max()] skips NaN cells; it is NaN when nothing is left. *)
Definition fmax2 (a b : float64) : float64 :=
  if is_nan a then b else if is_nan b then a else if fle a b then b else a.

Definition fmax (l : list float64) : float64 := fold_right fmax2 NaN l.

(** Truncation toward zero, the float to int conversion of numpy. *)
Definition Qtrunc (q : Q) : Z := Z.quot (Qnum q) (Z.pos (Qden q)).

(** [Series.astype(int)] on one cell: pandas refuses NaN and the infinities. *)
Definition astype_int (a : float64) : result Z :=
  match a with
  | Fin q => Ok (Qtrunc q)
  | _ => Raise (ValueError "Cannot convert non-finite values (NA or inf) to integer")
  end.

(** Equality of floats up to the representation of the rational. *)
Definition feq (a b : float64) : Prop :=
  match a, b with
  | Fin x, Fin y => x == y
  | PInf, PInf | NInf, NInf | NaN, NaN => True
  | _, _ => False
  end.

(** [numpy.isclose(a, b, rtol)] with the default [atol = 1e-8]. *)
Definition np_isclose (a b : float64) (rtol : Q) : bool :=
  match a, b with
  | Fin x, Fin y => Qle_bool (Qabs (x - y)) ((1 # 100000000) + rtol * Qabs y)
  | PInf, PInf | NInf, NInf => true
  | _, _ => false
  end.

(** *** Rounding to the nearest float64

    binary64 has 53 significant bits, the exponents -1074 to 971 for the last
    of them, ties to even, and overflow to an infinity from 2^1024 - 2^970. *)

Definition pow2 (e : Z) : Q :=
  if (0 <=? e)%Z then inject_Z (2 ^ e) else 1 # Z.to_pos (2 ^ (- e)).







(** ** Series and group-by *)

Definition Series (K V : Type) : Type := list (K * V).

Definition index {K V : Type} (s : Series K V) : list K := map fst s.
Definition values {K V : Type} (s : Series K V) : list V := map snd s.

Definition map_values {K V W : Type} (f : V -> W) (s : Series K V) : Series K W :=
  map (fun kv => (fst kv, f (snd kv))) s.

Section Lookup.
Context {K V : Type} (eqb : K -> K -> bool).

Fixpoint lookup (k : K) (s : Series K V) : option V :=
  match s with
  | [] => None
  | (k', v) :: t => if eqb k k' then Some v else lookup k t
  end.

(** [s.reindex(idx, fill_value=fill)] *)
Definition reindex (idx : list K) (fill : V) (s : Series K V) : Series K V :=
  map (fun k => (k, match lookup k s with Some v => v | None => fill end)) idx.
End Lookup.

Section GroupBy.
Context {K R : Type} (eqb : K -> K -> bool) (leb : K -> K -> bool).

Fixpoint dedup (l : list K) : list K :=
  match l with
  | [] => []
  | k :: t => if existsb (eqb k) t then dedup t else k :: dedup t
  end.

Fixpoint insert_sorted (k : K) (l : list K) : list K :=
  match l with
  | [] => [k]
  | h :: t => if leb k h then k :: l else h :: insert_sorted k t
  end.

Definition sort_keys (l : list K) : list K := fold_right insert_sorted [] l.

(** The group keys of a pandas group-by: the observed keys, each once, sorted. *)
Definition group_keys (key : R -> K) (rows : list R) : list K :=
  sort_keys (dedup (map key rows)).

(** [rows.groupby(key)]: each observed key with its rows, in row order. *)
Definition groupby (key : R -> K) (rows : list R) : list (K * list R) :=
  map (fun k => (k, filter (fun r => eqb (key r) k) rows)) (group_keys key rows).
End GroupBy.

(** Group keys are strings (a bus) or pairs (country, sub_network). *)
Definition GroupKey : Type := (string * string)%type.

Definition gk_eqb (a b : GroupKey) : bool :=
  (String.eqb (fst a) (fst b) && String.eqb (snd a) (snd b))%bool.

Definition gk_leb (a b : GroupKey) : bool :=
  match String.compare (fst a) (fst b) with
  | Lt => true
  | Eq => String.leb (snd a) (snd b)
  | Gt => false
  end.

(** [s.groupby(key).sum()] for a float series. *)
Definition groupby_sum {K R : Type} (eqb leb : K -> K -> bool)
    (key : R -> K) (val : R -> float64) (rows : list R) : Series K float64 :=
  map (fun g => (fst g, fsum (map val (snd g)))) (groupby eqb leb key rows).

(** ** The network *)

Record Bus : Type := mkBus {
  bus_name : string;
  country : string;
  sub_network : string;
  bus_x : Q;
  bus_y : Q
}.

Record Line : Type := mkLine {
  line_name : string;
  bus0 : string;
  bus1 : string;
  s_nom : Q;
  line_r : Q;
  line_x : Q
}.

(** A generator or a storage unit: the bus it sits on, its carrier, its p_nom. *)
Record Unit_ : Type := mkUnit {
  unit_bus : string;
  carrier : string;
  p_nom : Q
}.

(** A load with the snapshot mean of its demand, [n.loads_t.p_set.mean()]. *)
Record Load : Type := mkLoad {
  load_name : string;
  load_bus : string;
  p_set_mean : Q
}.

Record Network : Type := mkNetwork {
  buses : list Bus;
  lines : list Line;
  generators : list Unit_;
  storage_units : list Unit_;
  loads : list Load
}.

Definition bus_key (b : Bus) : GroupKey := (country b, sub_network b).

Definition buses_index (n : Network) : list string := map bus_name (buses n).

Definition isin (s : string) (l : list string) : bool := existsb (String.eqb s) l.

(** ** normed and weighting_for_country *)

(** [def normed(x): return (x/x.sum()).fillna(0.)] *)
Definition normed_cell (total : float64) (v : float64) : float64 :=
  fillna (Fin 0) (fdiv v total).

Definition normed {K : Type} (s : Series K float64) : Series K float64 :=
  map_values (normed_cell (fsum (values s))) s.

Definition conv_carriers : list string := ["OCGT"; "CCGT"; "PHS"; "hydro"].

(** [df.loc[df.carrier.isin(conv_carriers)].groupby('bus').p_nom.sum()
       .reindex(n.buses.index, fill_value=0.)] *)
Definition conv_capacity (n : Network) (units : list Unit_) : Series string float64 :=
  reindex String.eqb (buses_index n) (Fin 0)
    (groupby_sum String.eqb String.leb unit_bus (fun u => Fin (p_nom u))
       (filter (fun u => isin (carrier u) conv_carriers) units)).

(** Cell-wise sum of two series over the same index. *)
Definition series_add {K : Type} (a b : Series K float64) : Series K float64 :=
  map (fun p => (fst (fst p), fadd (snd (fst p)) (snd (snd p)))) (combine a b).

(** [n.loads_t.p_set.mean().groupby(n.loads.bus).sum()] *)
Definition load_by_bus (n : Network) : Series string float64 :=
  groupby_sum String.eqb String.leb load_bus (fun l => Fin (p_set_mean l)) (loads n).

(** [gen.reindex(b_i, fill_value=0)] and [load.reindex(b_i, fill_value=0)] *)
Definition group_gen (n : Network) (b_i : list string) : Series string float64 :=
  reindex String.eqb b_i (Fin 0)
    (series_add (conv_capacity n (generators n)) (conv_capacity n (storage_units n))).

Definition group_load (n : Network) (b_i : list string) : Series string float64 :=
  reindex String.eqb b_i (Fin 0) (load_by_bus n).

(** [(w * (100. / w.max())).clip(lower=1.).astype(int)] *)
Definition scale_clip (w : Series string float64) : result (Series string Z) :=
  let scale := fdiv (Fin 100) (fmax (values w)) in
  mapM (fun kv => z <- astype_int (clip_lower (Fin 1) (fmul (snd kv) scale)) ;;
                  Ok (fst kv, z)) w.

Definition weighting_for_country (n : Network) (b_i : list string)
    : result (Series string Z) :=
  let g := normed (group_gen n b_i) in
  let l := normed (group_load n b_i) in
  let w := series_add g l in
  scale_clip w.

(** ** distribute_clusters *)

(** The integer program handed to pyomo: one variable per entry of [L.index],
    bounds [(1, N[g])], the constraint [sum n == n_clusters], and the targets
    [L[g] * n_clusters] of the quadratic objective. *)
Record Model : Type := mkModel {
  m_vars : list GroupKey;
  m_bounds : Series GroupKey (Z * Z);
  m_total : Z;
  m_targets : Series GroupKey float64
}.

(** What [opt.solve(m)] leaves behind: the solver status and the value of each
    variable, as floats. *)
Record SolverResult : Type := mkSolverResult {
  status_ok : bool;
  var_values : Series GroupKey float64
}.

(** [L]: the mean load per bus, summed per (country, sub_network) of the bus
    and normed. A load on a bus that the network does not have gets no key
    and is dropped by the group-by. *)
Definition find_bus (n : Network) (name : string) : option Bus :=
  find (fun b => String.eqb (bus_name b) name) (buses n).

Definition load_rows (n : Network) : list (GroupKey * float64) :=
  flat_map (fun kv => match find_bus n (fst kv) with
                      | Some b => [(bus_key b, snd kv)]
                      | None => []
                      end) (load_by_bus n).

Definition load_share (n : Network) : Series GroupKey float64 :=
  normed (groupby_sum gk_eqb gk_leb fst snd (load_rows n)).

(** [N = n.buses.groupby(['country', 'sub_network']).size()] *)
Definition group_sizes (n : Network) : Series GroupKey Z :=
  map (fun g => (fst g, Z.of_nat (length (snd g))))
      (groupby gk_eqb gk_leb bus_key (buses n)).

Definition Zsum (l : list Z) : Z := fold_right Z.add 0%Z l.
Definition Qsum (l : list Q) : Q := fold_right Qplus 0 l.

(** [str] of an integer. *)
Definition string_of_Z (z : Z) : string := NilZero.string_of_int (Z.to_int z).

Definition key_country (k : GroupKey) : string := fst k.

(** [L[country] = weight / len(L[country])], for each item of the dict in turn;
    a country without a group in [L] is a KeyError. *)
Definition set_country (c : string) (v : float64) (L : Series GroupKey float64)
    : Series GroupKey float64 :=
  map (fun kv => if String.eqb (key_country (fst kv)) c then (fst kv, v) else kv) L.

Definition count_country (c : string) (L : Series GroupKey float64) : nat :=
  length (filter (fun kv => String.eqb (key_country (fst kv)) c) L).

Fixpoint apply_focus (fw : list (string * Q)) (L : Series GroupKey float64)
    : result (Series GroupKey float64) :=
  match fw with
  | [] => Ok L
  | (c, w) :: rest =>
      match count_country c L with
      | O => Raise (KeyError c)
      | S _ as cnt => apply_focus rest (set_country c (Fin (w / inject_Z (Z.of_nat cnt))) L)
      end
  end.

Definition in_focus (fw : list (string * Q)) (k : GroupKey) : bool :=
  isin (key_country k) (map fst fw).

(** [L[remainder] = L.loc[remainder].pipe(normed) * (1 - total_focus)] *)
Definition rescale_remainder (fw : list (string * Q)) (total_focus : Q)
    (L : Series GroupKey float64) : Series GroupKey float64 :=
  let remainder := filter (fun kv => negb (in_focus fw (fst kv))) L in
  let total := fsum (values remainder) in
  map (fun kv => if in_focus fw (fst kv) then kv
                 else (fst kv, fmul (normed_cell total (snd kv)) (Fin (1 - total_focus)))) L.

Definition focus_msg : string :=
  "The sum of focus weights must be less than or equal to 1.".
Definition range_msg (N : Series GroupKey Z) : string :=
  ("Number of clusters must be " ++ string_of_Z (Z.of_nat (length N))
   ++ " <= n_clusters <= " ++ string_of_Z (Zsum (values N))
   ++ " for this selection of countries.")%string.
Definition sum_msg : string :=
  "Country weights L must sum up to 1.0 when distributing clusters.".
Definition solver_msg : string := "Solver returned non-optimally".


(** Lines 196 to 208: the focus-weight override of [L]. [total_focus] is the
    exact sum of the weights; it is the float [py_sum] of them whenever no
    addition of that sum rounds. *)
Definition adjust_focus (focus_weights : option (list (string * Q)))
    (L : Series GroupKey float64) : result (Series GroupKey float64) :=
  match focus_weights with
  | None => Ok L
  | Some fw =>
      let total_focus := Qsum (map snd fw) in
      _ <- assert (Qle_bool total_focus 1) focus_msg ;;
      L1 <- apply_focus fw L ;;
      Ok (rescale_remainder fw total_focus L1)
  end.

(** The solver behind [po.SolverFactory(name)] and its quadratic capability.
    [opt.solve(m)] is taken to return; what it reports is in its result. *)
Record Solver : Type := mkSolver {
  has_quadratic_objective : string -> bool;
  solve : string -> Model -> SolverResult
}.

Definition build_model (L : Series GroupKey float64) (N : Series GroupKey Z)
    (n_clusters : Z) : result Model :=
  bounds <- mapM (fun k => match lookup gk_eqb k N with
                           | Some sz => Ok (k, (1%Z, sz))
                           | None => Raise (KeyError (fst k ++ snd k))
                           end) (index L) ;;
  Ok (mkModel (index L) bounds n_clusters
        (map_values (fun v => fmul v (Fin (inject_Z n_clusters))) L)).

Definition distribute_clusters (slv : Solver) (n : Network) (n_clusters : Z)
    (focus_weights : option (list (string * Q))) (solver_name : string)
    : result (Series GroupKey Z) :=
  let L := load_share n in
  let N := group_sizes n in
  _ <- assert ((Z.of_nat (length N) <=? n_clusters)%Z
               && (n_clusters <=? Zsum (values N))%Z) (range_msg N) ;;
  L <- adjust_focus focus_weights L ;;
  _ <- assert (np_isclose (fsum (values L)) (Fin 1) (1 # 1000)) sum_msg ;;
  m <- build_model L N n_clusters ;;
  let opt := if has_quadratic_objective slv solver_name then solver_name else "ipopt" in
  let results := solve slv opt m in
  _ <- assert (status_ok results) solver_msg ;;
  mapM (fun k => z <- astype_int (match lookup gk_eqb k (var_values results) with
                                  | Some v => v
                                  | None => NaN
                                  end) ;;
                 Ok (k, z)) (index L).

(** ** Collaborators of busmap_for_n_clusters *)

(** A networkx graph with a [weight] on each edge. *)
Record Graph : Type := mkGraph {
  nodes : list string;
  edges : list (string * string * float64)
}.

(** A community assignment, the dict node -> community id. *)
Definition Partition : Type := Series string Z.

(** [community.best_partition(G, resolution=res)]; the first argument counts
    the calls made so far, the routine being randomised. *)
Definition BestPartition : Type := nat -> Graph -> float64 -> Partition.

Definition Kwds : Type := list (string * Q).

Record Collaborators : Type := mkCollaborators {
  solver : Solver;
  (** The number of the connected component of a bus, as PyPSA's
      [determine_network_topology] gets it from scipy. *)
  component_label : Network -> string -> Z;
  (** What [calculate_dependent_values] does to the line table. *)
  dependent_line_values : list Line -> list Line;
  busmap_by_kmeans :
    Network -> Series string Z -> Z -> list string -> Kwds -> Series string string;
  busmap_by_spectral_clustering : Network -> Z -> Kwds -> Series string string;
  (** scikit-learn's [AgglomerativeClustering(...).fit_predict(data)] on the
      feature table and the connectivity that lines 249 to 272 build from the
      network, the group and the configured feature. *)
  hac_fit_predict : Network -> Z -> list string -> list Z;
  (** [greedy_modularity] of the [newman] module. *)
  greedy_modularity : Graph -> Z -> list (list string);
  (** The float power [v ** 1.5]. *)
  pow15 : Z -> float64
}.

(** Line 140 reads [#import community]: the name [community] that
    [busmap_by_louvain] looks up is not bound in the script. *)
Definition community : option BestPartition := None.

(** [n.determine_network_topology()] rewrites the [sub_network] column of the
    bus table: [network.buses.loc[:, "sub_network"] = labels.astype(str)]. *)
Definition set_sub_network (b : Bus) (label : string) : Bus :=
  mkBus (bus_name b) (country b) label (bus_x b) (bus_y b).

Definition determine_network_topology (C : Collaborators) (n : Network) : Network :=
  mkNetwork (map (fun b => set_sub_network b (string_of_Z (component_label C n (bus_name b))))
                 (buses n))
            (lines n) (generators n) (storage_units n) (loads n).

Definition calculate_dependent_values (C : Collaborators) (n : Network) : Network :=
  mkNetwork (buses n) (dependent_line_values C (lines n))
            (generators n) (storage_units n) (loads n).

(** ** The strategies written in the script *)

Definition in_group (buses_i : list string) (l : Line) : bool :=
  (isin (bus0 l) buses_i && isin (bus1 l) buses_i)%bool.

Definition same_pair (u v u' v' : string) : bool :=
  ((String.eqb u u' && String.eqb v v') || (String.eqb u v' && String.eqb v u'))%bool.

(** [G.add_edges_from(...)] on an undirected simple graph: a second edge
    between the same two nodes replaces the weight of the first. *)
Definition add_edge (es : list (string * string * float64)) (e : string * string * float64)
    : list (string * string * float64) :=
  let '(u, v, w) := e in
  if existsb (fun e' => same_pair u v (fst (fst e')) (snd (fst e'))) es
  then map (fun e' => if same_pair u v (fst (fst e')) (snd (fst e'))
                      then (fst e', w) else e') es
  else es ++ [e].

Definition add_node (ns : list string) (u : string) : list string :=
  if isin u ns then ns else ns ++ [u].

Definition graph_of (buses_i : list string) (weighted : list (string * string * float64))
    : Graph :=
  mkGraph (fold_left add_node buses_i []) (fold_left add_edge weighted []).

(** [prefix + series] *)
Definition add_prefix (prefix : string) (s : Series string string) : Series string string :=
  map_values (fun l => (prefix ++ l)%string) s.

(** [pd.Series(data, index=idx)]: the lengths must agree. *)
Definition make_series {V : Type} (data : list V) (idx : list string)
    : result (Series string V) :=
  if Nat.eqb (length data) (length idx) then Ok (combine idx data)
  else Raise (ValueError "Length of values does not match length of index").

Definition busmap_by_hac (C : Collaborators) (n : Network) (n_clusters : Z)
    (buses_i : list string) : result (Series string string) :=
  make_series (map string_of_Z (hac_fit_predict C n n_clusters buses_i)) buses_i.

(** *** busmap_by_louvain *)

(** [1./network.lines.x] and then [lines.weight += 0.1] *)
Definition louvain_weight (l : Line) : float64 :=
  fadd (fdiv (Fin 1) (Fin (line_x l))) (Fin (1 # 10)).

Definition weighted_lines (weight : Line -> float64) (buses_i : list string)
    (ls : list Line) : list (string * string * float64) :=
  map (fun l => (bus0 l, bus1 l, weight l)) (filter (in_group buses_i) ls).

(** [len(pd.Series(b).unique())] *)
Definition n_communities (b : Partition) : Z :=
  Z.of_nat (length (dedup Z.eqb (values b))).

Definition flt (a b : float64) : bool := (fle a b && negb (fle b a))%bool.

Record SearchState : Type := mkSearch {
  st_c : Z;
  st_res : float64;
  st_b : Partition;
  st_bu : Partition;
  st_calls : nat;          (* calls of best_partition made so far *)
  st_trace : list float64  (* the resolutions those calls were given *)
}.

Section Louvain.
Variable C : Collaborators.
Variable best_partition : BestPartition.
Variable G : Graph.
Variable n_clusters : Z.

Definition call_lower (s : SearchState) : SearchState :=
  if (n_communities (st_b s) <? n_clusters)%Z
  then mkSearch (st_c s)
                (fdiv (st_res s) (Fin (inject_Z (st_c s * st_c s))))
                (best_partition (st_calls s) G (st_res s))
                (st_bu s) (S (st_calls s)) (st_trace s ++ [st_res s])
  else s.

Definition call_higher (s : SearchState) : SearchState :=
  if (n_clusters <? n_communities (st_b s))%Z
  then mkSearch (st_c s)
                (fadd (st_res s) (fdiv (Fin 1) (pow15 C (st_c s))))
                (best_partition (st_calls s) G (st_res s))
                (st_bu s) (S (st_calls s)) (st_trace s ++ [st_res s])
  else s.

Definition floor_res (s : SearchState) : SearchState :=
  if flt (st_res s) (Fin (1 # 10000))
  then mkSearch (st_c s) (fadd (st_res s) (Fin (1 # 10000)))
                (st_b s) (st_bu s) (st_calls s) (st_trace s)
  else s.

Definition deviation (b : Partition) : Z := Z.abs (n_communities b - n_clusters).

Definition keep_best (s : SearchState) : SearchState :=
  if (deviation (st_b s) <=? deviation (st_bu s))%Z
  then mkSearch (st_c s) (st_res s) (st_b s) (st_b s) (st_calls s) (st_trace s)
  else s.

Definition next_c (s : SearchState) : SearchState :=
  mkSearch (st_c s + 1) (st_res s) (st_b s) (st_bu s) (st_calls s) (st_trace s).

(** One pass through the body of the while loop, up to [c += 1]. *)
Definition attempt (s : SearchState) : SearchState :=
  next_c (keep_best (floor_res (call_higher (call_lower s)))).

Definition loop_test (s : SearchState) : bool :=
  (negb (n_communities (st_b s) =? n_clusters)%Z && (st_c s <? 500)%Z)%bool.

(** The while loop, with [fuel] bounding the number of passes. *)
Fixpoint search (fuel : nat) (s : SearchState) : SearchState :=
  match fuel with
  | O => s
  | S fuel' =>
      if loop_test s
      then let s' := attempt s in
           if (n_communities (st_bu s') =? n_clusters)%Z then s' else search fuel' s'
      else s
  end.

(** The state a repeat starts from: [res], [c = 1], the first partition. *)
Definition start (calls : nat) (trace : list float64) : SearchState :=
  let res := fdiv (Fin 100) (pow15 C n_clusters) in
  let b := best_partition calls G res in
  mkSearch 1 res b b (S calls) (trace ++ [res]).

Definition max_attempts : nat := 499.

Definition one_repeat (calls : nat) (trace : list float64) : SearchState :=
  search max_attempts (start calls trace).

Definition list_cluster (s : SearchState) : list string :=
  map (fun kv => string_of_Z (snd kv)) (st_bu s).

(** The three repeats; [list_cluster] of the last one is what is left when
    the for loop ends. *)
Definition three_repeats : SearchState :=
  let s1 := one_repeat 0 [] in
  let s2 := one_repeat (st_calls s1) (st_trace s1) in
  one_repeat (st_calls s2) (st_trace s2).
End Louvain.

Definition louvain_graph (network : Network) (buses_i : list string) : Graph :=
  graph_of buses_i (weighted_lines louvain_weight buses_i (lines network)).

Definition busmap_by_louvain (C : Collaborators) (comm : option BestPartition)
    (network : Network) (n_clusters : Z) (buses_i : list string)
    : Network * result (Series string string) :=
  let network := calculate_dependent_values C network in
  let G := louvain_graph network buses_i in
  match comm with
  | None => (network, Raise (NameError "name 'community' is not defined"))
  | Some best_partition =>
      (network,
       make_series (list_cluster (three_repeats C best_partition G n_clusters)) buses_i)
  end.

(** *** busmap_by_newman *)

(** [n.lines.s_nom/abs(1j*lines.r)]: the modulus of the imaginary number
    [1j*r] is the absolute value of [r]. *)
Definition newman_weight (l : Line) : float64 :=
  fdiv (Fin (s_nom l)) (fabs (Fin (line_r l))).

(** [busmap.loc[members] = label]; a member outside the index is a KeyError. *)
Definition loc_set (members : list string) (label : string) (s : Series string string)
    : result (Series string string) :=
  match find (fun m => negb (isin m (index s))) members with
  | Some m => Raise (KeyError m)
  | None => Ok (map (fun kv => if isin (fst kv) members then (fst kv, label) else kv) s)
  end.

Fixpoint label_communities (output : list (list string)) (c : Z)
    (busmap : Series string string) : result (Series string string) :=
  match output with
  | [] => Ok busmap
  | members :: rest =>
      busmap' <- loc_set members (string_of_Z c) busmap ;;
      label_communities rest (c + 1) busmap'
  end.

(** The graph [G] of [busmap_by_newman], built from the lines inside the group. *)
Definition newman_graph (n : Network) (buses_i : list string) : Graph :=
  graph_of buses_i (weighted_lines newman_weight buses_i (lines n)).

Definition busmap_by_newman (C : Collaborators) (n : Network) (n_clusters : Z)
    (buses_i : list string) : Network * result (Series string string) :=
  let n := calculate_dependent_values C n in
  let G := newman_graph n buses_i in
  let output := greedy_modularity C G n_clusters in
  (n, label_communities output 0 (combine buses_i buses_i)).

(** ** busmap_for_n_clusters *)

(** [dict.setdefault] *)
Definition setdefault (k : string) (v : Q) (kw : Kwds) : Kwds :=
  if isin k (map fst kw) then kw else kw ++ [(k, v)].

Definition default_kwds (algorithm : string) (kw : Kwds) : Kwds :=
  if String.eqb algorithm "kmeans"
  then setdefault "tol" (1 # 1000000)
         (setdefault "max_iter" 30000 (setdefault "n_init" 1000 kw))
  else kw.

(** [reduce_network(n, buses)]: the group's buses and the lines inside it. *)
Definition reduce_network (n : Network) (group : list Bus) : Network :=
  mkNetwork group (filter (in_group (map bus_name group)) (lines n)) [] [] [].

(** [n_clusters[x.name]] *)
Definition budget_of (budget : Series GroupKey Z) (k : GroupKey) : result Z :=
  match lookup gk_eqb k budget with
  | Some v => Ok v
  | None => Raise (KeyError (fst k ++ snd k))
  end.

Definition group_prefix (k : GroupKey) : string := (fst k ++ snd k ++ " ")%string.

Definition with_prefix (prefix : string) (r : Network * result (Series string string))
    : Network * result (Series string string) :=
  (fst r, bm <- snd r ;; Ok (add_prefix prefix bm)).

Definition busmap_for_country (C : Collaborators) (algorithm : string) (kw : Kwds)
    (budget : Series GroupKey Z) (n : Network) (grp : GroupKey * list Bus)
    : Network * result (Series string string) :=
  let name := fst grp in
  let group := snd grp in
  let x_index := map bus_name group in
  let prefix := group_prefix name in
  if Nat.eqb (length group) 1
  then (n, Ok (map (fun b => (b, (prefix ++ "0")%string)) x_index))
  else
    match weighting_for_country n x_index with
    | Raise e => (n, Raise e)
    | Ok weight =>
        if String.eqb algorithm "kmeans" then
          (n, k <- budget_of budget name ;;
              Ok (add_prefix prefix (busmap_by_kmeans C n weight k x_index kw)))
        else if String.eqb algorithm "spectral" then
          (n, k <- budget_of budget name ;;
              Ok (add_prefix prefix
                    (busmap_by_spectral_clustering C (reduce_network n group) k kw)))
        else if String.eqb algorithm "hac" then
          (n, k <- budget_of budget name ;;
              bm <- busmap_by_hac C n k x_index ;;
              Ok (add_prefix prefix bm))
        else if String.eqb algorithm "louvain" then
          match budget_of budget name with
          | Raise e => (n, Raise e)
          | Ok k => with_prefix prefix (busmap_by_louvain C community n k x_index)
          end
        else if String.eqb algorithm "newman" then
          match budget_of budget name with
          | Raise e => (n, Raise e)
          | Ok k => with_prefix prefix (busmap_by_newman C n k x_index)
          end
        else
          (n, Raise (ValueError
                 ("`algorithm` must be one of 'kmeans', 'spectral' or 'louvain'. Is "
                  ++ algorithm ++ ".")))
    end.

(** [groupby(...).apply(f)]: the groups in key order, the network handed from
    one call to the next, the first exception ending the run. *)
Fixpoint apply_groups (f : Network -> GroupKey * list Bus ->
                           Network * result (Series string string))
    (n : Network) (groups : list (GroupKey * list Bus))
    : Network * result (list (Series string string)) :=
  match groups with
  | [] => (n, Ok [])
  | g :: rest =>
      match f n g with
      | (n1, Raise e) => (n1, Raise e)
      | (n1, Ok bm) =>
          match apply_groups f n1 rest with
          | (n2, Raise e) => (n2, Raise e)
          | (n2, Ok bms) => (n2, Ok (bm :: bms))
          end
      end
  end.

(** [.squeeze().rename('busmap')]: a result of one row is squeezed to a
    scalar, a [str], which has no [rename]. *)
Definition squeeze_rename (bm : Series string string) : result (Series string string) :=
  if Nat.eqb (length bm) 1
  then Raise (AttributeError "'str' object has no attribute 'rename'")
  else Ok bm.

(** The function returns the state it leaves the network [n] in, next to its
    result. *)
Definition busmap_for_n_clusters (C : Collaborators) (n : Network) (n_clusters : Z)
    (solver_name : string) (focus_weights : option (list (string * Q)))
    (algorithm : string) (algorithm_kwds : Kwds)
    : Network * result (Series string string) :=
  let kw := default_kwds algorithm algorithm_kwds in
  let n := determine_network_topology C n in
  match distribute_clusters (solver C) n n_clusters focus_weights solver_name with
  | Raise e => (n, Raise e)
  | Ok budget =>
      match apply_groups (busmap_for_country C algorithm kw budget) n
                         (groupby gk_eqb gk_leb bus_key (buses n)) with
      | (n', Raise e) => (n', Raise e)
      | (n', Ok parts) => (n', squeeze_rename (concat parts))
      end
  end.

(** ** clustering_for_n_clusters, up to the call of the network reducer *)


(** [len(busmap.unique())] *)
Definition n_unique (bm : Series string string) : Z :=
  Z.of_nat (length (dedup String.eqb (values bm))).


(** ** Reference collaborators

    Executable stand-ins for the library routines, used to run the embedding
    on concrete networks. *)

Module Reference.

(** An exact solver of the integer program: start every variable at its
    lower bound and give the remaining units, one at a time, to the variable
    whose squared deviation grows least. *)
Record Var : Type := mkVar {
  v_key : GroupKey;
  v_val : Z;
  v_ub : Z;
  v_target : Q
}.

Definition marginal (v : Var) : Q := 2 * (inject_Z (v_val v) - v_target v) + 1.

Definition can_grow (v : Var) : bool := (v_val v <? v_ub v)%Z.

Fixpoint best_var (vs : list Var) : option Var :=
  match vs with
  | [] => None
  | v :: t =>
      match best_var t with
      | None => if can_grow v then Some v else None
      | Some w =>
          if (can_grow v && Qle_bool (marginal v) (marginal w))%bool
          then Some v else Some w
      end
  end.

Definition grow (k : GroupKey) (vs : list Var) : list Var :=
  map (fun v => if gk_eqb (v_key v) k
                then mkVar (v_key v) (v_val v + 1) (v_ub v) (v_target v) else v) vs.

Fixpoint give (units : nat) (vs : list Var) : option (list Var) :=
  match units with
  | O => Some vs
  | S u =>
      match best_var vs with
      | None => None
      | Some v => give u (grow (v_key v) vs)
      end
  end.

Definition target_of (m : Model) (k : GroupKey) : Q :=
  match lookup gk_eqb k (m_targets m) with
  | Some (Fin q) => q
  | _ => 0
  end.

Definition initial_vars (m : Model) : list Var :=
  map (fun kb => mkVar (fst kb) (fst (snd kb)) (snd (snd kb)) (target_of m (fst kb)))
      (m_bounds m).

Definition integer_solve (m : Model) : SolverResult :=
  let vs := initial_vars m in
  let low := Zsum (map v_val vs) in
  if (forallb (fun v => (v_val v <=? v_ub v)%Z) vs && (low <=? m_total m)%Z)%bool
  then match give (Z.to_nat (m_total m - low)) vs with
       | Some vs' =>
           mkSolverResult true (map (fun v => (v_key v, Fin (inject_Z (v_val v)))) vs')
       | None => mkSolverResult false []
       end
  else mkSolverResult false [].

(** The continuous relaxation, which is what ipopt solves: when every target
    [L[g] * n_clusters] lies within its bounds the targets themselves are the
    minimiser (the objective is 0 there and they sum to [n_clusters]). *)
Definition within_bounds (m : Model) (kv : GroupKey * float64) : bool :=
  match lookup gk_eqb (fst kv) (m_bounds m) with
  | Some (lo, hi) => (fle (Fin (inject_Z lo)) (snd kv) && fle (snd kv) (Fin (inject_Z hi)))%bool
  | None => false
  end.

Definition relaxed_solve (m : Model) : SolverResult :=
  if forallb (within_bounds m) (m_targets m)
  then mkSolverResult true (m_targets m)
  else mkSolverResult false [].

(** [SolverFactory]: gurobi states the quadratic-objective capability, cbc
    and the others do not; ipopt is the continuous solver. *)
Definition pyomo : Solver :=
  mkSolver (fun name => String.eqb name "gurobi")
           (fun name => if String.eqb name "ipopt" then relaxed_solve else integer_solve).

(** Connected components of the line graph, numbered in the order in which
    their first bus appears, as scipy's [connected_components] numbers them. *)
Definition neighbours (ls : list Line) (b : string) : list string :=
  flat_map (fun l => if String.eqb (bus0 l) b then [bus1 l]
                     else if String.eqb (bus1 l) b then [bus0 l] else []) ls.

Fixpoint reach (fuel : nat) (ls : list Line) (seen : list string) : list string :=
  match fuel with
  | O => seen
  | S f => reach f ls (fold_left add_node (flat_map (neighbours ls) seen) seen)
  end.

Fixpoint label_buses (ls : list Line) (fuel : nat) (todo : list string)
    (next : Z) (done : Series string Z) : Series string Z :=
  match todo with
  | [] => done
  | b :: t =>
      if isin b (index done) then label_buses ls fuel t next done
      else
        let comp := reach fuel ls [b] in
        label_buses ls fuel t (next + 1)
          (done ++ map (fun m => (m, next)) comp)
  end.

Definition connected_components (n : Network) (b : string) : Z :=
  let names := buses_index n in
  match lookup String.eqb b (label_buses (lines n) (length names) names 0 []) with
  | Some l => l
  | None => (-1)%Z
  end.

(** A clustering that deals the buses round-robin into [k] clusters. *)
Fixpoint round_robin (k : Z) (i : Z) (buses_i : list string) : Series string Z :=
  match buses_i with
  | [] => []
  | b :: t => (b, (i mod k)%Z) :: round_robin k (i + 1) t
  end.

Definition round_robin_labels (k : Z) (buses_i : list string) : Series string string :=
  map_values string_of_Z (round_robin k 0 buses_i).

Definition communities_of (k : Z) (buses_i : list string) : list (list string) :=
  map (fun c => map fst (filter (fun kv => Z.eqb (snd kv) (Z.of_nat c))
                                (round_robin k 0 buses_i)))
      (seq 0 (Z.to_nat k)).

(** [v ** 1.5] to six decimals. *)
Definition pow15_approx (v : Z) : float64 :=
  Fin (inject_Z (Z.sqrt (v * v * v * 1000000000000)) / 1000000).

Definition collaborators : Collaborators :=
  mkCollaborators pyomo connected_components (fun ls => ls)
    (fun _ _ k buses_i _ => round_robin_labels k buses_i)
    (fun nr k _ => round_robin_labels k (buses_index nr))
    (fun _ k buses_i => values (round_robin k 0 buses_i))
    (fun g k => communities_of k (nodes g))
    pow15_approx.

End Reference.

(** ** Example networks *)

Module Examples.

Definition C : Collaborators := Reference.collaborators.

Definition bus (name ctry : string) : Bus := mkBus name ctry "" 0 0.

(** Two countries, each one connected component. *)
Definition net_demo : Network :=
  mkNetwork
    [bus "a1" "AA"; bus "a2" "AA"; bus "a3" "AA"; bus "b1" "BB"; bus "b2" "BB"]
    [mkLine "l1" "a1" "a2" 100 2 5; mkLine "l2" "a2" "a3" 50 1 4;
     mkLine "l3" "b1" "b2" 10 1 1]
    [mkUnit "a1" "OCGT" 10; mkUnit "a2" "solar" 20]
    []
    [mkLoad "d1" "a1" 3; mkLoad "d2" "a3" 1; mkLoad "d3" "b1" 4].

(** Country BB is a single bus that carries no load. *)
Definition net_unloaded : Network :=
  mkNetwork
    [bus "a1" "AA"; bus "a2" "AA"; bus "b1" "BB"]
    [mkLine "l1" "a1" "a2" 100 2 5]
    []
    []
    [mkLoad "d1" "a1" 10; mkLoad "d2" "a2" 5].

(** Two groups of three buses with the same load. *)
Definition net_even : Network :=
  mkNetwork
    [bus "a1" "AA"; bus "a2" "AA"; bus "a3" "AA";
     bus "b1" "BB"; bus "b2" "BB"; bus "b3" "BB"]
    [mkLine "l1" "a1" "a2" 100 2 5; mkLine "l2" "a2" "a3" 100 2 5;
     mkLine "l3" "b1" "b2" 100 2 5; mkLine "l4" "b2" "b3" 100 2 5]
    []
    []
    [mkLoad "d1" "a1" 7; mkLoad "d2" "b1" 7].

(** Country AA is two connected buses with neither load nor conventional
    generation (say, an offshore link); country BB carries the load. *)
Definition net_idle : Network :=
  mkNetwork
    [bus "a1" "AA"; bus "a2" "AA"; bus "b1" "BB"; bus "b2" "BB"]
    [mkLine "l1" "a1" "a2" 100 2 5; mkLine "l2" "b1" "b2" 100 2 5]
    [mkUnit "a1" "offwind-ac" 300]
    []
    [mkLoad "d1" "b1" 8; mkLoad "d2" "b2" 2].

(** One country only. *)
Definition net_mono : Network :=
  mkNetwork
    [bus "a1" "AA"; bus "a2" "AA"; bus "a3" "AA"]
    [mkLine "l1" "a1" "a2" 100 2 5; mkLine "l2" "a2" "a3" 100 2 5]
    []
    []
    [mkLoad "d1" "a1" 6; mkLoad "d2" "a2" 3].


(** Eleven isolated buses, the first in a country "A1" and the last in a
    country "A", then two connected buses of a country "ZZ". *)
Definition isolated (i : nat) : Bus :=
  bus ("n" ++ string_of_Z (Z.of_nat i))
      (if Nat.eqb i 0 then "A1" else if Nat.eqb i 10 then "A" else "C" ++ string_of_Z (Z.of_nat i)).

Definition net_prefix : Network :=
  mkNetwork
    (map isolated (seq 0 11) ++ [bus "p" "ZZ"; bus "q" "ZZ"])
    [mkLine "l1" "p" "q" 100 2 5]
    []
    []
    (map (fun b => mkLoad ("d" ++ bus_name b) (bus_name b) 1)
         (map isolated (seq 0 11) ++ [bus "p" "ZZ"])).

(** A python-louvain whose first two calls split the graph in two and whose
    later calls return one community. *)
Definition split_two (g : Graph) : Partition := Reference.round_robin 2 0 (nodes g).
Definition lump (g : Graph) : Partition := map (fun b => (b, 0%Z)) (nodes g).

Definition fading : BestPartition :=
  fun calls g _ => if Nat.ltb calls 2 then split_two g else lump g.

(** The graph of the AA group of [net_demo]. *)
Definition G_demo : Graph := louvain_graph net_demo ["a1"; "a2"; "a3"].

End Examples.

(** ** cluster_regions *)

(** [x.map(y)] for two busmaps: each label of [x] is looked up in [y]; a label
    that [y] does not have becomes NaN, here [None], and stays so. *)
Definition series_map (x : Series string (option string)) (y : Series string string)
    : Series string (option string) :=
  map_values (fun v => match v with
                       | Some l => lookup String.eqb l y
                       | None => None
                       end) x.

(** [reduce(lambda x, y: x.map(y), busmaps[1:], busmaps[0])] on a tuple of at
    least one busmap. *)
Definition chain_busmaps (first : Series string string)
    (rest : list (Series string string)) : Series string (option string) :=
  fold_left series_map rest (map_values Some first).

(** [regions.geometry.groupby(busmap)]: each region goes under the label that
    the busmap gives to its name; a region without a label is in no group. *)
Definition labelled_regions {Geometry : Type} (busmap : Series string (option string))
    (regions : Series string Geometry) : list (string * Geometry) :=
  flat_map (fun r => match lookup String.eqb (fst r) busmap with
                     | Some (Some l) => [(l, snd r)]
                     | _ => []
                     end) regions.

Definition region_groups {Geometry : Type} (busmap : Series string (option string))
    (regions : Series string Geometry) : Series string (list Geometry) :=
  map (fun g => (fst g, map snd (snd g)))
      (groupby String.eqb String.leb fst (labelled_regions busmap regions)).

(** The two region tables that [cluster_regions] writes, the union of the
    geometries being shapely's. *)
Definition cluster_regions {Geometry : Type} (cascaded_union : list Geometry -> Geometry)
    (first : Series string string) (rest : list (Series string string))
    (regions_onshore regions_offshore : Series string Geometry)
    : Series string Geometry * Series string Geometry :=
  let busmap := chain_busmaps first rest in
  (map_values cascaded_union (region_groups busmap regions_onshore),
   map_values cascaded_union (region_groups busmap regions_offshore)).

(** ** Further examples *)

(** Three isolated buses, each with a load. *)
Definition net_isolated : Network :=
  mkNetwork
    [Examples.bus "i1" "AA"; Examples.bus "i2" "AA"; Examples.bus "i3" "BB"]
    []
    []
    []
    [mkLoad "d1" "i1" 1; mkLoad "d2" "i2" 2; mkLoad "d3" "i3" 3].

(** A single bus with its load. *)
Definition net_single : Network :=
  mkNetwork [Examples.bus "s1" "AA"] [] [] [] [mkLoad "d1" "s1" 1].

(** Collaborators whose [greedy_modularity] returns a community with a bus
    that is not in the graph. *)
Definition stray_collaborators : Collaborators :=
  mkCollaborators (solver Examples.C) (component_label Examples.C)
    (dependent_line_values Examples.C) (busmap_by_kmeans Examples.C)
    (busmap_by_spectral_clustering Examples.C) (hac_fit_predict Examples.C)
    (fun g _ => [nodes g; ["zz"]]) (pow15 Examples.C).

(** The program of the allocator for the network of two equal groups and
    three clusters. *)
Definition model_even : Model :=
  mkModel [("AA", "0"); ("BB", "1")]
          [("AA", "0", (1%Z, 3%Z)); ("BB", "1", (1%Z, 3%Z))]
          3
          [("AA", "0", Fin (21 # 14)); ("BB", "1", Fin (21 # 14))].

(** ** Vocabulary of the statements *)

(** The weight the specification describes: thermal capacity over the
    magnitude of the reactance. *)
Definition capacity_over_reactance (l : Line) : float64 :=
  fdiv (Fin (s_nom l)) (fabs (Fin (line_x l))).

(** The two preconditions of the allocator. *)
Definition range_ok (n : Network) (n_clusters : Z) : bool :=
  ((Z.of_nat (length (group_sizes n)) <=? n_clusters)%Z
   && (n_clusters <=? Zsum (values (group_sizes n)))%Z)%bool.

Definition focus_ok (focus_weights : option (list (string * Q))) : bool :=
  match focus_weights with
  | None => true
  | Some fw => Qle_bool (Qsum (map snd fw)) 1
  end.





(** A finite float that is positive, or not negative. *)
Definition fpositive (a : float64) : Prop :=
  match a with Fin q => 0 < q | _ => False end.

Definition fnonneg (a : float64) : Prop :=
  match a with Fin q => 0 <= q | _ => False end.

Definition ffinite (a : float64) : Prop :=
  match a with Fin _ => True | _ => False end.

(** The rational held by a finite float. *)
Definition to_q (a : float64) : Q :=
  match a with Fin q => q | _ => 0 end.

(** A series whose total is at most 2^1023: no float sum of cells that are
    not negative comes near the overflow threshold 2^1024. *)
Definition series_in_range {K : Type} (s : Series K float64) : Prop :=
  match fsum (values s) with
  | Fin t => t <= pow2 1023
  | _ => False
  end.

(** The units that count in [weighting_for_country]. *)
Definition conv_units (n : Network) : list Unit_ :=
  filter (fun u => isin (carrier u) conv_carriers) (generators n ++ storage_units n).

(** Conventional capacities and mean demands that are not negative and whose
    totals are at most 2^1023: no float sum of them reaches an infinity. *)
Definition inputs_in_range (n : Network) : Prop :=
  Forall (fun u => 0 <= p_nom u) (conv_units n)
  /\ Forall (fun l => 0 <= p_set_mean l) (loads n)
  /\ Qsum (map p_nom (conv_units n)) <= pow2 1023
  /\ Qsum (map p_set_mean (loads n)) <= pow2 1023.

(** The total share of the groups whose country is no focus key. *)
Definition remainder_total (fw : list (string * Q)) (L : Series GroupKey float64) : float64 :=
  fsum (values (filter (fun kv => negb (in_focus fw (fst kv))) L)).

(** Whether a string holds a blank. *)
Fixpoint has_space (s : string) : bool :=
  match s with
  | EmptyString => false
  | String c t => (Ascii.eqb c " " || has_space t)%bool
  end.

(** What every strategy owes the builder: the series it returns is indexed by
    the buses it was given. The two strategies of PyPSA are collaborators. *)
Definition strategies_indexed (C : Collaborators) : Prop :=
  (forall n w k idx kw, index (busmap_by_kmeans C n w k idx kw) = idx)
  /\ (forall nr k kw, index (busmap_by_spectral_clustering C nr k kw) = buses_index nr).

(** The busmap of one group: its keys are the buses of the group, in order,
    and each label starts with the prefix of the group. *)
Definition part_ok (grp : GroupKey * list Bus) (bm : Series string string) : Prop :=
  index bm = map bus_name (snd grp)
  /\ forall kv, In kv bm -> exists l0, snd kv = (group_prefix (fst grp) ++ l0)%string.

(** The states the while loop passes through: the one it starts in and the
    one after each pass. *)
Fixpoint visited (C : Collaborators) (best_partition : BestPartition) (G : Graph)
    (n_clusters : Z) (fuel : nat) (s : SearchState) : list SearchState :=
  s :: match fuel with
       | O => []
       | S fuel' =>
           if loop_test n_clusters s
           then let s' := attempt C best_partition G n_clusters s in
                if (n_communities (st_bu s') =? n_clusters)%Z then [s']
                else visited C best_partition G n_clusters fuel' s'
           else []
       end.

(** The resolution a repeat starts with: [100/(n_clusters**1.5)]. *)
Definition first_resolution (C : Collaborators) (n_clusters : Z) : float64 :=
  fdiv (Fin 100) (pow15 C n_clusters).

(** What [best_partition] may be given: a positive resolution that is the
    first one of a repeat or is at least 1e-10. *)
Definition resolution_admissible (C : Collaborators) (n_clusters : Z) (r : float64)
    : Prop :=
  fpositive r
  /\ (feq r (first_resolution C n_clusters) \/ fle (Fin (1 # 10000000000)) r = true).

(** The search state at the head of the loop. Before the first pass [c] is 1
    and the resolution is the first one; after a pass the floor of lines 308
    and 309 has brought the resolution to 1e-4 at least. Every resolution
    passed to [best_partition] so far was admissible. *)
Definition resolution_floored (C : Collaborators) (n_clusters : Z) (s : SearchState)
    : Prop :=
  (1 <= st_c s <= 500)%Z
  /\ ((st_c s = 1%Z /\ st_res s = first_resolution C n_clusters)
      \/ ((1 < st_c s)%Z /\ ffinite (st_res s)
          /\ fle (Fin (1 # 10000)) (st_res s) = true))
  /\ Forall (resolution_admissible C n_clusters) (st_trace s).

(** The program that [distribute_clusters] hands to the solver (lines 186 to
    218), when the assertions before it pass. *)
Definition allocation_model (n : Network) (n_clusters : Z)
    (focus_weights : option (list (string * Q))) : result Model :=
  _ <- assert ((Z.of_nat (length (group_sizes n)) <=? n_clusters)%Z
               && (n_clusters <=? Zsum (values (group_sizes n)))%Z)
              (range_msg (group_sizes n)) ;;
  L <- adjust_focus focus_weights (load_share n) ;;
  _ <- assert (np_isclose (fsum (values L)) (Fin 1) (1 # 1000)) sum_msg ;;
  build_model L (group_sizes n) n_clusters.

(** The value the solver left in the variable of a group. *)
Definition solution_value (res : SolverResult) (k : GroupKey) : float64 :=
  match lookup gk_eqb k (var_values res) with
  | Some v => v
  | None => NaN
  end.

Definition in_bounds (m : Model) (res : SolverResult) (k : GroupKey) : bool :=
  match solution_value res k, lookup gk_eqb k (m_bounds m) with
  | Fin q, Some (lo, hi) => (Qle_bool (inject_Z lo) q && Qle_bool q (inject_Z hi))%bool
  | _, _ => false
  end.

(** A solver answer that meets the bounds and the sum constraint of the
    program, integrality apart. *)
Definition relaxed_feasible (m : Model) (res : SolverResult) : bool :=
  (status_ok res
   && forallb (in_bounds m res) (m_vars m)
   && Qeq_bool (Qsum (map (fun k => to_q (solution_value res k)) (m_vars m)))
               (inject_Z (m_total m)))%bool.

(** Every variable holds an integer. *)
Definition integral_answer (m : Model) (res : SolverResult) : bool :=
  forallb (fun k => match solution_value res k with
                    | Fin q => Qeq_bool q (inject_Z (Qtrunc q))
                    | _ => false
                    end) (m_vars m).

(** The solver that [distribute_clusters] ends up calling. *)
Definition chosen_solver (slv : Solver) (solver_name : string) : string :=
  if has_quadratic_objective slv solver_name then solver_name else "ipopt".

(** * Properties *)

(** ** Single-node groups *)

(** C8. A partition group of exactly one node is mapped to the single label
    made of the group prefix and "0", whatever the algorithm name, the
    options, the budget and the collaborators are; the network is handed back
    untouched, so neither the weighting nor any strategy has run. *)
Theorem single_node_group_trivial_map :
  forall (C : Collaborators) (algorithm : string) (kw : Kwds)
         (budget : Series GroupKey Z) (n : Network) (name : GroupKey) (b : Bus),
    busmap_for_country C algorithm kw budget n (name, [b])
    = (n, Ok [(bus_name b, (group_prefix name ++ "0")%string)]).
Proof.
  intros C algorithm kw budget n name b.
  unfold busmap_for_country; cbn [fst snd length Nat.eqb map].
  reflexivity.
Qed.

(** ** The cluster count after a generated busmap *)



(** ** The graph of the greedy-modularity strategy *)

(** Every edge handed to the graph of [busmap_by_newman] joins the two ends of
    a line inside the group and weighs [s_nom / |r|]. *)
Lemma newman_edges_from_group_lines :
  forall (n : Network) (buses_i : list string) (e : string * string * float64),
    In e (weighted_lines newman_weight buses_i (lines n)) ->
    exists l, In l (lines n) /\ in_group buses_i l = true
              /\ e = (bus0 l, bus1 l, fdiv (Fin (s_nom l)) (Fin (Qabs (line_r l)))).
Proof.
  intros n buses_i e He. unfold weighted_lines in He.
  apply in_map_iff in He. destruct He as [l [<- Hl]].
  apply filter_In in Hl. destruct Hl as [Hin Hg].
  exists l. repeat split; assumption.
Qed.

(** C5. On a line of capacity 100, resistance 2 and reactance 5 the edge that
    [busmap_by_newman] builds weighs 100/2 = 50, the capacity over the
    resistance, where capacity over reactance is 100/5 = 20. *)
Theorem newman_edge_weight_divides_by_resistance :
  edges (newman_graph (calculate_dependent_values Examples.C Examples.net_demo)
                      ["a1"; "a2"; "a3"])
  = [("a1", "a2", newman_weight (mkLine "l1" "a1" "a2" 100 2 5));
     ("a2", "a3", newman_weight (mkLine "l2" "a2" "a3" 50 1 4))]
  /\ feq (newman_weight (mkLine "l1" "a1" "a2" 100 2 5)) (Fin 50)
  /\ feq (capacity_over_reactance (mkLine "l1" "a1" "a2" 100 2 5)) (Fin 20).
Proof.
  repeat split; vm_compute; reflexivity.
Qed.

(** ** Failing runs of the weighting and of the allocator *)

(** C3. A group of two buses with no load and no conventional generation:
    both normed series are zero, their maximum is zero, the scale [100/0] is
    infinite, [0 * inf] is NaN in every cell, and the conversion to integers
    raises. The whole busmap generation fails with it. *)
Theorem weighting_raises_without_load_and_generation :
  weighting_for_country Examples.net_idle ["a1"; "a2"]
  = Raise (ValueError "Cannot convert non-finite values (NA or inf) to integer")
  /\ snd (busmap_for_n_clusters Examples.C Examples.net_idle 2 "gurobi" None "kmeans" [])
     = Raise (ValueError "Cannot convert non-finite values (NA or inf) to integer").
Proof.
  split; vm_compute; reflexivity.
Qed.

(** C1. Two accepted runs of the allocator. In the first the group (BB, 1)
    has no load, so it is no key of [L] and gets no entry in the budget. In
    the second the configured solver cbc has no quadratic objective, ipopt
    solves the relaxation, the values 3/2 and 3/2 are truncated, and the
    budget sums to 2 where 3 clusters were requested. *)
Theorem budget_misses_group_and_total :
  group_sizes (determine_network_topology Examples.C Examples.net_unloaded)
  = [("AA", "0", 2%Z); ("BB", "1", 1%Z)]
  /\ distribute_clusters (solver Examples.C)
       (determine_network_topology Examples.C Examples.net_unloaded) 2 None "gurobi"
     = Ok [("AA", "0", 2%Z)]
  /\ group_sizes (determine_network_topology Examples.C Examples.net_even)
     = [("AA", "0", 3%Z); ("BB", "1", 3%Z)]
  /\ distribute_clusters (solver Examples.C)
       (determine_network_topology Examples.C Examples.net_even) 3 None "cbc"
     = Ok [("AA", "0", 1%Z); ("BB", "1", 1%Z)].
Proof.
  repeat split; vm_compute; reflexivity.
Qed.

(** C4. As the script stands, [busmap_by_louvain] raises NameError at its
    first [community.best_partition], whatever it is called with. With the
    package bound to a routine that finds the two requested communities in
    the first and in the second repeat and a single one afterwards, the
    result is the single cluster of the third repeat. *)
Theorem louvain_fails_and_forgets_earlier_repeats :
  (forall (C : Collaborators) (network : Network) (n_clusters : Z) (buses_i : list string),
      snd (busmap_by_louvain C community network n_clusters buses_i)
      = Raise (NameError "name 'community' is not defined"))
  /\ n_communities (st_bu (one_repeat Examples.C Examples.fading Examples.G_demo 2 0 [])) = 2%Z
  /\ n_communities (st_bu (three_repeats Examples.C Examples.fading Examples.G_demo 2)) = 1%Z
  /\ snd (busmap_by_louvain Examples.C (Some Examples.fading) Examples.net_demo 2
                            ["a1"; "a2"; "a3"])
     = Ok [("a1", "0"); ("a2", "0"); ("a3", "0")].
Proof.
  split; [reflexivity|].
  repeat split; vm_compute; reflexivity.
Qed.

(** ** The assertions of the allocator *)

Lemma mapM_raise :
  forall (A B : Type) (f : A -> result B) (l : list A) (e : exn),
    mapM f l = Raise e -> exists a, In a l /\ f a = Raise e.
Proof.
  intros A B f l e. induction l as [|a t IH]; cbn; [discriminate|].
  destruct (f a) as [b|e'] eqn:Hfa; cbn.
  - destruct (mapM f t) as [bs|e''] eqn:Ht; cbn; [discriminate|].
    intros [= ->]. destruct (IH eq_refl) as [a' [Hin Ha']]. exists a'. auto.
  - intros [= ->]. exists a. auto.
Qed.

Lemma mapM_ok_map :
  forall (A B : Type) (f : A -> result B) (l : list A) (bs : list B),
    mapM f l = Ok bs -> Forall2 (fun a b => f a = Ok b) l bs.
Proof.
  intros A B f l. induction l as [|a t IH]; cbn; intros bs H.
  - injection H as <-. constructor.
  - destruct (f a) as [b|e] eqn:Hfa; cbn in H; [|discriminate].
    destruct (mapM f t) as [bs'|e] eqn:Ht; cbn in H; [|discriminate].
    injection H as <-. constructor; auto.
Qed.

Lemma astype_int_raise :
  forall (a : float64) (e : exn),
    astype_int a = Raise e ->
    e = ValueError "Cannot convert non-finite values (NA or inf) to integer".
Proof.
  intros [q| | |] e; cbn; intros [= <-]; reflexivity.
Qed.



(** *** The float sum of the focus weights *)








(** ** The focus-weight override *)

(** C6 fails as stated: with the single country of the network as the only
    focus key at weight 1/2, nothing is left to renormalise and the adjusted
    load shares sum to 1/2; the allocator's own assertion then rejects them. *)
Lemma focus_override_sums_to_half :
  focus_ok (Some [("AA", 1 # 2)]) = true
  /\ (exists L,
        adjust_focus (Some [("AA", 1 # 2)])
          (load_share (determine_network_topology Examples.C Examples.net_mono)) = Ok L
        /\ feq (fsum (values L)) (Fin (1 # 2))
        /\ np_isclose (fsum (values L)) (Fin 1) (1 # 1000) = false)
  /\ distribute_clusters (solver Examples.C)
       (determine_network_topology Examples.C Examples.net_mono) 2
       (Some [("AA", 1 # 2)]) "gurobi"
     = Raise (AssertionError sum_msg).
Proof.
  split; [reflexivity|]. split.
  - eexists. split; [vm_compute; reflexivity|]. split; vm_compute; reflexivity.
  - vm_compute; reflexivity.
Qed.

(** ** What the busmap generation does to the bus table *)

Lemma busmap_for_country_buses :
  forall (C : Collaborators) (algorithm : string) (kw : Kwds)
         (budget : Series GroupKey Z) (n : Network) (grp : GroupKey * list Bus),
    buses (fst (busmap_for_country C algorithm kw budget n grp)) = buses n.
Proof.
  intros C alg kw budget n grp. unfold busmap_for_country.
  destruct (Nat.eqb (length (snd grp)) 1); [reflexivity|].
  destruct (weighting_for_country n (map bus_name (snd grp))); [|reflexivity].
  destruct (String.eqb alg "kmeans"); [reflexivity|].
  destruct (String.eqb alg "spectral"); [reflexivity|].
  destruct (String.eqb alg "hac"); [reflexivity|].
  destruct (String.eqb alg "louvain").
  { destruct (budget_of budget (fst grp)); [|reflexivity].
    unfold with_prefix, busmap_by_louvain. cbn [fst].
    destruct community; reflexivity. }
  destruct (String.eqb alg "newman"); [|reflexivity].
  destruct (budget_of budget (fst grp)); reflexivity.
Qed.

Lemma apply_groups_buses :
  forall (f : Network -> GroupKey * list Bus -> Network * result (Series string string)),
    (forall n g, buses (fst (f n g)) = buses n) ->
    forall (groups : list (GroupKey * list Bus)) (n : Network),
      buses (fst (apply_groups f n groups)) = buses n.
Proof.
  intros f Hf groups. induction groups as [|g rest IH]; intros n; cbn; [reflexivity|].
  specialize (Hf n g). destruct (f n g) as [n1 [bm|e]]; cbn in Hf; [|exact Hf].
  specialize (IH n1). destruct (apply_groups f n1 rest) as [n2 [bms|e]]; cbn in *; congruence.
Qed.

(** C9, amended. Whatever the outcome, the bus table that
    [busmap_for_n_clusters] leaves behind is the input table with the
    [sub_network] column rewritten by [determine_network_topology]: names,
    countries and positions are those of the input, bus by bus. *)
Theorem buses_changed_in_sub_network_only :
  forall (C : Collaborators) (n : Network) (n_clusters : Z) (solver_name : string)
         (focus_weights : option (list (string * Q))) (algorithm : string) (kw : Kwds),
    buses (fst (busmap_for_n_clusters C n n_clusters solver_name focus_weights algorithm kw))
    = map (fun b => mkBus (bus_name b) (country b)
                          (string_of_Z (component_label C n (bus_name b)))
                          (bus_x b) (bus_y b))
          (buses n).
Proof.
  intros C n K sn fw alg kw. unfold busmap_for_n_clusters.
  set (n1 := determine_network_topology C n).
  assert (Hn1 : buses n1 = map (fun b => mkBus (bus_name b) (country b)
                          (string_of_Z (component_label C n (bus_name b)))
                          (bus_x b) (bus_y b)) (buses n)) by reflexivity.
  destruct (distribute_clusters (solver C) n1 K fw sn) as [budget|e]; [|exact Hn1].
  pose proof (apply_groups_buses
                (busmap_for_country C alg (default_kwds alg kw) budget)
                (busmap_for_country_buses C alg (default_kwds alg kw) budget)
                (groupby gk_eqb gk_leb bus_key (buses n1)) n1) as H.
  destruct (apply_groups _ n1 _) as [n2 [parts|e]]; cbn in *; congruence.
Qed.

(** C9 fails as stated: the buses of the example network enter with an empty
    [sub_network] and leave with the labels of their components. *)
Lemma buses_mutated_by_topology :
  buses (fst (busmap_for_n_clusters Examples.C Examples.net_demo 4 "gurobi" None "kmeans" []))
  <> buses Examples.net_demo
  /\ map sub_network (buses Examples.net_demo) = [""; ""; ""; ""; ""]
  /\ map sub_network
       (buses (fst (busmap_for_n_clusters Examples.C Examples.net_demo 4 "gurobi" None
                      "kmeans" [])))
     = ["0"; "0"; "0"; "1"; "1"].
Proof.
  split.
  - intros H. apply (f_equal (map sub_network)) in H. vm_compute in H. discriminate H.
  - split; vm_compute; reflexivity.
Qed.


(** *** Sums of finite floats *)

Lemma Qsum_nil : Qsum [] = 0.
Proof. reflexivity. Qed.

Lemma Qsum_cons : forall (a : Q) (l : list Q), Qsum (a :: l) = a + Qsum l.
Proof. reflexivity. Qed.

Ltac qsum := cbn [map filter]; rewrite ?Qsum_cons, ?Qsum_nil.

Lemma fnonneg_finite : forall a, fnonneg a -> ffinite a.
Proof. intros [q| | |]; cbn; auto. Qed.

Lemma fsum_finite :
  forall l : list float64, Forall ffinite l -> fsum l = Fin (Qsum (map to_q l)).
Proof.
  induction l as [|a t IH]; intros H; [reflexivity|].
  inversion H as [|? ? Ha Ht]; subst. destruct a as [q| | |]; try contradiction.
  cbn. unfold fsum in IH. rewrite (IH Ht). reflexivity.
Qed.

Lemma Qsum_nonneg :
  forall l : list float64, Forall fnonneg l -> 0 <= Qsum (map to_q l).
Proof.
  induction l as [|a t IH]; intros H; qsum; [lra|].
  inversion H as [|? ? Ha Ht]; subst. specialize (IH Ht).
  destruct a as [q| | |]; cbn in Ha; try contradiction. cbn [to_q]. lra.
Qed.

Lemma Qsum_zero_all_zero :
  forall l : list float64,
    Forall fnonneg l -> Qsum (map to_q l) == 0 -> Forall (fun a => to_q a == 0) l.
Proof.
  induction l as [|a t IH]; intros H Hs; constructor;
    inversion H as [|? ? Ha Ht]; subst; pose proof (Qsum_nonneg t Ht) as Hn;
    cbn [map] in Hs; rewrite Qsum_cons in Hs;
    destruct a as [q| | |]; cbn in Ha; try contradiction; cbn [to_q] in *.
  - lra.
  - apply IH; [assumption|lra].
Qed.

Lemma Qsum_split :
  forall (A : Type) (f : A -> Q) (p : A -> bool) (l : list A),
    Qsum (map f l) == Qsum (map f (filter p l)) + Qsum (map f (filter (fun a => negb (p a)) l)).
Proof.
  intros A f p l. induction l as [|a t IH]; qsum; [lra|].
  destruct (p a); cbn [negb]; qsum; lra.
Qed.

Lemma Qsum_ext :
  forall (A : Type) (f g : A -> Q) (l : list A),
    (forall a, In a l -> f a == g a) -> Qsum (map f l) == Qsum (map g l).
Proof.
  intros A f g l H. induction l as [|a t IH]; qsum; [lra|].
  rewrite (H a (or_introl eq_refl)), IH; [lra|]. intros b Hb. apply H. now right.
Qed.

Lemma Qsum_scale :
  forall (A : Type) (f : A -> Q) (k : Q) (l : list A),
    Qsum (map (fun a => f a * k) l) == Qsum (map f l) * k.
Proof.
  intros A f k l. induction l as [|a t IH]; qsum; [lra|]. rewrite IH. lra.
Qed.

Lemma Qsum_const :
  forall (A : Type) (k : Q) (l : list A),
    Qsum (map (fun _ => k) l) == inject_Z (Z.of_nat (length l)) * k.
Proof.
  intros A k l. induction l as [|a t IH]; [cbn; ring|].
  qsum. rewrite IH. cbn [length].
  rewrite Nat2Z.inj_succ. unfold Z.succ. rewrite inject_Z_plus.
  change (inject_Z 1) with 1. ring.
Qed.

Lemma Qsum_perm : forall l1 l2 : list Q, Permutation l1 l2 -> Qsum l1 == Qsum l2.
Proof.
  intros l1 l2 Hp. induction Hp; rewrite ?Qsum_cons; lra.
Qed.

Lemma Qsum_app : forall l1 l2 : list Q, Qsum (l1 ++ l2) == Qsum l1 + Qsum l2.
Proof.
  intros l1 l2. induction l1 as [|a t IHt]; cbn [app];
    rewrite ?Qsum_cons, ?Qsum_nil; [lra|rewrite IHt; lra].
Qed.

(** *** The focus loop, entry by entry *)

Lemma isin_cons :
  forall (s c : string) (l : list string),
    isin s (c :: l) = (String.eqb s c || isin s l)%bool.
Proof. reflexivity. Qed.

Lemma isin_In : forall (s : string) (l : list string), isin s l = true <-> In s l.
Proof.
  intros s l. unfold isin. rewrite existsb_exists. split.
  - intros [y [Hy He]]. apply String.eqb_eq in He. now subst.
  - intros H. exists s. split; [assumption|apply String.eqb_refl].
Qed.

Lemma isin_not_In : forall (s : string) (l : list string), ~ In s l -> isin s l = false.
Proof.
  intros s l H. destruct (isin s l) eqn:E; [|reflexivity].
  apply isin_In in E. contradiction.
Qed.

Lemma set_country_filter_same :
  forall (c : string) (v : float64) (L : Series GroupKey float64),
    filter (fun kv => String.eqb (key_country (fst kv)) c) (set_country c v L)
    = map (fun kv => (fst kv, v))
          (filter (fun kv => String.eqb (key_country (fst kv)) c) L).
Proof.
  intros c v L. induction L as [|[k a] t IH]; [reflexivity|].
  cbn [set_country map filter fst] in *.
  destruct (String.eqb (key_country k) c) eqn:E; cbn [filter fst]; rewrite E;
    cbn [map fst]; now rewrite <- IH.
Qed.

Lemma set_country_filter_other :
  forall (p : GroupKey -> bool) (c : string) (v : float64) (L : Series GroupKey float64),
    (forall k, key_country k = c -> p k = false) ->
    filter (fun kv => p (fst kv)) (set_country c v L) = filter (fun kv => p (fst kv)) L.
Proof.
  intros p c v L Hp. induction L as [|[k a] t IH]; [reflexivity|].
  cbn [set_country map filter fst] in *.
  destruct (String.eqb (key_country k) c) eqn:E; cbn [filter fst].
  - apply String.eqb_eq in E. rewrite (Hp k E). exact IH.
  - destruct (p k); now rewrite <- IH.
Qed.

Lemma apply_focus_filter_other :
  forall (p : GroupKey -> bool) (fw : list (string * Q)) (L L1 : Series GroupKey float64),
    (forall k, isin (key_country k) (map fst fw) = true -> p k = false) ->
    apply_focus fw L = Ok L1 ->
    filter (fun kv => p (fst kv)) L1 = filter (fun kv => p (fst kv)) L.
Proof.
  intros p fw. induction fw as [|[c w] rest IH]; intros L L1 Hp H.
  - cbn in H. now injection H as <-.
  - cbn [apply_focus] in H. destruct (count_country c L) as [|m]; [discriminate|].
    rewrite (IH _ _ (fun k Hk => Hp k ltac:(cbn [map fst]; rewrite isin_cons, Hk;
                                            apply orb_true_r)) H).
    apply set_country_filter_other. intros k <-. apply Hp.
    cbn [map fst]. rewrite isin_cons, String.eqb_refl. reflexivity.
Qed.

Lemma focus_part_sum :
  forall (fw : list (string * Q)) (L L1 : Series GroupKey float64),
    NoDup (map fst fw) ->
    apply_focus fw L = Ok L1 ->
    Forall ffinite (values (filter (fun kv => in_focus fw (fst kv)) L1))
    /\ Qsum (map to_q (values (filter (fun kv => in_focus fw (fst kv)) L1)))
       == Qsum (map snd fw).
Proof.
  induction fw as [|[c w] rest IH]; intros L L1 Hnd H.
  - cbn in H. injection H as <-. unfold in_focus. cbn [map isin existsb].
    replace (filter (fun _ => false) L) with (@nil (GroupKey * float64)).
    + split; [constructor|reflexivity].
    + induction L; cbn; auto.
  - cbn [map fst] in Hnd. inversion Hnd as [|? ? Hc Hrest]; subst.
    cbn [apply_focus] in H. destruct (count_country c L) as [|m] eqn:Hcnt; [discriminate|].
    destruct (IH _ _ Hrest H) as [IHf IHs].
    pose proof (apply_focus_filter_other
                  (fun k => String.eqb (key_country k) c) rest _ _
                  (fun k Hk => ltac:(destruct (String.eqb (key_country k) c) eqn:E;
                                       [apply String.eqb_eq in E; subst;
                                        apply isin_In in Hk; contradiction|reflexivity]))
                  H) as Hsame.
    cbn beta in Hsame. rewrite set_country_filter_same in Hsame.
    set (cell := Fin (w / inject_Z (Z.of_nat (S m)))) in *.
    (* the focus entries of L1: those of country c, then those of the rest *)
    assert (Hsplit : forall (A : Type) (f : GroupKey * float64 -> A),
               Permutation
                 (map f (filter (fun kv => in_focus ((c, w) :: rest) (fst kv)) L1))
                 (map f (filter (fun kv => String.eqb (key_country (fst kv)) c) L1)
                  ++ map f (filter (fun kv => in_focus rest (fst kv)) L1))).
    { intros A f. clear - Hc. induction L1 as [|[k a] t IHt]; [constructor|].
      unfold in_focus in *. cbn [map fst filter] in *. rewrite isin_cons.
      destruct (String.eqb (key_country k) c) eqn:E; cbn [orb].
      - apply String.eqb_eq in E. subst. rewrite (isin_not_In _ _ Hc).
        cbn [map app]. now constructor.
      - destruct (isin (key_country k) (map fst rest)); [|exact IHt].
        cbn [map]. etransitivity; [constructor; exact IHt|].
        apply Permutation_middle. }
    split.
    + unfold values. eapply Permutation_Forall; [symmetry; apply Hsplit|].
      apply Forall_app. split; [|exact IHf].
      rewrite Hsame, map_map. cbn [snd]. apply Forall_forall.
      intros a Ha. apply in_map_iff in Ha. destruct Ha as [? [<- _]]. exact I.
    + unfold values. rewrite map_map.
      assert (Hperm := Hsplit Q (fun kv => to_q (snd kv))).
      rewrite (Qsum_perm _ _ Hperm). clear Hperm.
      rewrite Qsum_app.
      unfold values in IHs. rewrite map_map in IHs. rewrite IHs.
      rewrite Hsame, map_map. cbn [snd map]. rewrite Qsum_cons.
      rewrite Qsum_const. unfold count_country in Hcnt. rewrite Hcnt.
      unfold cell. cbn [to_q].
      assert (Hm : ~ inject_Z (Z.of_nat (S m)) == 0).
      { intros E. unfold Qeq in E. cbn in E. lia. }
      field. exact Hm.
Qed.

Lemma Qis_zero_true : forall q : Q, q == 0 -> Qis_zero q = true.
Proof. intros q H. apply Qeq_bool_iff. exact H. Qed.

Lemma Qis_zero_false : forall q : Q, ~ q == 0 -> Qis_zero q = false.
Proof.
  intros q H. unfold Qis_zero. destruct (Qeq_bool q 0) eqn:E; [|reflexivity].
  apply Qeq_bool_iff in E. contradiction.
Qed.

(** One cell of the remainder after [normed] and the scaling by [1 - total_focus]. *)
Lemma rescaled_cell :
  forall t q k : Q,
    0 <= t -> 0 <= q -> (t == 0 -> q == 0) ->
    exists c, fmul (normed_cell (Fin t) (Fin q)) (Fin k) = Fin c
              /\ (0 < t -> c == q * (k / t)) /\ (t == 0 -> c == 0).
Proof.
  intros t q k Ht Hq Hz. unfold normed_cell, fdiv.
  destruct (Qeq_dec t 0) as [E|E].
  - rewrite (Qis_zero_true t E), (Qis_zero_true q (Hz E)). cbn.
    eexists. split; [reflexivity|]. split; intros; lra.
  - rewrite (Qis_zero_false t E). cbn. eexists. split; [reflexivity|].
    split; [intros; field; exact E|intros; contradiction].
Qed.

(** The sum of the shares after the focus override: the focus total plus,
    when the other groups carry any share at all, what is left up to 1. *)
Lemma adjusted_sum :
  forall (fw : list (string * Q)) (L L' : Series GroupKey float64),
    NoDup (map fst fw) ->
    Forall fnonneg (values L) ->
    adjust_focus (Some fw) L = Ok L' ->
    exists s t,
      fsum (values L') = Fin s /\ remainder_total fw L = Fin t /\ 0 <= t
      /\ (0 < t -> s == 1) /\ (t == 0 -> s == Qsum (map snd fw)).
Proof.
  intros fw L L' Hnd Hnn H. unfold adjust_focus in H.
  destruct (Qle_bool (Qsum (map snd fw)) 1); cbn [assert bind] in H; [|discriminate].
  destruct (apply_focus fw L) as [L1|e] eqn:Hf; cbn [bind] in H; [|discriminate].
  injection H as <-.
  set (tf := Qsum (map snd fw)).
  destruct (focus_part_sum fw L L1 Hnd Hf) as [Hfin Hsum].
  assert (HR : filter (fun kv => negb (in_focus fw (fst kv))) L1 = filter (fun kv => negb (in_focus fw (fst kv))) L).
  { apply (apply_focus_filter_other (fun k => negb (in_focus fw k)) fw L L1); [|exact Hf].
    intros k Hk. unfold in_focus. now rewrite Hk. }
  assert (HRnn : Forall fnonneg (values (filter (fun kv => negb (in_focus fw (fst kv))) L))).
  { unfold values in *. rewrite Forall_forall in *. intros a Ha.
    apply in_map_iff in Ha. destruct Ha as [kv [<- Hkv]]. apply filter_In in Hkv.
    apply Hnn. apply in_map. tauto. }
  set (t := Qsum (map to_q (values (filter (fun kv => negb (in_focus fw (fst kv))) L)))).
  assert (HT : remainder_total fw L = Fin t).
  { unfold remainder_total. apply fsum_finite.
    eapply Forall_impl; [apply fnonneg_finite|exact HRnn]. }
  assert (Ht : 0 <= t) by (apply Qsum_nonneg; exact HRnn).
  unfold rescale_remainder. rewrite HR.
  change (fsum (values (filter (fun kv => negb (in_focus fw (fst kv))) L))) with (remainder_total fw L).
  rewrite HT. fold tf.
  set (cellf := fun kv : GroupKey * float64 =>
                  if in_focus fw (fst kv) then kv
                  else (fst kv, fmul (normed_cell (Fin t) (snd kv)) (Fin (1 - tf)))).
  (* every cell of the result is finite, with the value we expect *)
  assert (Hcell : forall kv, In kv L1 ->
            exists c, snd (cellf kv) = Fin c
                      /\ (in_focus fw (fst kv) = true -> c == to_q (snd kv))
                      /\ (in_focus fw (fst kv) = false
                          -> (0 < t -> c == to_q (snd kv) * ((1 - tf) / t))
                                          /\ (t == 0 -> c == 0))).
  { intros kv Hkv. unfold cellf. destruct (in_focus fw (fst kv)) eqn:Hp.
    - assert (Hk : ffinite (snd kv)).
      { unfold values in Hfin. rewrite Forall_forall in Hfin. apply Hfin.
        apply in_map. apply filter_In. auto. }
      destruct (snd kv) as [q| | |]; try contradiction.
      exists q. split; [reflexivity|]. split; [reflexivity|discriminate].
    - assert (Hin : In kv (filter (fun kv => negb (in_focus fw (fst kv))) L)).
      { rewrite <- HR. apply filter_In. rewrite Hp. auto. }
      assert (Hk : fnonneg (snd kv)).
      { unfold values in HRnn. rewrite Forall_forall in HRnn. apply HRnn.
        now apply in_map. }
      destruct (snd kv) as [q| | |] eqn:Hs; try contradiction. cbn in Hk.
      assert (Hz : t == 0 -> q == 0).
      { intros E. pose proof (Qsum_zero_all_zero _ HRnn E) as Hall.
        rewrite Forall_forall in Hall.
        specialize (Hall (snd kv) (in_map snd _ _ Hin)). now rewrite Hs in Hall. }
      destruct (rescaled_cell t q (1 - tf) Ht Hk Hz) as [c [Hc [Hc1 Hc0]]].
      exists c. cbn [snd]. split; [exact Hc|]. split; [discriminate|].
      intros _. cbn [to_q]. auto. }
  assert (Hfinite : Forall ffinite (values (map cellf L1))).
  { unfold values. rewrite map_map. apply Forall_forall. intros a Ha.
    apply in_map_iff in Ha. destruct Ha as [kv [<- Hkv]].
    destruct (Hcell kv Hkv) as [c [-> _]]. exact I. }
  exists (Qsum (map to_q (values (map cellf L1)))), t.
  split; [apply fsum_finite; exact Hfinite|]. split; [reflexivity|]. split; [exact Ht|].
  unfold values. rewrite !map_map.
  rewrite (Qsum_split _ (fun kv => to_q (snd (cellf kv)))
                      (fun kv => in_focus fw (fst kv)) L1).
  cbn beta.
  assert (Hfocus : Qsum (map (fun kv => to_q (snd (cellf kv)))
                             (filter (fun kv => in_focus fw (fst kv)) L1)) == tf).
  { etransitivity; [|exact Hsum]. unfold values. rewrite map_map. apply Qsum_ext.
    intros kv Hkv. apply filter_In in Hkv. destruct Hkv as [Hkv Hp].
    destruct (Hcell kv Hkv) as [c [-> [Hc _]]]. cbn [to_q]. auto. }
  rewrite Hfocus. rewrite HR. split; intros Hcase.
  - assert (Hrem : Qsum (map (fun kv => to_q (snd (cellf kv)))
                            (filter (fun kv => negb (in_focus fw (fst kv))) L))
                   == Qsum (map (fun kv => to_q (snd kv))
                                (filter (fun kv => negb (in_focus fw (fst kv))) L)) * ((1 - tf) / t)).
    { rewrite <- Qsum_scale. apply Qsum_ext. intros kv Hkv.
      rewrite <- HR in Hkv. apply filter_In in Hkv. destruct Hkv as [Hkv Hp].
      apply negb_true_iff in Hp.
      destruct (Hcell kv Hkv) as [c [-> [_ Hc]]]. cbn [to_q]. now apply Hc. }
    rewrite Hrem. unfold t in *. unfold values in *. rewrite map_map in *.
    field. lra.
  - assert (Hrem : Qsum (map (fun kv => to_q (snd (cellf kv)))
                            (filter (fun kv => negb (in_focus fw (fst kv))) L))
                   == Qsum (map (fun _ => 0) (filter (fun kv => negb (in_focus fw (fst kv))) L))).
    { apply Qsum_ext. intros kv Hkv.
      rewrite <- HR in Hkv. apply filter_In in Hkv. destruct Hkv as [Hkv Hp].
      apply negb_true_iff in Hp.
      destruct (Hcell kv Hkv) as [c [-> [_ Hc]]]. cbn [to_q]. now apply Hc. }
    rewrite Hrem, Qsum_const. ring.
Qed.

(** C6, amended. For focus weights over distinct countries that all have a
    group in [L] (the override returns), finite non-negative load shares, and
    non-focus groups that carry a positive total share, the adjusted load
    shares sum to 1, hence to 1 within the tolerance of 1e-3. *)
Theorem focus_override_sums_to_one :
  forall (fw : list (string * Q)) (L L' : Series GroupKey float64),
    NoDup (map fst fw) ->
    Forall fnonneg (values L) ->
    fpositive (remainder_total fw L) ->
    adjust_focus (Some fw) L = Ok L' ->
    feq (fsum (values L')) (Fin 1)
    /\ np_isclose (fsum (values L')) (Fin 1) (1 # 1000) = true.
Proof.
  intros fw L L' Hnd Hnn Hpos H.
  destruct (adjusted_sum fw L L' Hnd Hnn H) as [s [t [Hs [Ht [_ [H1 _]]]]]].
  rewrite Ht in Hpos. cbn in Hpos. specialize (H1 Hpos).
  rewrite Hs. split; [exact H1|].
  unfold np_isclose. apply Qle_bool_iff. rewrite H1. vm_compute. discriminate.
Qed.

(** The override on the example network, with country AA at one half. *)
Lemma focus_override_witness :
  NoDup (map fst [("AA", 1 # 2)])
  /\ Forall fnonneg
       (values (load_share (determine_network_topology Examples.C Examples.net_demo)))
  /\ fpositive (remainder_total [("AA", 1 # 2)]
                  (load_share (determine_network_topology Examples.C Examples.net_demo)))
  /\ adjust_focus (Some [("AA", 1 # 2)])
       (load_share (determine_network_topology Examples.C Examples.net_demo))
     = Ok [("AA", "0", Fin (1 # 2)); ("BB", "1", Fin (32 # 64))]
  /\ feq (fsum [Fin (1 # 2); Fin (32 # 64)]) (Fin 1)
  /\ np_isclose (fsum [Fin (1 # 2); Fin (32 # 64)]) (Fin 1) (1 # 1000) = true.
Proof.
  assert (Hnd : NoDup (map fst [("AA", 1 # 2)])).
  { constructor; [intros []|constructor]. }
  assert (Hnn : Forall fnonneg
       (values (load_share (determine_network_topology Examples.C Examples.net_demo)))).
  { vm_compute. repeat constructor; discriminate. }
  assert (Hpos : fpositive (remainder_total [("AA", 1 # 2)]
                  (load_share (determine_network_topology Examples.C Examples.net_demo)))).
  { vm_compute. reflexivity. }
  assert (Hok : adjust_focus (Some [("AA", 1 # 2)])
       (load_share (determine_network_topology Examples.C Examples.net_demo))
     = Ok [("AA", "0", Fin (1 # 2)); ("BB", "1", Fin (32 # 64))]).
  { vm_compute. reflexivity. }
  repeat (split; [assumption|]).
  exact (focus_override_sums_to_one _ _ _ Hnd Hnn Hpos Hok).
Defined.


(** ** Keys and labels of the generated busmap *)

(** *** Strings: prefixes that cannot be confused *)

Lemma string_app_assoc :
  forall a b c : string, ((a ++ b) ++ c)%string = (a ++ (b ++ c))%string.
Proof.
  induction a as [|ch a IH]; intros b c; cbn; [reflexivity|]. now rewrite IH.
Qed.

Lemma string_app_inj_length :
  forall a b x y : string,
    String.length a = String.length b ->
    (a ++ x)%string = (b ++ y)%string -> a = b /\ x = y.
Proof.
  induction a as [|ch a IH]; intros [|ch' b] x y Hlen H; cbn in *; try discriminate.
  - auto.
  - injection H as -> H. injection Hlen as Hlen.
    destruct (IH b x y Hlen H) as [-> ->]. auto.
Qed.

Lemma no_space_before_blank :
  forall a b x y : string,
    has_space a = false -> has_space b = false ->
    (a ++ String " " x)%string = (b ++ String " " y)%string -> a = b.
Proof.
  induction a as [|ch a IH]; intros [|ch' b] x y Ha Hb H; cbn in *.
  - reflexivity.
  - injection H as <- _. now rewrite Ascii.eqb_refl in Hb.
  - injection H as -> _. now rewrite Ascii.eqb_refl in Ha.
  - injection H as -> H. apply orb_false_iff in Ha, Hb.
    f_equal. apply (IH b x y); tauto.
Qed.

Lemma uint_no_space :
  forall d : Decimal.uint, has_space (NilEmpty.string_of_uint d) = false.
Proof.
  induction d; cbn; auto.
Qed.

Lemma string_of_Z_no_space : forall z : Z, has_space (string_of_Z z) = false.
Proof.
  intros z. unfold string_of_Z, NilZero.string_of_int.
  destruct (Z.to_int z) as [d|d]; unfold NilZero.string_of_uint;
    destruct d; cbn; auto using uint_no_space.
Qed.

(** Two groups with countries of the same length and blank-free sub-network
    labels never share a label. *)
Lemma group_prefix_separates :
  forall (k1 k2 : GroupKey) (l1 l2 : string),
    String.length (fst k1) = String.length (fst k2) ->
    has_space (snd k1) = false -> has_space (snd k2) = false ->
    (group_prefix k1 ++ l1)%string = (group_prefix k2 ++ l2)%string ->
    k1 = k2.
Proof.
  intros [c1 s1] [c2 s2] l1 l2 Hlen H1 H2 H. unfold group_prefix in H. cbn [fst snd] in *.
  rewrite !string_app_assoc in H.
  destruct (string_app_inj_length _ _ _ _ Hlen H) as [-> H'].
  cbn in H'.
  now rewrite (no_space_before_blank _ _ _ _ H1 H2 H').
Qed.

(** *** Group-by: every row lands in exactly one group *)

Section GroupByFacts.
Context {K R : Type} (eqb leb : K -> K -> bool).
Hypothesis eqb_spec : forall a b, eqb a b = true <-> a = b.

Lemma existsb_eqb_In : forall (k : K) (l : list K), existsb (eqb k) l = true <-> In k l.
Proof.
  intros k l. rewrite existsb_exists. split.
  - intros [y [Hy He]]. apply eqb_spec in He. now subst.
  - intros H. exists k. split; [assumption|now apply eqb_spec].
Qed.

Lemma dedup_In : forall (k : K) (l : list K), In k (dedup eqb l) <-> In k l.
Proof.
  intros k l. induction l as [|h t IH]; cbn; [tauto|].
  destruct (existsb (eqb h) t) eqn:E.
  - rewrite IH. split; [auto|]. intros [<-|H]; [|assumption].
    now apply existsb_eqb_In.
  - cbn. now rewrite IH.
Qed.

Lemma dedup_NoDup : forall l : list K, NoDup (dedup eqb l).
Proof.
  induction l as [|h t IH]; cbn; [constructor|].
  destruct (existsb (eqb h) t) eqn:E; [assumption|].
  constructor; [|assumption]. rewrite dedup_In. intros H.
  apply existsb_eqb_In in H. congruence.
Qed.

Lemma dedup_length : forall l : list K, (length (dedup eqb l) <= length l)%nat.
Proof.
  induction l as [|h t IH]; cbn; [lia|].
  destruct (existsb (eqb h) t); cbn; lia.
Qed.

Lemma dedup_nonempty : forall l : list K, l <> [] -> dedup eqb l <> [].
Proof.
  induction l as [|h t IH]; intros H; [contradiction|]. cbn.
  destruct (existsb (eqb h) t) eqn:E; [|discriminate].
  apply IH. intros ->. discriminate.
Qed.

Lemma insert_sorted_perm :
  forall (k : K) (l : list K), Permutation (insert_sorted leb k l) (k :: l).
Proof.
  intros k l. induction l as [|h t IH]; cbn; [reflexivity|].
  destruct (leb k h); [reflexivity|].
  etransitivity; [constructor; exact IH|]. constructor.
Qed.

Lemma sort_keys_perm : forall l : list K, Permutation (sort_keys leb l) l.
Proof.
  induction l as [|h t IH]; cbn; [constructor|].
  etransitivity; [apply insert_sorted_perm|]. now constructor.
Qed.

Lemma group_keys_In :
  forall (key : R -> K) (rows : list R) (k : K),
    In k (group_keys eqb leb key rows) <-> In k (map key rows).
Proof.
  intros key rows k. unfold group_keys. rewrite <- (dedup_In k (map key rows)).
  split; intros H.
  - eapply Permutation_in; [apply sort_keys_perm|exact H].
  - eapply Permutation_in; [symmetry; apply sort_keys_perm|exact H].
Qed.

Lemma group_keys_NoDup :
  forall (key : R -> K) (rows : list R), NoDup (group_keys eqb leb key rows).
Proof.
  intros key rows. unfold group_keys.
  eapply Permutation_NoDup; [symmetry; apply sort_keys_perm|apply dedup_NoDup].
Qed.

(** Adding a row to the one group of its key adds it to the concatenation. *)
Lemma concat_groups_cons :
  forall (key : R -> K) (r : R) (rows : list R) (ks : list K),
    NoDup ks -> In (key r) ks ->
    Permutation
      (concat (map (fun k => filter (fun r' => eqb (key r') k) (r :: rows)) ks))
      (r :: concat (map (fun k => filter (fun r' => eqb (key r') k) rows) ks)).
Proof.
  intros key r rows ks. induction ks as [|k ks IH]; intros Hnd Hin; [contradiction|].
  inversion Hnd as [|? ? Hk Hks]; subst. cbn [map concat filter].
  destruct (eqb (key r) k) eqn:E.
  - apply eqb_spec in E. subst k. cbn [app]. constructor.
    apply Permutation_app_head.
    (* the other groups do not take the row *)
    clear IH Hin Hnd Hks. induction ks as [|k' ks IH]; [constructor|].
    cbn [map concat filter].
    destruct (eqb (key r) k') eqn:E'.
    + apply eqb_spec in E'. subst. exfalso. apply Hk. now left.
    + apply Permutation_app_head. apply IH. intros H. apply Hk. now right.
  - destruct Hin as [Heq|Hin]; [subst; assert (eqb (key r) (key r) = true)
                                   by (now apply eqb_spec); congruence|].
    etransitivity; [apply Permutation_app_head; apply (IH Hks Hin)|].
    symmetry. apply Permutation_middle.
Qed.

Lemma concat_groups_perm :
  forall (key : R -> K) (rows : list R) (ks : list K),
    NoDup ks -> incl (map key rows) ks ->
    Permutation (concat (map (fun k => filter (fun r => eqb (key r) k) rows) ks)) rows.
Proof.
  intros key rows. induction rows as [|r rows IH]; intros ks Hnd Hincl.
  - cbn [filter]. induction ks as [|k ks IHk]; [constructor|].
    inversion Hnd; subst. cbn. apply IHk; [assumption|intros ? []].
  - etransitivity; [apply concat_groups_cons; [assumption|apply Hincl; now left]|].
    constructor. apply IH; [assumption|]. intros k Hk. apply Hincl. now right.
Qed.

Lemma groupby_concat :
  forall (key : R -> K) (rows : list R),
    Permutation (concat (map snd (groupby eqb leb key rows))) rows.
Proof.
  intros key rows. unfold groupby. rewrite map_map. cbn [snd].
  apply concat_groups_perm; [apply group_keys_NoDup|].
  intros k Hk. now apply group_keys_In.
Qed.

Lemma groupby_member :
  forall (key : R -> K) (rows : list R) (g : K * list R) (r : R),
    In g (groupby eqb leb key rows) -> In r (snd g) -> In r rows /\ key r = fst g.
Proof.
  intros key rows g r Hg Hr. unfold groupby in Hg.
  apply in_map_iff in Hg. destruct Hg as [k [<- _]]. cbn [fst snd] in *.
  apply filter_In in Hr. destruct Hr as [Hr E]. apply eqb_spec in E. auto.
Qed.

End GroupByFacts.

Lemma gk_eqb_spec : forall a b : GroupKey, gk_eqb a b = true <-> a = b.
Proof.
  intros [a1 a2] [b1 b2]. unfold gk_eqb. cbn [fst snd].
  rewrite andb_true_iff, !String.eqb_eq. split; [intros [-> ->]|intros [= -> ->]]; auto.
Qed.


(** *** The busmap of one group *)

Lemma index_add_prefix :
  forall (prefix : string) (bm : Series string string),
    index (add_prefix prefix bm) = index bm.
Proof.
  intros prefix bm. unfold index, add_prefix, map_values. rewrite map_map. reflexivity.
Qed.

Lemma add_prefix_labels :
  forall (prefix : string) (bm : Series string string) (kv : string * string),
    In kv (add_prefix prefix bm) -> exists l0, snd kv = (prefix ++ l0)%string.
Proof.
  intros prefix bm kv H. unfold add_prefix, map_values in H.
  apply in_map_iff in H. destruct H as [[k l] [<- _]]. now exists l.
Qed.

Lemma add_prefix_part :
  forall (grp : GroupKey * list Bus) (bm : Series string string),
    index bm = map bus_name (snd grp) ->
    part_ok grp (add_prefix (group_prefix (fst grp)) bm).
Proof.
  intros grp bm H. split; [now rewrite index_add_prefix|apply add_prefix_labels].
Qed.

Lemma combine_index :
  forall (V : Type) (idx : list string) (data : list V),
    length data = length idx -> index (combine idx data) = idx.
Proof.
  intros V idx. unfold index.
  induction idx as [|i idx IH]; intros [|d data] H; cbn in *;
    try discriminate; [reflexivity|]. injection H as H. now rewrite (IH data H).
Qed.

Lemma make_series_index :
  forall (V : Type) (data : list V) (idx : list string) (s : Series string V),
    make_series data idx = Ok s -> index s = idx.
Proof.
  intros V data idx s H. unfold make_series in H.
  destruct (Nat.eqb (length data) (length idx)) eqn:E; [|discriminate].
  injection H as <-. apply combine_index. now apply Nat.eqb_eq.
Qed.

Lemma loc_set_index :
  forall (members : list string) (label : string) (s s' : Series string string),
    loc_set members label s = Ok s' -> index s' = index s.
Proof.
  intros members label s s' H. unfold loc_set in H.
  destruct (find _ members); [discriminate|]. injection H as <-.
  unfold index. rewrite map_map. apply map_ext. intros [k v]. cbn.
  now destruct (isin k members).
Qed.

Lemma label_communities_index :
  forall (output : list (list string)) (c : Z) (s s' : Series string string),
    label_communities output c s = Ok s' -> index s' = index s.
Proof.
  induction output as [|members rest IH]; intros c s s' H; cbn in H.
  - now injection H as <-.
  - destruct (loc_set members (string_of_Z c) s) as [s1|e] eqn:E; cbn [bind] in H;
      [|discriminate].
    rewrite (IH _ _ _ H). eapply loc_set_index; eassumption.
Qed.

Lemma busmap_for_country_part :
  forall (C : Collaborators) (algorithm : string) (kw : Kwds)
         (budget : Series GroupKey Z) (n n' : Network) (grp : GroupKey * list Bus)
         (bm : Series string string),
    strategies_indexed C ->
    busmap_for_country C algorithm kw budget n grp = (n', Ok bm) ->
    part_ok grp bm.
Proof.
  intros C alg kw budget n n' grp bm [Hk Hs] H. unfold busmap_for_country in H.
  destruct (Nat.eqb (length (snd grp)) 1).
  { injection H as _ <-. split.
    - unfold index. rewrite map_map. cbn [fst]. now rewrite map_id.
    - intros kv Hkv. apply in_map_iff in Hkv. destruct Hkv as [b [<- _]]. now exists "0". }
  destruct (weighting_for_country n (map bus_name (snd grp))) as [w|e]; [|discriminate].
  destruct (String.eqb alg "kmeans").
  { destruct (budget_of budget (fst grp)) as [k|e]; cbn [bind] in H; [|discriminate].
    injection H as _ <-. apply add_prefix_part. apply Hk. }
  destruct (String.eqb alg "spectral").
  { destruct (budget_of budget (fst grp)) as [k|e]; cbn [bind] in H; [|discriminate].
    injection H as _ <-. apply add_prefix_part. now rewrite Hs. }
  destruct (String.eqb alg "hac").
  { destruct (budget_of budget (fst grp)) as [k|e]; cbn [bind] in H; [|discriminate].
    destruct (busmap_by_hac C n k (map bus_name (snd grp))) as [bm0|e] eqn:E;
      cbn [bind] in H; [|discriminate].
    injection H as _ <-. apply add_prefix_part.
    eapply make_series_index. exact E. }
  destruct (String.eqb alg "louvain").
  { destruct (budget_of budget (fst grp)) as [k|e]; [|discriminate].
    unfold with_prefix, busmap_by_louvain, community in H. cbn in H. discriminate. }
  destruct (String.eqb alg "newman"); [|discriminate].
  destruct (budget_of budget (fst grp)) as [k|e]; [|discriminate].
  unfold with_prefix, busmap_by_newman in H. cbn [fst snd] in H.
  destruct (label_communities _ 0 _) as [bm0|e] eqn:E; cbn [bind] in H; [|discriminate].
  injection H as _ <-. apply add_prefix_part.
  rewrite (label_communities_index _ _ _ _ E). apply combine_index. reflexivity.
Qed.

Lemma apply_groups_parts :
  forall (f : Network -> GroupKey * list Bus -> Network * result (Series string string))
         (P : GroupKey * list Bus -> Series string string -> Prop),
    (forall n g n' bm, f n g = (n', Ok bm) -> P g bm) ->
    forall (groups : list (GroupKey * list Bus)) (n n' : Network)
           (parts : list (Series string string)),
      apply_groups f n groups = (n', Ok parts) -> Forall2 P groups parts.
Proof.
  intros f P Hf groups. induction groups as [|g rest IH]; intros n n' parts H; cbn in H.
  - injection H as _ <-. constructor.
  - destruct (f n g) as [n1 [bm|e]] eqn:Eg; [|discriminate].
    destruct (apply_groups f n1 rest) as [n2 [bms|e]] eqn:Er; [|discriminate].
    injection H as _ <-. constructor; [eapply Hf; eassumption|eapply IH; eassumption].
Qed.

(** *** The allocator accepts no empty network *)

Lemma load_share_no_buses : forall n : Network, buses n = [] -> load_share n = [].
Proof.
  intros n Hb. unfold load_share.
  assert (Hrows : load_rows n = []).
  { unfold load_rows, find_bus. rewrite Hb. cbn [find].
    induction (load_by_bus n) as [|kv t IH]; [reflexivity|exact IH]. }
  rewrite Hrows. reflexivity.
Qed.

Lemma distribute_clusters_nonempty :
  forall (slv : Solver) (n : Network) (n_clusters : Z)
         (focus_weights : option (list (string * Q))) (solver_name : string)
         (budget : Series GroupKey Z),
    distribute_clusters slv n n_clusters focus_weights solver_name = Ok budget ->
    buses n <> [].
Proof.
  intros slv n K fw sn budget H Hb. unfold distribute_clusters in H.
  rewrite (load_share_no_buses n Hb) in H.
  destruct (assert _ (range_msg _)); cbn [bind] in H; [|discriminate].
  assert (HL : forall L, adjust_focus fw [] = Ok L -> L = []).
  { intros L HLok. unfold adjust_focus in HLok. destruct fw as [fw|].
    - destruct (assert _ focus_msg); cbn [bind] in HLok; [|discriminate].
      destruct fw as [|[c w] rest]; cbn in HLok; [|discriminate].
      now injection HLok as <-.
    - now injection HLok as <-. }
  destruct (adjust_focus fw []) as [L|e]; cbn [bind] in H; [|discriminate].
  rewrite (HL L eq_refl) in H. cbn in H. discriminate.
Qed.

(** *** From the groups to the whole busmap *)

Lemma Forall2_In_right :
  forall (A B : Type) (P : A -> B -> Prop) (la : list A) (lb : list B) (b : B),
    Forall2 P la lb -> In b lb -> exists a, In a la /\ P a b.
Proof.
  intros A B P la lb b H. induction H as [|a b' la lb Hab _ IH]; intros Hin.
  - contradiction.
  - destruct Hin as [<-|Hin].
    + exists a. split; [now left|assumption].
    + destruct (IH Hin) as [a' [Ha' Hp]]. exists a'. split; [now right|assumption].
Qed.

Lemma parts_index :
  forall (groups : list (GroupKey * list Bus)) (parts : list (Series string string)),
    Forall2 part_ok groups parts ->
    index (concat parts) = map bus_name (concat (map snd groups)).
Proof.
  intros groups parts H. unfold index.
  induction H as [|g bm groups parts [Hi _] _ IH]; [reflexivity|].
  cbn [concat map]. rewrite !map_app. unfold index in Hi. now rewrite Hi, IH.
Qed.

Lemma NoDup_map_injective_on :
  forall (A B : Type) (f : A -> B) (l : list A) (a b : A),
    NoDup (map f l) -> In a l -> In b l -> f a = f b -> a = b.
Proof.
  intros A B f l a b. induction l as [|h t IH]; intros Hnd Ha Hb Hf; [contradiction|].
  cbn in Hnd. inversion Hnd as [|? ? Hh Ht]; subst.
  destruct Ha as [<-|Ha], Hb as [<-|Hb]; auto.
  - exfalso. apply Hh. rewrite Hf. now apply in_map.
  - exfalso. apply Hh. rewrite <- Hf. now apply in_map.
Qed.

(** The label of a bus starts with the prefix of the bus's own group. *)
Lemma label_has_group_prefix :
  forall (bs : list Bus) (parts : list (Series string string)) (b : Bus) (l : string),
    NoDup (map bus_name bs) ->
    Forall2 part_ok (groupby gk_eqb gk_leb bus_key bs) parts ->
    In b bs -> In (bus_name b, l) (concat parts) ->
    exists l0, l = (group_prefix (bus_key b) ++ l0)%string.
Proof.
  intros bs parts b l Hnd Hparts Hb Hl.
  apply in_concat in Hl. destruct Hl as [part [Hpart Hin]].
  destruct (Forall2_In_right _ _ _ _ _ _ Hparts Hpart) as [g [Hg [Hidx Hlab]]].
  assert (Hname : In (bus_name b) (map bus_name (snd g))).
  { rewrite <- Hidx. unfold index. change (bus_name b) with (fst (bus_name b, l)).
    now apply in_map. }
  apply in_map_iff in Hname. destruct Hname as [b' [Hn Hb']].
  destruct (groupby_member gk_eqb gk_leb gk_eqb_spec bus_key bs g b' Hg Hb') as [Hbs Hkey].
  assert (b' = b) by (eapply NoDup_map_injective_on; eassumption). subst b'.
  destruct (Hlab _ Hin) as [l0 Hl0]. cbn [snd] in Hl0. exists l0. now rewrite Hkey.
Qed.

Lemma topology_names :
  forall (C : Collaborators) (n : Network),
    buses_index (determine_network_topology C n) = buses_index n.
Proof.
  intros C n. unfold buses_index, determine_network_topology. cbn [buses].
  rewrite map_map. reflexivity.
Qed.

Lemma topology_bus :
  forall (C : Collaborators) (n : Network) (b : Bus),
    In b (buses (determine_network_topology C n)) ->
    has_space (sub_network b) = false
    /\ exists b0, In b0 (buses n) /\ country b = country b0.
Proof.
  intros C n b H. unfold determine_network_topology in H. cbn [buses] in H.
  apply in_map_iff in H. destruct H as [b0 [<- Hb0]]. cbn. split.
  - apply string_of_Z_no_space.
  - now exists b0.
Qed.

(** C2, amended. Let the collaborating strategies return series indexed by
    the buses they are given and let the bus names be distinct. Then in every
    busmap that [busmap_for_n_clusters] returns each bus of the input is a key
    exactly once and the number of distinct labels is at least 1 and at most
    the number of buses; and if all country codes have the same length, two
    buses of different groups never carry the same label. *)
Theorem busmap_keys_and_labels :
  forall (C : Collaborators) (n n' : Network) (n_clusters : Z) (solver_name : string)
         (focus_weights : option (list (string * Q))) (algorithm : string) (kw : Kwds)
         (bm : Series string string),
    strategies_indexed C ->
    NoDup (buses_index n) ->
    busmap_for_n_clusters C n n_clusters solver_name focus_weights algorithm kw
      = (n', Ok bm) ->
    Permutation (index bm) (buses_index n)
    /\ NoDup (index bm)
    /\ (1 <= n_unique bm <= Z.of_nat (length (buses n)))%Z
    /\ ((forall b1 b2, In b1 (buses n) -> In b2 (buses n) ->
                       String.length (country b1) = String.length (country b2)) ->
        forall b1 b2 l1 l2,
          In b1 (buses n') -> In b2 (buses n') -> bus_key b1 <> bus_key b2 ->
          In (bus_name b1, l1) bm -> In (bus_name b2, l2) bm -> l1 <> l2).
Proof.
  intros C n n' K sn fw alg kw bm Hstrat Hnd H.
  unfold busmap_for_n_clusters in H.
  set (n1 := determine_network_topology C n) in *.
  destruct (distribute_clusters (solver C) n1 K fw sn) as [budget|e] eqn:Hd; [|discriminate].
  pose proof (apply_groups_buses
                (busmap_for_country C alg (default_kwds alg kw) budget)
                (busmap_for_country_buses C alg (default_kwds alg kw) budget)
                (groupby gk_eqb gk_leb bus_key (buses n1)) n1) as Hbuses.
  destruct (apply_groups _ n1 _) as [n2 [parts|e]] eqn:Ha; [|discriminate].
  cbn [fst] in Hbuses.
  assert (Hparts : Forall2 part_ok (groupby gk_eqb gk_leb bus_key (buses n1)) parts).
  { eapply apply_groups_parts; [|exact Ha].
    intros m g m' bm' Hg. eapply busmap_for_country_part; eassumption. }
  unfold squeeze_rename in H.
  destruct (Nat.eqb (length (concat parts)) 1); [discriminate|].
  injection H as <- <-.
  assert (Hperm : Permutation (index (concat parts)) (buses_index n)).
  { rewrite (parts_index _ _ Hparts), <- (topology_names C n). fold n1.
    apply Permutation_map. apply groupby_concat. exact gk_eqb_spec. }
  assert (Hnd1 : NoDup (map bus_name (buses n1))).
  { change (NoDup (buses_index n1)). unfold n1. now rewrite topology_names. }
  split; [exact Hperm|].
  split; [eapply Permutation_NoDup; [symmetry; exact Hperm|exact Hnd]|].
  split.
  - assert (Hlenbm : length (concat parts) = length (buses n)).
    { rewrite <- (length_map fst (concat parts)).
      change (map fst (concat parts)) with (index (concat parts)).
      rewrite (Permutation_length Hperm). unfold buses_index. apply length_map. }
    unfold n_unique. split.
    + assert (Hne : values (concat parts) <> []).
      { intros E. apply (distribute_clusters_nonempty _ _ _ _ _ _ Hd).
        apply length_zero_iff_nil. unfold n1, determine_network_topology. cbn [buses].
        rewrite length_map, <- Hlenbm, <- (length_map snd (concat parts)).
        fold (values (concat parts)). now rewrite E. }
      pose proof (dedup_nonempty String.eqb (values (concat parts)) Hne) as Hd0.
      destruct (dedup String.eqb (values (concat parts))); [contradiction|]. cbn. lia.
    + pose proof (dedup_length String.eqb (values (concat parts))) as Hdl.
      unfold values in Hdl at 2. rewrite length_map, Hlenbm in Hdl. lia.
  - intros Hlen b1 b2 l1 l2 Hb1 Hb2 Hkey Hl1 Hl2 Heq. subst l2.
    rewrite Hbuses in Hb1, Hb2.
    destruct (label_has_group_prefix _ _ _ _ Hnd1 Hparts Hb1 Hl1) as [x1 Hx1].
    destruct (label_has_group_prefix _ _ _ _ Hnd1 Hparts Hb2 Hl2) as [x2 Hx2].
    destruct (topology_bus C n b1 Hb1) as [Hs1 [c1 [Hc1 Hcc1]]].
    destruct (topology_bus C n b2 Hb2) as [Hs2 [c2 [Hc2 Hcc2]]].
    apply Hkey. apply (group_prefix_separates _ _ x1 x2).
    + unfold bus_key. cbn [fst]. rewrite Hcc1, Hcc2. now apply Hlen.
    + exact Hs1.
    + exact Hs2.
    + congruence.
Qed.

Lemma round_robin_index :
  forall (k i : Z) (buses_i : list string),
    index (Reference.round_robin k i buses_i) = buses_i.
Proof.
  intros k i buses_i. revert i. unfold index.
  induction buses_i as [|b t IH]; intros i; cbn; [reflexivity|]. now rewrite IH.
Qed.

Lemma reference_strategies_indexed : strategies_indexed Reference.collaborators.
Proof.
  split; intros; cbn; unfold Reference.round_robin_labels, index, map_values;
    rewrite map_map; apply round_robin_index.
Qed.

(** The busmap of the example network, four clusters with kmeans; and the
    network of thirteen buses whose country codes differ in length, where the
    keys and the number of labels are as stated although two groups share a
    label. *)
Lemma busmap_keys_and_labels_witness :
  (strategies_indexed Examples.C
   /\ NoDup (buses_index Examples.net_demo)
   /\ (forall b1 b2, In b1 (buses Examples.net_demo) -> In b2 (buses Examples.net_demo) ->
                     String.length (country b1) = String.length (country b2))
   /\ busmap_for_n_clusters Examples.C Examples.net_demo 4 "gurobi" None "kmeans" []
      = (determine_network_topology Examples.C Examples.net_demo,
         Ok [("a1", "AA0 0"); ("a2", "AA0 1"); ("a3", "AA0 0");
             ("b1", "BB1 0"); ("b2", "BB1 1")])
   /\ Permutation ["a1"; "a2"; "a3"; "b1"; "b2"] (buses_index Examples.net_demo)
   /\ n_unique [("a1", "AA0 0"); ("a2", "AA0 1"); ("a3", "AA0 0");
                ("b1", "BB1 0"); ("b2", "BB1 1")] = 4%Z
   /\ "AA0 0" <> "BB1 0")
  /\ (NoDup (buses_index Examples.net_prefix)
      /\ exists bm,
           snd (busmap_for_n_clusters Examples.C Examples.net_prefix 12
                  "gurobi" None "kmeans" []) = Ok bm
           /\ Permutation (index bm) (buses_index Examples.net_prefix)
           /\ NoDup (index bm)
           /\ (1 <= n_unique bm <= 13)%Z).
Proof.
  assert (H1 : strategies_indexed Examples.C) by exact reference_strategies_indexed.
  assert (H2 : NoDup (buses_index Examples.net_demo)).
  { vm_compute. repeat constructor; cbn; intuition discriminate. }
  assert (H3 : forall b1 b2, In b1 (buses Examples.net_demo) ->
                 In b2 (buses Examples.net_demo) ->
                 String.length (country b1) = String.length (country b2)).
  { intros b1 b2 Hb1 Hb2. cbn in Hb1, Hb2.
    repeat (destruct Hb1 as [<-|Hb1]); try contradiction;
      repeat (destruct Hb2 as [<-|Hb2]); try contradiction; reflexivity. }
  assert (H4 : busmap_for_n_clusters Examples.C Examples.net_demo 4 "gurobi" None "kmeans" []
     = (determine_network_topology Examples.C Examples.net_demo,
        Ok [("a1", "AA0 0"); ("a2", "AA0 1"); ("a3", "AA0 0");
            ("b1", "BB1 0"); ("b2", "BB1 1")])).
  { vm_compute. reflexivity. }
  assert (H5 : NoDup (buses_index Examples.net_prefix)).
  { vm_compute. repeat constructor; cbn; intuition discriminate. }
  split.
  - repeat (split; [assumption|]).
    destruct (busmap_keys_and_labels _ _ _ _ _ _ _ _ _ H1 H2 H4) as [Hp [_ [_ Hd]]].
    split; [exact Hp|]. split; [reflexivity|].
    apply (Hd H3 (mkBus "a1" "AA" "0" 0 0) (mkBus "b1" "BB" "1" 0 0)).
    + vm_compute. now left.
    + vm_compute. do 3 right. now left.
    + discriminate.
    + now left.
    + do 3 right. now left.
  - split; [exact H5|].
    destruct (busmap_for_n_clusters Examples.C Examples.net_prefix 12
                "gurobi" None "kmeans" []) as [n' [bm|e]] eqn:E.
    + exists bm. split; [reflexivity|].
      destruct (busmap_keys_and_labels _ _ _ _ _ _ _ _ _ H1 H5 E) as [Hp [Hn [Hu _]]].
      split; [exact Hp|]. split; [exact Hn|]. exact Hu.
    + exfalso. vm_compute in E. discriminate.
Defined.

(** C2 fails as stated: the countries "A1" and "A" with the sub-networks "0"
    and "10" have the same prefix, so the only bus of the group (A1, 0) and the
    only bus of the group (A, 10) are both mapped to the label "A10 0". *)
Lemma groups_share_a_label :
  map (fun b => (bus_name b, bus_key b))
      (filter (fun b => isin (bus_name b) ["n0"; "n10"])
              (buses (fst (busmap_for_n_clusters Examples.C Examples.net_prefix 12
                             "gurobi" None "kmeans" []))))
  = [("n0", ("A1", "0")); ("n10", ("A", "10"))]
  /\ snd (busmap_for_n_clusters Examples.C Examples.net_prefix 12 "gurobi" None "kmeans" [])
     = Ok [("n10", "A10 0"); ("n0", "A10 0"); ("n1", "C11 0"); ("n2", "C22 0");
           ("n3", "C33 0"); ("n4", "C44 0"); ("n5", "C55 0"); ("n6", "C66 0");
           ("n7", "C77 0"); ("n8", "C88 0"); ("n9", "C99 0");
           ("p", "ZZ11 0"); ("q", "ZZ11 0")].
Proof.
  split; vm_compute; reflexivity.
Qed.


(** ** The resolution search of busmap_by_louvain, once [community] is bound *)

Section LouvainFacts.
Variable C : Collaborators.
Variable best_partition : BestPartition.
Variable G : Graph.
Variable n_clusters : Z.

Local Abbreviation attempt' := (attempt C best_partition G n_clusters).
Local Abbreviation search' := (search C best_partition G n_clusters).
Local Abbreviation dev := (deviation n_clusters).

Lemma attempt_c : forall s, st_c (attempt' s) = (st_c s + 1)%Z.
Proof.
  intros s. unfold attempt, next_c, keep_best, floor_res, call_higher, call_lower.
  repeat match goal with |- context [if ?b then _ else _] => destruct b end; reflexivity.
Qed.

(** Once [c] has reached 500 the loop is over; 500 - c passes are enough. *)
Lemma search_fuel_stable :
  forall (fuel : nat) (s : SearchState),
    (500 - st_c s <= Z.of_nat fuel)%Z ->
    forall extra : nat, search' (fuel + extra) s = search' fuel s.
Proof.
  induction fuel as [|fuel IH]; intros s Hc extra.
  - assert (Ht : loop_test n_clusters s = false).
    { unfold loop_test. replace (st_c s <? 500)%Z with false; [apply andb_false_r|].
      symmetry. apply Z.ltb_ge. lia. }
    destruct extra; cbn; [reflexivity|now rewrite Ht].
  - cbn [Nat.add search]. destruct (loop_test n_clusters s); [|reflexivity].
    destruct (n_communities (st_bu (attempt' s)) =? n_clusters)%Z; [reflexivity|].
    apply IH. rewrite attempt_c. lia.
Qed.

(** The search terminates: any fuel from 499 on gives the result of the loop. *)
Lemma search_terminates :
  forall (fuel calls : nat) (trace : list float64),
    (max_attempts <= fuel)%nat ->
    search' fuel (start C best_partition G n_clusters calls trace)
    = one_repeat C best_partition G n_clusters calls trace.
Proof.
  intros fuel calls trace Hf. unfold one_repeat.
  replace fuel with (max_attempts + (fuel - max_attempts))%nat by lia.
  apply search_fuel_stable. cbn. lia.
Qed.

(** At most 499 passes and at most two calls of [best_partition] per pass. *)
Lemma search_bounded :
  forall (fuel : nat) (s : SearchState),
    (st_c s <= 500)%Z ->
    (st_c s <= st_c (search' fuel s) <= 500)%Z
    /\ (Z.of_nat (st_calls (search' fuel s))
        <= Z.of_nat (st_calls s) + 2 * (st_c (search' fuel s) - st_c s))%Z.
Proof.
  induction fuel as [|fuel IH]; intros s Hc; cbn [search]; [lia|].
  destruct (loop_test n_clusters s) eqn:Ht; [|lia].
  assert (Hlt : (st_c s < 500)%Z).
  { unfold loop_test in Ht. apply andb_true_iff in Ht. now apply Z.ltb_lt. }
  assert (Hcalls : (Z.of_nat (st_calls (attempt' s)) <= Z.of_nat (st_calls s) + 2)%Z).
  { unfold attempt, next_c, keep_best, floor_res, call_higher, call_lower.
    repeat match goal with |- context [if ?b then _ else _] => destruct b end;
      cbn [st_calls]; lia. }
  pose proof (attempt_c s) as Hc'.
  destruct (n_communities (st_bu (attempt' s)) =? n_clusters)%Z; [lia|].
  destruct (IH (attempt' s)) as [H1 H2]; lia.
Qed.

(** One repeat of the search makes at most 499 passes through the loop and at
    most 999 calls of [best_partition], the first one included. *)
Lemma one_repeat_bounded :
  forall (calls : nat) (trace : list float64),
    (st_c (one_repeat C best_partition G n_clusters calls trace) - 1 <= 499)%Z
    /\ (st_calls (one_repeat C best_partition G n_clusters calls trace)
        <= calls + 999)%nat.
Proof.
  intros calls trace. unfold one_repeat.
  destruct (search_bounded max_attempts (start C best_partition G n_clusters calls trace))
    as [H1 H2]; [cbn; lia|].
  cbn [start st_c st_calls] in *. lia.
Qed.

(** [bu] never gets worse, and after a pass it is at least as good as [b]. *)
Lemma attempt_keeps_best :
  forall s, (dev (st_bu (attempt' s)) <= dev (st_bu s))%Z
            /\ (dev (st_bu (attempt' s)) <= dev (st_b (attempt' s)))%Z.
Proof.
  intros s. unfold attempt, next_c. cbn [st_bu st_b].
  set (s1 := floor_res (call_higher C best_partition G n_clusters
                          (call_lower best_partition G n_clusters s))).
  assert (Hbu : st_bu s1 = st_bu s).
  { unfold s1, floor_res, call_higher, call_lower.
    repeat match goal with |- context [if ?b then _ else _] => destruct b end; reflexivity. }
  unfold keep_best. destruct (dev (st_b s1) <=? dev (st_bu s1))%Z eqn:E; cbn [st_bu st_b].
  - apply Z.leb_le in E. rewrite Hbu in E. lia.
  - apply Z.leb_gt in E. rewrite Hbu in *. lia.
Qed.

Lemma search_monotone :
  forall (fuel : nat) (s : SearchState),
    (dev (st_bu (search' fuel s)) <= dev (st_bu s))%Z.
Proof.
  induction fuel as [|fuel IH]; intros s; cbn [search]; [lia|].
  destruct (loop_test n_clusters s); [|lia].
  destruct (attempt_keeps_best s) as [Hmono _].
  destruct (n_communities (st_bu (attempt' s)) =? n_clusters)%Z; [lia|].
  specialize (IH (attempt' s)). lia.
Qed.

(** What a repeat returns deviates from the target no more than any partition
    [b] that was in hand at the start or after a pass of that repeat. *)
Lemma search_keeps_best :
  forall (fuel : nat) (s : SearchState),
    (dev (st_bu s) <= dev (st_b s))%Z ->
    forall s', In s' (visited C best_partition G n_clusters fuel s) ->
               (dev (st_bu (search' fuel s)) <= dev (st_b s'))%Z.
Proof.
  induction fuel as [|fuel IH]; intros s Hs s' Hin.
  - cbn in *. destruct Hin as [<-|[]]. exact Hs.
  - pose proof (search_monotone (S fuel) s) as Hm.
    cbn [visited search] in *. destruct (loop_test n_clusters s).
    + destruct (attempt_keeps_best s) as [Hmono Hb].
      destruct (n_communities (st_bu (attempt' s)) =? n_clusters)%Z.
      * destruct Hin as [<-|[<-|[]]]; lia.
      * destruct Hin as [<-|Hin]; [lia|]. now apply (IH (attempt' s) Hb).
    + destruct Hin as [<-|[]]. exact Hs.
Qed.

End LouvainFacts.

Lemma Qdiv_pos : forall a b : Q, 0 < a -> 0 < b -> 0 < a / b.
Proof.
  intros a b Ha Hb. unfold Qdiv. apply Qmult_lt_0_compat; [assumption|].
  now apply Qinv_lt_0_compat.
Qed.

Lemma fdiv_positive :
  forall a b : float64, fpositive a -> fpositive b -> fpositive (fdiv a b).
Proof.
  intros [a| | |] [b| | |] Ha Hb; cbn in Ha, Hb; try contradiction.
  unfold fdiv. rewrite Qis_zero_false by lra. cbn. now apply Qdiv_pos.
Qed.

Lemma fadd_positive :
  forall a b : float64, fpositive a -> fpositive b -> fpositive (fadd a b).
Proof.
  intros [a| | |] [b| | |] Ha Hb; cbn in *; try contradiction. lra.
Qed.

Section ResolutionFloor.
Variable C : Collaborators.
Variable best_partition : BestPartition.
Variable G : Graph.
Variable n_clusters : Z.
Hypothesis pow15_positive : forall v : Z, (1 <= v)%Z -> fpositive (pow15 C v).
Hypothesis target_positive : (1 <= n_clusters)%Z.

Lemma first_resolution_positive : fpositive (first_resolution C n_clusters).
Proof.
  apply fdiv_positive; [cbn; lra|now apply pow15_positive].
Qed.

Lemma square_in_range :
  forall c : Z, (1 <= c < 500)%Z -> 1 <= inject_Z (c * c) <= 249001.
Proof.
  intros c Hc. change 1 with (inject_Z 1). change 249001 with (inject_Z 249001).
  rewrite <- !Zle_Qle. nia.
Qed.

(** The resolution after the two calls of a pass, before the floor. *)
Lemma calls_admissible :
  forall s,
    resolution_floored C n_clusters s -> (st_c s < 500)%Z ->
    let s2 := call_higher C best_partition G n_clusters
                (call_lower best_partition G n_clusters s) in
    st_c s2 = st_c s
    /\ fpositive (st_res s2)
    /\ Forall (resolution_admissible C n_clusters) (st_trace s2).
Proof.
  intros s (Hc & Hres & Htr) Hlt.
  pose proof first_resolution_positive as Hfirst.
  assert (Hpos : fpositive (st_res s)).
  { destruct Hres as [[_ ->]|(_ & Hf & Hle)]; [exact Hfirst|].
    destruct (st_res s) as [q| | |]; cbn in Hf; try contradiction.
    cbn in Hle. apply Qle_bool_iff in Hle. cbn. lra. }
  assert (Hadm : resolution_admissible C n_clusters (st_res s)).
  { split; [exact Hpos|]. destruct Hres as [[_ ->]|(_ & Hf & Hle)].
    - left. destruct (first_resolution C n_clusters); cbn in *; try contradiction.
      reflexivity.
    - right. destruct (st_res s) as [q| | |]; cbn in Hf; try contradiction.
      cbn in Hle |- *. apply Qle_bool_iff in Hle. apply Qle_bool_iff. lra. }
  destruct (square_in_range (st_c s) ltac:(lia)) as [Hk1 Hk2].
  assert (H1 : st_c (call_lower best_partition G n_clusters s) = st_c s
               /\ resolution_admissible C n_clusters
                    (st_res (call_lower best_partition G n_clusters s))
               /\ Forall (resolution_admissible C n_clusters)
                    (st_trace (call_lower best_partition G n_clusters s))).
  { unfold call_lower. destruct (n_communities (st_b s) <? n_clusters)%Z;
      [|split; [reflexivity|split; assumption]].
    cbn [st_c st_res st_trace]. split; [reflexivity|]. split.
    - destruct (st_res s) as [q| | |] eqn:Eq; cbn in Hpos; try contradiction.
      unfold fdiv. rewrite Qis_zero_false by lra.
      split; [cbn; apply Qdiv_pos; lra|].
      destruct Hres as [[Hc1 Hq]|(_ & _ & Hle)].
      + left. rewrite <- Hq, Hc1. cbn. field.
      + right. cbn in Hle |- *. apply Qle_bool_iff in Hle. apply Qle_bool_iff.
        apply Qle_shift_div_l; lra.
    - apply Forall_app. split; [assumption|]. now constructor. }
  destruct H1 as (Hc1 & [Hpos1 Hadm1] & Htr1).
  set (s1 := call_lower best_partition G n_clusters s) in *.
  cbn zeta. unfold call_higher. destruct (n_clusters <? n_communities (st_b s1))%Z;
    [|split; [assumption|split; assumption]].
  cbn [st_c st_res st_trace]. split; [exact Hc1|]. split.
  - apply fadd_positive; [assumption|].
    apply fdiv_positive; [cbn; lra|apply pow15_positive; lia].
  - apply Forall_app. split; [assumption|]. constructor; [|constructor]. now split.
Qed.

(** A pass ends with a resolution of at least 1e-4: this is the floor. *)
Lemma attempt_floored :
  forall s,
    resolution_floored C n_clusters s -> (st_c s < 500)%Z ->
    resolution_floored C n_clusters (attempt C best_partition G n_clusters s).
Proof.
  intros s Hs Hlt. pose proof Hs as (Hc & _ & _).
  destruct (calls_admissible s Hs Hlt) as (Hc2 & Hpos2 & Htr2).
  set (s2 := call_higher C best_partition G n_clusters
               (call_lower best_partition G n_clusters s)) in *.
  assert (H3 : st_c (floor_res s2) = st_c s
               /\ ffinite (st_res (floor_res s2))
               /\ fle (Fin (1 # 10000)) (st_res (floor_res s2)) = true
               /\ st_trace (floor_res s2) = st_trace s2).
  { unfold floor_res, flt.
    destruct (st_res s2) as [q| | |] eqn:Eq; cbn in Hpos2; try contradiction.
    cbn [fle]. destruct (Qle_bool q (1 # 10000)) eqn:E1; cbn [andb].
    - destruct (Qle_bool (1 # 10000) q) eqn:E2; cbn [negb].
      + rewrite Eq. cbn. now rewrite E2.
      + cbn [st_c st_res st_trace fadd ffinite fle]. repeat split; [assumption|].
        apply Qle_bool_iff. lra.
    - rewrite Eq. cbn. repeat split; [assumption|].
      apply Qle_bool_iff. destruct (Qlt_le_dec q (1 # 10000)) as [Hq|Hq]; [|exact Hq].
      exfalso. apply Qlt_le_weak, Qle_bool_iff in Hq. congruence. }
  destruct H3 as (Hc3 & Hf3 & Hle3 & Htr3).
  unfold attempt. fold s2. unfold resolution_floored, next_c, keep_best.
  destruct (_ <=? _)%Z; cbn [st_res st_trace st_c]; rewrite Hc3, Htr3;
    (split; [lia|split; [right; split; [lia|now split]|assumption]]).
Qed.

Lemma search_floored :
  forall (fuel : nat) (s : SearchState),
    resolution_floored C n_clusters s ->
    resolution_floored C n_clusters (search C best_partition G n_clusters fuel s).
Proof.
  induction fuel as [|fuel IH]; intros s Hs; cbn [search]; [assumption|].
  destruct (loop_test n_clusters s) eqn:Ht; [|assumption].
  assert (Hlt : (st_c s < 500)%Z).
  { unfold loop_test in Ht. apply andb_true_iff in Ht. now apply Z.ltb_lt. }
  pose proof (attempt_floored s Hs Hlt) as Ha.
  destruct (_ =? _)%Z; [assumption|now apply IH].
Qed.

Lemma one_repeat_floored :
  forall (calls : nat) (trace : list float64),
    Forall (resolution_admissible C n_clusters) trace ->
    resolution_floored C n_clusters (one_repeat C best_partition G n_clusters calls trace).
Proof.
  intros calls trace Htr. unfold one_repeat. apply search_floored.
  pose proof first_resolution_positive as Hfirst.
  unfold start. split; [cbn [st_c]; lia|]. split; [left; now split|].
  cbn [st_trace]. apply Forall_app. split; [assumption|]. constructor; [|constructor].
  split; [exact Hfirst|]. left. fold (first_resolution C n_clusters).
  destruct (first_resolution C n_clusters); cbn in *; try contradiction. reflexivity.
Qed.

(** In the three repeats every resolution handed to [best_partition] is
    positive, and is the first one of a repeat or at least 1e-10; the
    resolution they end with is the first one, no pass having been made, or
    at least 1e-4. *)
Lemma three_repeats_resolution_floored :
  resolution_floored C n_clusters (three_repeats C best_partition G n_clusters).
Proof.
  unfold three_repeats.
  pose proof (one_repeat_floored 0 [] (Forall_nil _)) as (_ & _ & H1).
  set (s1 := one_repeat C best_partition G n_clusters 0 []) in *.
  pose proof (one_repeat_floored (st_calls s1) _ H1) as (_ & _ & H2).
  set (s2 := one_repeat C best_partition G n_clusters (st_calls s1) (st_trace s1)) in *.
  exact (one_repeat_floored (st_calls s2) _ H2).
Qed.

End ResolutionFloor.

(** ** When the weighting succeeds *)

Lemma normed_cell_finite :
  forall t q : Q,
    0 <= t -> 0 <= q -> (t == 0 -> q == 0) ->
    exists c, normed_cell (Fin t) (Fin q) = Fin c /\ 0 <= c /\ (0 < t -> c == q / t).
Proof.
  intros t q Ht Hq Hz. unfold normed_cell, fdiv.
  destruct (Qeq_dec t 0) as [E|E].
  - rewrite (Qis_zero_true t E), (Qis_zero_true q (Hz E)). cbn.
    exists 0. split; [reflexivity|]. split; [lra|intros; lra].
  - rewrite (Qis_zero_false t E). cbn. exists (q / t). split; [reflexivity|].
    split; [|intros; reflexivity].
    assert (0 < t) by (destruct (Qlt_le_dec 0 t); [assumption|exfalso; apply E; lra]).
    apply Qle_shift_div_l; lra.
Qed.

Lemma fmax_finite :
  forall l : list float64,
    Forall fnonneg l -> l <> [] ->
    exists m, fmax l = Fin m /\ forall a, In a l -> to_q a <= m.
Proof.
  induction l as [|a t IH]; intros Hnn Hne; [contradiction|].
  inversion Hnn as [|? ? Ha Ht]; subst.
  destruct a as [q| | |]; cbn in Ha; try contradiction.
  destruct t as [|b t].
  - exists q. split; [reflexivity|]. intros a [<-|[]]. cbn. lra.
  - destruct (IH Ht ltac:(discriminate)) as [m [Hm Hall]].
    change (fmax (Fin q :: b :: t)) with (fmax2 (Fin q) (fmax (b :: t))).
    rewrite Hm. unfold fmax2. cbn [is_nan fle].
    destruct (Qle_bool q m) eqn:E.
    + apply Qle_bool_iff in E. exists m. split; [reflexivity|].
      intros a [<-|Hin]; [exact E|now apply Hall].
    + exists q. split; [reflexivity|].
      assert (m <= q).
      { destruct (Qlt_le_dec q m) as [Hlt|Hle]; [|exact Hle].
        apply Qlt_le_weak, Qle_bool_iff in Hlt. congruence. }
      intros a [<-|Hin]; [cbn; lra|]. specialize (Hall a Hin). lra.
Qed.

Lemma Qsum_pos_exists :
  forall l : list float64,
    Forall fnonneg l -> 0 < Qsum (map to_q l) -> exists a, In a l /\ 0 < to_q a.
Proof.
  induction l as [|a t IH]; intros Hnn Hs.
  - cbn in Hs. lra.
  - inversion Hnn as [|? ? Ha Ht]; subst. cbn [map] in Hs. rewrite Qsum_cons in Hs.
    destruct (Qlt_le_dec 0 (to_q a)) as [Hp|Hz].
    + exists a. split; [now left|exact Hp].
    + destruct (IH Ht) as [b [Hb Hpb]]; [lra|]. exists b. split; [now right|exact Hpb].
Qed.

Lemma Qtrunc_ge_1 : forall q : Q, 1 <= q -> (1 <= Qtrunc q)%Z.
Proof.
  intros [n d] H. unfold Qle in H. cbn in H. unfold Qtrunc. cbn.
  apply Z.quot_le_lower_bound; lia.
Qed.

Lemma mapM_total :
  forall (A B : Type) (f : A -> result B) (P : A -> B -> Prop) (l : list A),
    (forall a, In a l -> exists b, f a = Ok b /\ P a b) ->
    exists bs, mapM f l = Ok bs /\ Forall2 P l bs.
Proof.
  intros A B f P l. induction l as [|a t IH]; intros H.
  - exists []. split; [reflexivity|constructor].
  - destruct (H a (or_introl eq_refl)) as [b [Hb Hp]].
    destruct IH as [bs [Hbs Hall]]; [intros x Hx; apply H; now right|].
    exists (b :: bs). cbn. rewrite Hb, Hbs. split; [reflexivity|now constructor].
Qed.

Lemma combine_map_same :
  forall (A B D : Type) (f : A -> B) (g : A -> D) (l : list A),
    combine (map f l) (map g l) = map (fun a => (f a, g a)) l.
Proof.
  intros A B D f g l. induction l as [|a t IH]; cbn; [reflexivity|]. now rewrite IH.
Qed.

(** The series [w = g + l] over the group, cell by cell. *)
Lemma weighting_series :
  forall (n : Network) (b_i : list string),
    series_add (normed (group_gen n b_i)) (normed (group_load n b_i))
    = map (fun k =>
             (k, fadd (normed_cell (fsum (values (group_gen n b_i)))
                         (match lookup String.eqb k
                                  (series_add (conv_capacity n (generators n))
                                              (conv_capacity n (storage_units n)))
                          with Some v => v | None => Fin 0 end))
                      (normed_cell (fsum (values (group_load n b_i)))
                         (match lookup String.eqb k (load_by_bus n)
                          with Some v => v | None => Fin 0 end))))
          b_i.
Proof.
  intros n b_i. unfold series_add at 1, normed, map_values.
  generalize (fsum (values (group_gen n b_i))) (fsum (values (group_load n b_i))).
  intros Tg Tl. unfold group_gen, group_load, reindex.
  rewrite !map_map. cbn [fst snd]. rewrite combine_map_same, map_map. reflexivity.
Qed.

Lemma Forall2_index_values :
  forall (V W : Type) (Q : W -> Prop) (w : Series string V) (ws : Series string W),
    Forall2 (fun kv r => fst r = fst kv /\ Q (snd r)) w ws ->
    index ws = index w /\ Forall Q (values ws).
Proof.
  intros V W Q w ws H. unfold index, values.
  induction H as [|kv r w' ws' [Hk Hz] _ [IHi IHv]]; [split; [reflexivity|constructor]|].
  cbn [map]. split; [now rewrite Hk, IHi|now constructor].
Qed.

Lemma scale_clip_succeeds :
  forall (w : Series string float64) (m : Q),
    fmax (values w) = Fin m -> 0 < m ->
    Forall ffinite (values w) ->
    exists ws, scale_clip w = Ok ws /\ index ws = index w
               /\ Forall (fun z => (1 <= z)%Z) (values ws).
Proof.
  intros w m Hm Hpos Hfin. unfold scale_clip. rewrite Hm.
  assert (Hscale : fdiv (Fin 100) (Fin m) = Fin (100 / m)).
  { unfold fdiv. now rewrite Qis_zero_false by lra. }
  rewrite Hscale.
  destruct (mapM_total _ _
              (fun kv => z <- astype_int (clip_lower (Fin 1) (fmul (snd kv) (Fin (100 / m)))) ;;
                         Ok (fst kv, z))
              (fun kv r => fst r = fst kv /\ (1 <= snd r)%Z) w) as [ws [Hws Hall]].
  { intros kv Hkv.
    assert (Hk : ffinite (snd kv)).
    { unfold values in Hfin. rewrite Forall_forall in Hfin. apply Hfin. now apply in_map. }
    destruct (snd kv) as [c| | |]; try contradiction.
    cbn [fmul]. unfold clip_lower. cbn [is_nan fle].
    destruct (Qle_bool 1 (c * (100 / m))) eqn:E; cbn [astype_int bind].
    - eexists. split; [reflexivity|]. cbn [fst snd]. split; [reflexivity|].
      apply Qtrunc_ge_1. now apply Qle_bool_iff.
    - eexists. split; [reflexivity|]. cbn [fst snd]. split; [reflexivity|].
      apply Qtrunc_ge_1. lra. }
  exists ws. split; [exact Hws|]. now apply Forall2_index_values.
Qed.

(** The success of the weighting in the exact arithmetic of the embedding:
    with finite, non-negative cells of capacity and load of which at least one
    total is positive, every bus of the group gets an integer weight of at
    least 1. *)
Lemma weighting_succeeds_on_cells :
  forall (n : Network) (b_i : list string),
    Forall fnonneg (values (group_gen n b_i)) ->
    Forall fnonneg (values (group_load n b_i)) ->
    fpositive (fsum (values (group_gen n b_i)))
    \/ fpositive (fsum (values (group_load n b_i))) ->
    exists ws, weighting_for_country n b_i = Ok ws /\ index ws = b_i
               /\ Forall (fun z => (1 <= z)%Z) (values ws).
Proof.
  intros n b_i Hg Hl Hpos. unfold weighting_for_country. rewrite weighting_series.
  rewrite (fsum_finite _ (Forall_impl _ fnonneg_finite Hg)) in *.
  rewrite (fsum_finite _ (Forall_impl _ fnonneg_finite Hl)) in *.
  pose proof (Qsum_nonneg _ Hg) as Htg. pose proof (Qsum_nonneg _ Hl) as Htl.
  pose proof (Qsum_zero_all_zero _ Hg) as Hzg. pose proof (Qsum_zero_all_zero _ Hl) as Hzl.
  pose proof (Qsum_pos_exists _ Hg) as Hpg. pose proof (Qsum_pos_exists _ Hl) as Hpl.
  revert Hg Hl Htg Htl Hzg Hzl Hpg Hpl Hpos.
  generalize (Qsum (map to_q (values (group_gen n b_i)))).
  generalize (Qsum (map to_q (values (group_load n b_i)))).
  unfold group_gen, group_load, reindex, values. rewrite !map_map. cbn [snd].
  set (fg := fun k : string =>
         match lookup String.eqb k
                 (series_add (conv_capacity n (generators n))
                             (conv_capacity n (storage_units n)))
         with Some v => v | None => Fin 0 end).
  set (fl := fun k : string =>
         match lookup String.eqb k (load_by_bus n) with Some v => v | None => Fin 0 end).
  intros tl tg Hg Hl Htg Htl Hzg Hzl Hpg Hpl Hpos. cbn [fpositive] in Hpos.
  rewrite Forall_forall in Hg, Hl.
  (* each cell of w is finite *)
  assert (Hcell : forall k, In k b_i ->
            exists c, fadd (normed_cell (Fin tg) (fg k)) (normed_cell (Fin tl) (fl k)) = Fin c
                      /\ (0 < tg -> to_q (fg k) / tg <= c)
                      /\ (0 < tl -> to_q (fl k) / tl <= c)).
  { intros k Hk.
    pose proof (Hg (fg k) (in_map fg _ _ Hk)) as Hgk.
    pose proof (Hl (fl k) (in_map fl _ _ Hk)) as Hlk.
    assert (Hzgk : tg == 0 -> to_q (fg k) == 0).
    { intros E. specialize (Hzg E). rewrite Forall_forall in Hzg.
      apply Hzg. now apply in_map. }
    assert (Hzlk : tl == 0 -> to_q (fl k) == 0).
    { intros E. specialize (Hzl E). rewrite Forall_forall in Hzl.
      apply Hzl. now apply in_map. }
    destruct (fg k) as [a| | |]; cbn in Hgk; try contradiction.
    destruct (fl k) as [b| | |]; cbn in Hlk; try contradiction.
    cbn [to_q] in *.
    destruct (normed_cell_finite tg a Htg Hgk Hzgk) as [ca [-> [Hca Hca']]].
    destruct (normed_cell_finite tl b Htl Hlk Hzlk) as [cb [-> [Hcb Hcb']]].
    exists (ca + cb). cbn. split; [reflexivity|].
    split; intros Ht; [rewrite <- (Hca' Ht)|rewrite <- (Hcb' Ht)]; lra. }
  set (w := map (fun k => (k, fadd (normed_cell (Fin tg) (fg k))
                                   (normed_cell (Fin tl) (fl k)))) b_i).
  assert (Hwv : values w = map (fun k => fadd (normed_cell (Fin tg) (fg k))
                                               (normed_cell (Fin tl) (fl k))) b_i).
  { unfold w, values. now rewrite map_map. }
  assert (Hwi : index w = b_i).
  { unfold w, index. rewrite map_map. cbn [fst]. apply map_id. }
  assert (Hwnn : Forall fnonneg (values w)).
  { rewrite Hwv. apply Forall_forall. intros a Ha. apply in_map_iff in Ha.
    destruct Ha as [k [<- Hk]]. destruct (Hcell k Hk) as [c [-> [H1 H2]]]. cbn.
    pose proof (Hg (fg k) (in_map fg _ _ Hk)) as Hgk.
    pose proof (Hl (fl k) (in_map fl _ _ Hk)) as Hlk.
    destruct Hpos as [Hp|Hp].
    - specialize (H1 Hp). destruct (fg k); cbn in Hgk; try contradiction. cbn in H1.
      assert (0 <= q / tg) by (apply Qle_shift_div_l; lra). lra.
    - specialize (H2 Hp). destruct (fl k); cbn in Hlk; try contradiction. cbn in H2.
      assert (0 <= q / tl) by (apply Qle_shift_div_l; lra). lra. }
  (* some cell is positive, so the maximum is *)
  assert (Hsome : exists k, In k b_i /\
            exists c, fadd (normed_cell (Fin tg) (fg k)) (normed_cell (Fin tl) (fl k)) = Fin c
                      /\ 0 < c).
  { destruct Hpos as [Hp|Hp].
    - destruct (Hpg Hp) as [a [Ha Hap]]. apply in_map_iff in Ha.
      destruct Ha as [k [<- Hk]]. exists k. split; [exact Hk|].
      destruct (Hcell k Hk) as [c [Hc [H1 _]]]. exists c. split; [exact Hc|].
      specialize (H1 Hp). assert (0 < to_q (fg k) / tg) by (now apply Qdiv_pos). lra.
    - destruct (Hpl Hp) as [a [Ha Hap]]. apply in_map_iff in Ha.
      destruct Ha as [k [<- Hk]]. exists k. split; [exact Hk|].
      destruct (Hcell k Hk) as [c [Hc [_ H2]]]. exists c. split; [exact Hc|].
      specialize (H2 Hp). assert (0 < to_q (fl k) / tl) by (now apply Qdiv_pos). lra. }
  destruct Hsome as [k [Hk [c [Hc Hcpos]]]].
  assert (Hne : values w <> []).
  { rewrite Hwv. destruct b_i; [contradiction|discriminate]. }
  destruct (fmax_finite _ Hwnn Hne) as [m [Hm Hall]].
  assert (Hmpos : 0 < m).
  { specialize (Hall (Fin c)). cbn in Hall.
    assert (c <= m); [|lra]. apply Hall. rewrite Hwv. apply in_map_iff.
    exists k. split; [exact Hc|exact Hk]. }
  destruct (scale_clip_succeeds w m Hm Hmpos (Forall_impl _ fnonneg_finite Hwnn))
    as [ws [Hws [Hi Hv]]].
  exists ws. split; [exact Hws|]. split; [congruence|exact Hv].
Qed.

(** *** Non-negative inputs give non-negative cells *)

Lemma fsum_nonneg : forall l : list float64, Forall fnonneg l -> fnonneg (fsum l).
Proof.
  intros l H. rewrite (fsum_finite _ (Forall_impl _ fnonneg_finite H)).
  cbn. now apply Qsum_nonneg.
Qed.

Lemma groupby_sum_nonneg :
  forall (R : Type) (key : R -> string) (val : R -> float64) (rows : list R),
    Forall (fun r => fnonneg (val r)) rows ->
    Forall fnonneg (values (groupby_sum String.eqb String.leb key val rows)).
Proof.
  intros R key val rows H. unfold groupby_sum, values. rewrite map_map. cbn [snd].
  apply Forall_forall. intros v Hv. apply in_map_iff in Hv. destruct Hv as [g [<- Hg]].
  apply fsum_nonneg. apply Forall_forall. intros x Hx. apply in_map_iff in Hx.
  destruct Hx as [r [<- Hr]].
  destruct (groupby_member String.eqb String.leb String.eqb_eq key rows g r Hg Hr) as [Hin _].
  rewrite Forall_forall in H. now apply H.
Qed.

Lemma lookup_In_values :
  forall (V : Type) (k : string) (s : Series string V) (v : V),
    lookup String.eqb k s = Some v -> In v (values s).
Proof.
  intros V k s v. induction s as [|[k' v'] t IH]; cbn; [discriminate|].
  destruct (String.eqb k k'); [intros [= ->]; now left|]. intros H. right. now apply IH.
Qed.

Lemma reindex_nonneg :
  forall (idx : list string) (s : Series string float64),
    Forall fnonneg (values s) ->
    Forall fnonneg (values (reindex String.eqb idx (Fin 0) s)).
Proof.
  intros idx s H. unfold reindex, values. rewrite map_map. cbn [snd].
  apply Forall_forall. intros v Hv. apply in_map_iff in Hv. destruct Hv as [k [<- _]].
  destruct (lookup String.eqb k s) as [v|] eqn:E; [|cbn; lra].
  rewrite Forall_forall in H. apply H. eapply lookup_In_values. exact E.
Qed.

Lemma series_add_nonneg :
  forall (K : Type) (a b : Series K float64),
    Forall fnonneg (values a) -> Forall fnonneg (values b) ->
    Forall fnonneg (values (series_add a b)).
Proof.
  intros K a b Ha Hb. unfold series_add, values. rewrite map_map. cbn [snd].
  apply Forall_forall. intros v Hv. apply in_map_iff in Hv.
  destruct Hv as [[[k1 v1] [k2 v2]] [<- Hin]]. cbn [fst snd].
  pose proof (in_combine_l _ _ _ _ Hin) as H1. pose proof (in_combine_r _ _ _ _ Hin) as H2.
  rewrite Forall_forall in Ha, Hb.
  assert (Hv1 : fnonneg v1) by (apply Ha; change v1 with (snd (k1, v1)); now apply in_map).
  assert (Hv2 : fnonneg v2) by (apply Hb; change v2 with (snd (k2, v2)); now apply in_map).
  destruct v1, v2; cbn in *; try contradiction. lra.
Qed.

Lemma inputs_give_nonneg_cells :
  forall (n : Network) (b_i : list string),
    inputs_in_range n ->
    Forall fnonneg (values (group_gen n b_i))
    /\ Forall fnonneg (values (group_load n b_i)).
Proof.
  intros n b_i (Hu & Hl & _ & _).
  assert (Hconv : forall units, incl units (generators n ++ storage_units n) ->
            Forall fnonneg (values (conv_capacity n units))).
  { intros units Hincl. unfold conv_capacity. apply reindex_nonneg, groupby_sum_nonneg.
    apply Forall_forall. intros u Hin. apply filter_In in Hin. destruct Hin as [Hin Hc].
    rewrite Forall_forall in Hu. cbn. apply Hu. unfold conv_units. apply filter_In.
    split; [now apply Hincl|exact Hc]. }
  split.
  - unfold group_gen. apply reindex_nonneg, series_add_nonneg; apply Hconv.
    + now apply incl_appl.
    + now apply incl_appr.
  - unfold group_load, load_by_bus. apply reindex_nonneg, groupby_sum_nonneg.
    apply Forall_forall. intros l Hin. rewrite Forall_forall in Hl. cbn. now apply Hl.
Qed.

(** The weighting succeeds on every group whose conventional capacity or
    whose load has a positive total, the capacities and demands of the network
    being non-negative with totals that do not overflow: each bus of the group
    gets an integer weight of at least 1. *)
Theorem weighting_succeeds_with_positive_total :
  forall (n : Network) (b_i : list string),
    inputs_in_range n ->
    fpositive (fsum (values (group_gen n b_i)))
    \/ fpositive (fsum (values (group_load n b_i))) ->
    exists ws, weighting_for_country n b_i = Ok ws /\ index ws = b_i
               /\ Forall (fun z => (1 <= z)%Z) (values ws).
Proof.
  intros n b_i Hin Hpos. destruct (inputs_give_nonneg_cells n b_i Hin) as [Hg Hl].
  now apply weighting_succeeds_on_cells.
Qed.

(** ** More on normed and the weighting *)

(** [normed] of finite non-negative shares whose total does not overflow
    keeps the index; with a positive total the normed shares sum to 1, with a
    zero total they are all 0. *)
Theorem normed_sums_to_one_or_vanishes :
  forall (K : Type) (s : Series K float64),
    Forall fnonneg (values s) ->
    series_in_range s ->
    index (normed s) = index s
    /\ Forall fnonneg (values (normed s))
    /\ (fpositive (fsum (values s)) -> feq (fsum (values (normed s))) (Fin 1))
    /\ (feq (fsum (values s)) (Fin 0) ->
        Forall (fun v => feq v (Fin 0)) (values (normed s))).
Proof.
  intros K s Hnn _.
  assert (Hidx : index (normed s) = index s).
  { unfold index, normed, map_values. rewrite map_map. reflexivity. }
  assert (Hval : values (normed s) = map (normed_cell (fsum (values s))) (values s)).
  { unfold values, normed, map_values. rewrite !map_map. reflexivity. }
  rewrite Hval, (fsum_finite _ (Forall_impl _ fnonneg_finite Hnn)).
  pose proof (Qsum_nonneg _ Hnn) as Ht.
  pose proof (Qsum_zero_all_zero _ Hnn) as Hz.
  remember (Qsum (map to_q (values s))) as t eqn:Et.
  assert (Hcell : forall a, In a (values s) ->
            exists c, normed_cell (Fin t) a = Fin c /\ 0 <= c
                      /\ (0 < t -> c == to_q a / t) /\ (t == 0 -> c == 0)).
  { intros a Ha. rewrite Forall_forall in Hnn. specialize (Hnn a Ha).
    destruct a as [q| | |]; cbn in Hnn; try contradiction.
    assert (Hzq : t == 0 -> q == 0).
    { intros E. specialize (Hz E). rewrite Forall_forall in Hz. exact (Hz _ Ha). }
    destruct (normed_cell_finite t q Ht Hnn Hzq) as [c [Hc [Hc0 Hc1]]].
    exists c. split; [exact Hc|]. split; [exact Hc0|]. split; [exact Hc1|].
    intros E. unfold normed_cell, fdiv in Hc.
    rewrite (Qis_zero_true t E), (Qis_zero_true q (Hzq E)) in Hc. cbn in Hc.
    injection Hc as <-. reflexivity. }
  assert (Hfin : Forall fnonneg (map (normed_cell (Fin t)) (values s))).
  { apply Forall_forall. intros v Hv. apply in_map_iff in Hv.
    destruct Hv as [a [<- Ha]]. destruct (Hcell a Ha) as [c [-> [Hc _]]]. exact Hc. }
  split; [exact Hidx|]. split; [exact Hfin|]. split.
  - intros Hpos. cbn in Hpos.
    rewrite (fsum_finite _ (Forall_impl _ fnonneg_finite Hfin)). cbn [feq].
    rewrite map_map.
    transitivity (Qsum (map (fun a => to_q a * (1 / t)) (values s))).
    + apply Qsum_ext. intros a Ha. destruct (Hcell a Ha) as [c [-> [_ [Hc _]]]].
      cbn [to_q]. rewrite (Hc Hpos). field. lra.
    + rewrite Qsum_scale, <- Et. field. lra.
  - intros E. cbn in E. apply Forall_forall. intros v Hv. apply in_map_iff in Hv.
    destruct Hv as [a [<- Ha]]. destruct (Hcell a Ha) as [c [-> [_ [_ Hc]]]].
    cbn. now apply Hc.
Qed.

(** [normed] on the load shares of the example network. *)
Lemma normed_witness :
  Forall fnonneg (values (group_load Examples.net_demo ["a1"; "a2"; "a3"]))
  /\ series_in_range (group_load Examples.net_demo ["a1"; "a2"; "a3"])
  /\ index (normed (group_load Examples.net_demo ["a1"; "a2"; "a3"])) = ["a1"; "a2"; "a3"]
  /\ feq (fsum (values (normed (group_load Examples.net_demo ["a1"; "a2"; "a3"])))) (Fin 1).
Proof.
  assert (H : Forall fnonneg (values (group_load Examples.net_demo ["a1"; "a2"; "a3"]))).
  { vm_compute. repeat constructor; discriminate. }
  assert (Hr : series_in_range (group_load Examples.net_demo ["a1"; "a2"; "a3"])).
  { vm_compute. discriminate. }
  split; [exact H|]. split; [exact Hr|].
  destruct (normed_sums_to_one_or_vanishes _ _ H Hr) as [Hi [_ [Hp _]]].
  split; [exact Hi|]. apply Hp. vm_compute. reflexivity.
Defined.

Lemma fmax_In : forall l : list float64, Forall fnonneg l -> l <> [] -> In (fmax l) l.
Proof.
  induction l as [|a t IH]; intros Hnn Hne; [contradiction|].
  inversion Hnn as [|? ? Ha Ht]; subst.
  destruct a as [q| | |]; cbn in Ha; try contradiction.
  destruct t as [|b t]; [now left|].
  specialize (IH Ht ltac:(discriminate)).
  change (fmax (Fin q :: b :: t)) with (fmax2 (Fin q) (fmax (b :: t))).
  unfold fmax2. cbn [is_nan].
  destruct (is_nan (fmax (b :: t))); [now left|].
  destruct (fle (Fin q) (fmax (b :: t))); [now right|now left].
Qed.

Lemma Qtrunc_le_100 : forall q : Q, q <= 100 -> (Qtrunc q <= 100)%Z.
Proof.
  intros [n d] H. unfold Qle in H. cbn in H. unfold Qtrunc. cbn.
  apply Z.quot_le_upper_bound; lia.
Qed.

(** The series [w] of the weighting over finite non-negative inputs: indexed
    by the group, finite and non-negative, and zero when both totals are. *)
Lemma weighting_series_nonneg :
  forall (n : Network) (b_i : list string),
    Forall fnonneg (values (group_gen n b_i)) ->
    Forall fnonneg (values (group_load n b_i)) ->
    let w := series_add (normed (group_gen n b_i)) (normed (group_load n b_i)) in
    index w = b_i
    /\ Forall fnonneg (values w)
    /\ (feq (fsum (values (group_gen n b_i))) (Fin 0) ->
        feq (fsum (values (group_load n b_i))) (Fin 0) ->
        Forall (fun v => to_q v == 0) (values w)).
Proof.
  intros n b_i Hg Hl w. unfold w. clear w. rewrite weighting_series.
  rewrite (fsum_finite _ (Forall_impl _ fnonneg_finite Hg)) in *.
  rewrite (fsum_finite _ (Forall_impl _ fnonneg_finite Hl)) in *.
  pose proof (Qsum_nonneg _ Hg) as Htg. pose proof (Qsum_nonneg _ Hl) as Htl.
  pose proof (Qsum_zero_all_zero _ Hg) as Hzg. pose proof (Qsum_zero_all_zero _ Hl) as Hzl.
  revert Hg Hl Htg Htl Hzg Hzl.
  generalize (Qsum (map to_q (values (group_gen n b_i)))).
  generalize (Qsum (map to_q (values (group_load n b_i)))).
  unfold group_gen, group_load, reindex, values. rewrite !map_map. cbn [snd fst].
  set (fg := fun k : string =>
         match lookup String.eqb k
                 (series_add (conv_capacity n (generators n))
                             (conv_capacity n (storage_units n)))
         with Some v => v | None => Fin 0 end).
  set (fl := fun k : string =>
         match lookup String.eqb k (load_by_bus n) with Some v => v | None => Fin 0 end).
  intros tl tg Hg Hl Htg Htl Hzg Hzl. rewrite Forall_forall in Hg, Hl.
  assert (Hcell : forall k, In k b_i ->
            exists c, fadd (normed_cell (Fin tg) (fg k)) (normed_cell (Fin tl) (fl k)) = Fin c
                      /\ 0 <= c /\ (tg == 0 -> tl == 0 -> c == 0)).
  { intros k Hk.
    pose proof (Hg (fg k) (in_map fg _ _ Hk)) as Hgk.
    pose proof (Hl (fl k) (in_map fl _ _ Hk)) as Hlk.
    assert (Hzgk : tg == 0 -> to_q (fg k) == 0).
    { intros E. specialize (Hzg E). rewrite Forall_forall in Hzg.
      apply Hzg. now apply in_map. }
    assert (Hzlk : tl == 0 -> to_q (fl k) == 0).
    { intros E. specialize (Hzl E). rewrite Forall_forall in Hzl.
      apply Hzl. now apply in_map. }
    destruct (fg k) as [a| | |]; cbn in Hgk; try contradiction.
    destruct (fl k) as [b| | |]; cbn in Hlk; try contradiction.
    cbn [to_q] in *.
    exists (to_q (normed_cell (Fin tg) (Fin a)) + to_q (normed_cell (Fin tl) (Fin b))).
    destruct (normed_cell_finite tg a Htg Hgk Hzgk) as [ca [Ha [Hca _]]].
    destruct (normed_cell_finite tl b Htl Hlk Hzlk) as [cb [Hb [Hcb _]]].
    rewrite Ha, Hb. cbn [fadd to_q]. split; [reflexivity|]. split; [lra|].
    intros Eg El. unfold normed_cell, fdiv in Ha, Hb.
    rewrite (Qis_zero_true tg Eg), (Qis_zero_true a (Hzgk Eg)) in Ha.
    rewrite (Qis_zero_true tl El), (Qis_zero_true b (Hzlk El)) in Hb.
    cbn in Ha, Hb. injection Ha as <-. injection Hb as <-. lra. }
  split; [unfold index; rewrite map_map; apply map_id|]. split.
  - apply Forall_forall. intros v Hv. rewrite map_map in Hv. apply in_map_iff in Hv.
    destruct Hv as [k [<- Hk]]. cbn [snd].
    change (fnonneg (fadd (normed_cell (Fin tg) (fg k)) (normed_cell (Fin tl) (fl k)))).
    destruct (Hcell k Hk) as [c [-> [Hc _]]]. exact Hc.
  - cbn [feq]. intros Eg El. apply Forall_forall. intros v Hv.
    rewrite map_map in Hv. apply in_map_iff in Hv.
    destruct Hv as [k [<- Hk]]. cbn [snd].
    change (to_q (fadd (normed_cell (Fin tg) (fg k)) (normed_cell (Fin tl) (fl k))) == 0).
    destruct (Hcell k Hk) as [c [-> [_ Hc]]]. cbn. auto.
Qed.

Lemma scale_clip_bounded :
  forall (w : Series string float64) (ws : Series string Z),
    Forall fnonneg (values w) ->
    scale_clip w = Ok ws ->
    index ws = index w /\ Forall (fun z => (1 <= z <= 100)%Z) (values ws).
Proof.
  intros w ws Hnn H. unfold scale_clip in H. apply mapM_ok_map in H.
  apply Forall2_index_values.
  destruct w as [|kv0 w0]; [inversion H; constructor|].
  destruct (fmax_finite _ Hnn ltac:(discriminate)) as [m [Hm Hle]].
  rewrite Hm in H. remember (kv0 :: w0) as w eqn:Ew. clear Ew kv0 w0.
  unfold values in Hnn, Hle. rewrite Forall_forall in Hnn.
  assert (Hall : forall kv, In kv w ->
            forall r, (z <- astype_int (clip_lower (Fin 1)
                                          (fmul (snd kv) (fdiv (Fin 100) (Fin m)))) ;;
                       Ok (fst kv, z)) = Ok r ->
                      fst r = fst kv /\ (1 <= snd r <= 100)%Z).
  { intros kv Hkv r Hr.
    pose proof (Hnn _ (in_map snd _ _ Hkv)) as Hc.
    pose proof (Hle _ (in_map snd _ _ Hkv)) as Hcm.
    destruct (snd kv) as [c| | |]; cbn in Hc; try contradiction. cbn [to_q] in Hcm.
    unfold fdiv in Hr. destruct (Qeq_dec m 0) as [E|E].
    - rewrite (Qis_zero_true m E) in Hr. cbn in Hr.
      rewrite (Qis_zero_true c ltac:(lra)) in Hr. cbn in Hr. discriminate.
    - rewrite (Qis_zero_false m E) in Hr. cbn [Qis_zero fmul] in Hr.
      assert (Hmpos : 0 < m) by lra.
      assert (Hx : c * (100 / m) <= 100).
      { assert (c * (100 / m) == 100 * (c / m)) as -> by (field; lra).
        assert (c / m <= 1) by (apply Qle_shift_div_r; lra). lra. }
      unfold clip_lower in Hr. cbn [is_nan fle] in Hr.
      destruct (Qle_bool 1 (c * (100 / m))) eqn:E1; cbn [astype_int bind] in Hr;
        injection Hr as <-; cbn [fst snd]; (split; [reflexivity|split]).
      + apply Qtrunc_ge_1. now apply Qle_bool_iff.
      + now apply Qtrunc_le_100.
      + apply Qtrunc_ge_1. lra.
      + apply Qtrunc_le_100. lra. }
  clear Hnn Hle Hm. induction H as [|kv r w' ws' Hr _ IH]; constructor.
  - apply Hall; [now left|exact Hr].
  - apply IH. intros kv' Hkv'. apply Hall. now right.
Qed.

(** Whenever the weighting returns, on finite non-negative capacities and
    loads, it gives each bus of the group one integer weight between 1 and 100. *)
Theorem weights_between_1_and_100 :
  forall (n : Network) (b_i : list string) (ws : Series string Z),
    Forall fnonneg (values (group_gen n b_i)) ->
    Forall fnonneg (values (group_load n b_i)) ->
    weighting_for_country n b_i = Ok ws ->
    index ws = b_i /\ Forall (fun z => (1 <= z <= 100)%Z) (values ws).
Proof.
  intros n b_i ws Hg Hl H. unfold weighting_for_country in H.
  destruct (weighting_series_nonneg n b_i Hg Hl) as [Hi [Hnn _]].
  destruct (scale_clip_bounded _ _ Hnn H) as [Hi' Hv]. split; [congruence|exact Hv].
Qed.

Lemma weights_between_1_and_100_witness :
  Forall fnonneg (values (group_gen Examples.net_demo ["a1"; "a2"; "a3"]))
  /\ Forall fnonneg (values (group_load Examples.net_demo ["a1"; "a2"; "a3"]))
  /\ weighting_for_country Examples.net_demo ["a1"; "a2"; "a3"]
     = Ok [("a1", 100%Z); ("a2", 1%Z); ("a3", 14%Z)]
  /\ index [("a1", 100%Z); ("a2", 1%Z); ("a3", 14%Z)] = ["a1"; "a2"; "a3"]
  /\ Forall (fun z => (1 <= z <= 100)%Z) (values [("a1", 100%Z); ("a2", 1%Z); ("a3", 14%Z)]).
Proof.
  assert (Hg : Forall fnonneg (values (group_gen Examples.net_demo ["a1"; "a2"; "a3"]))).
  { vm_compute. repeat constructor; discriminate. }
  assert (Hl : Forall fnonneg (values (group_load Examples.net_demo ["a1"; "a2"; "a3"]))).
  { vm_compute. repeat constructor; discriminate. }
  assert (H : weighting_for_country Examples.net_demo ["a1"; "a2"; "a3"]
              = Ok [("a1", 100%Z); ("a2", 1%Z); ("a3", 14%Z)]).
  { vm_compute. reflexivity. }
  repeat (split; [assumption|]).
  exact (weights_between_1_and_100 _ _ _ Hg Hl H).
Defined.

(** The weighting raises on every non-empty group whose conventional capacity
    and whose load both total zero. *)
Theorem weighting_raises_when_totals_vanish :
  forall (n : Network) (b_i : list string),
    b_i <> [] ->
    Forall fnonneg (values (group_gen n b_i)) ->
    Forall fnonneg (values (group_load n b_i)) ->
    feq (fsum (values (group_gen n b_i))) (Fin 0) ->
    feq (fsum (values (group_load n b_i))) (Fin 0) ->
    weighting_for_country n b_i
    = Raise (ValueError "Cannot convert non-finite values (NA or inf) to integer").
Proof.
  intros n b_i Hne Hg Hl Eg El. unfold weighting_for_country.
  destruct (weighting_series_nonneg n b_i Hg Hl) as [Hi [Hnn Hz]].
  specialize (Hz Eg El).
  set (w := series_add (normed (group_gen n b_i)) (normed (group_load n b_i))) in *.
  assert (Hw : values w <> []).
  { intros E. apply Hne. rewrite <- Hi. unfold index, values in *.
    destruct w; [reflexivity|discriminate]. }
  pose proof (fmax_In _ Hnn Hw) as Hin.
  destruct (fmax_finite _ Hnn Hw) as [m [Hm _]].
  assert (Hm0 : m == 0).
  { rewrite Forall_forall in Hz. specialize (Hz _ Hin). now rewrite Hm in Hz. }
  unfold scale_clip. rewrite Hm. unfold fdiv. rewrite (Qis_zero_true m Hm0).
  cbn [Qis_zero Qeq_bool]. change (Qis_zero 100) with false. cbn [inf_signed].
  change (Qis_pos 100) with true. cbn [inf_signed].
  destruct w as [|kv w']; [contradiction|].
  assert (Hkv : to_q (snd kv) == 0 /\ fnonneg (snd kv)).
  { rewrite Forall_forall in Hz, Hnn. split; [apply Hz|apply Hnn]; now left. }
  destruct Hkv as [Hq Hf]. cbn [mapM].
  destruct (snd kv) as [c| | |]; cbn in Hf; try contradiction. cbn [to_q] in Hq.
  cbn [fmul]. rewrite (Qis_zero_true c Hq). reflexivity.
Qed.

Lemma weighting_raises_when_totals_vanish_witness :
  ["a1"; "a2"] <> []
  /\ Forall fnonneg (values (group_gen Examples.net_idle ["a1"; "a2"]))
  /\ Forall fnonneg (values (group_load Examples.net_idle ["a1"; "a2"]))
  /\ feq (fsum (values (group_gen Examples.net_idle ["a1"; "a2"]))) (Fin 0)
  /\ feq (fsum (values (group_load Examples.net_idle ["a1"; "a2"]))) (Fin 0)
  /\ weighting_for_country Examples.net_idle ["a1"; "a2"]
     = Raise (ValueError "Cannot convert non-finite values (NA or inf) to integer").
Proof.
  assert (H0 : ["a1"; "a2"] <> []) by discriminate.
  assert (Hg : Forall fnonneg (values (group_gen Examples.net_idle ["a1"; "a2"]))).
  { vm_compute. repeat constructor; discriminate. }
  assert (Hl : Forall fnonneg (values (group_load Examples.net_idle ["a1"; "a2"]))).
  { vm_compute. repeat constructor; discriminate. }
  assert (Eg : feq (fsum (values (group_gen Examples.net_idle ["a1"; "a2"]))) (Fin 0)).
  { vm_compute. reflexivity. }
  assert (El : feq (fsum (values (group_load Examples.net_idle ["a1"; "a2"]))) (Fin 0)).
  { vm_compute. reflexivity. }
  repeat (split; [assumption|]).
  exact (weighting_raises_when_totals_vanish _ _ H0 Hg Hl Eg El).
Defined.

(** ** More on the allocator *)

Lemma lookup_in_index :
  forall (V : Type) (k : GroupKey) (s : Series GroupKey V),
    In k (index s) -> exists v, lookup gk_eqb k s = Some v.
Proof.
  intros V k s. induction s as [|[k' v] t IH]; intros H; [contradiction|].
  cbn [lookup]. destruct (gk_eqb k k') eqn:E; [eauto|].
  destruct H as [H|H]; [|now apply IH]. cbn in H. subst.
  assert (gk_eqb k k = true) by (now apply gk_eqb_spec). congruence.
Qed.

Lemma set_country_index :
  forall (c : string) (v : float64) (L : Series GroupKey float64),
    index (set_country c v L) = index L.
Proof.
  intros c v L. unfold index, set_country. rewrite map_map. apply map_ext.
  intros [k a]. cbn. now destruct (String.eqb (key_country k) c).
Qed.

Lemma count_country_set_country :
  forall (c c' : string) (v : float64) (L : Series GroupKey float64),
    count_country c (set_country c' v L) = count_country c L.
Proof.
  intros c c' v L. unfold count_country, set_country.
  induction L as [|[k a] t IH]; [reflexivity|].
  cbn [map filter fst].
  destruct (String.eqb (key_country k) c'); cbn [filter fst];
    destruct (String.eqb (key_country k) c); cbn [length]; now rewrite IH.
Qed.

Lemma apply_focus_index :
  forall (fw : list (string * Q)) (L L1 : Series GroupKey float64),
    apply_focus fw L = Ok L1 -> index L1 = index L.
Proof.
  induction fw as [|[c w] rest IH]; intros L L1 H; cbn in H.
  - now injection H as <-.
  - destruct (count_country c L); [discriminate|].
    rewrite (IH _ _ H). apply set_country_index.
Qed.

(** The focus loop fails exactly when some focus country has no group in [L];
    the KeyError names such a country. *)
Lemma apply_focus_key_error :
  forall (fw : list (string * Q)) (L : Series GroupKey float64),
    (forall e, apply_focus fw L = Raise e ->
               exists c, e = KeyError c /\ In c (map fst fw) /\ count_country c L = 0%nat)
    /\ ((exists c, In c (map fst fw) /\ count_country c L = 0%nat) ->
        exists c, apply_focus fw L = Raise (KeyError c)).
Proof.
  induction fw as [|[c w] rest IH]; intros L; split.
  - cbn. discriminate.
  - intros [c [[] _]].
  - intros e H. cbn [apply_focus] in H. destruct (count_country c L) as [|m] eqn:Hc.
    + injection H as <-. exists c. cbn. auto.
    + destruct (proj1 (IH _) e H) as [c' [-> [Hin Hcnt]]].
      rewrite count_country_set_country in Hcnt. exists c'. cbn. auto.
  - intros [c' [Hin Hcnt]]. cbn [apply_focus].
    destruct (count_country c L) as [|m] eqn:Hc; [eauto|].
    apply (proj2 (IH _)). destruct Hin as [Heq|Hin].
    + cbn in Heq. subst. congruence.
    + exists c'. now rewrite count_country_set_country.
Qed.

Lemma adjust_focus_index :
  forall (fw : option (list (string * Q))) (L L' : Series GroupKey float64),
    adjust_focus fw L = Ok L' -> index L' = index L.
Proof.
  intros [fw|] L L' H; unfold adjust_focus in H; [|now injection H as <-].
  destruct (assert _ focus_msg); cbn [bind] in H; [|discriminate].
  destruct (apply_focus fw L) as [L1|e] eqn:E; cbn [bind] in H; [|discriminate].
  injection H as <-. rewrite <- (apply_focus_index _ _ _ E).
  unfold index, rescale_remainder. rewrite map_map. apply map_ext.
  intros [k v]. cbn. now destruct (in_focus fw k).
Qed.

(** Every group that has a load share is a group of buses. *)
Lemma load_share_groups :
  forall (n : Network) (k : GroupKey),
    In k (index (load_share n)) -> In k (index (group_sizes n)).
Proof.
  intros n k H.
  assert (Hi : index (load_share n) = group_keys gk_eqb gk_leb fst (load_rows n)).
  { unfold load_share, normed, map_values, groupby_sum, groupby, index.
    rewrite !map_map. cbn [fst]. apply map_id. }
  assert (Hn : index (group_sizes n) = group_keys gk_eqb gk_leb bus_key (buses n)).
  { unfold group_sizes, groupby, index. rewrite !map_map. cbn [fst]. apply map_id. }
  rewrite Hi in H. rewrite Hn.
  apply (group_keys_In gk_eqb gk_leb gk_eqb_spec) in H.
  apply (group_keys_In gk_eqb gk_leb gk_eqb_spec).
  apply in_map_iff in H. destruct H as [[k' v] [<- Hrow]]. cbn [fst].
  unfold load_rows in Hrow. apply in_flat_map in Hrow.
  destruct Hrow as [[name a] [_ Hrow]]. cbn [fst snd] in Hrow.
  destruct (find_bus n name) as [b|] eqn:Hb; [|contradiction].
  destruct Hrow as [[= <- _]|[]]. unfold find_bus in Hb. apply find_some in Hb.
  apply in_map. tauto.
Qed.

Lemma build_model_succeeds :
  forall (L : Series GroupKey float64) (N : Series GroupKey Z) (n_clusters : Z),
    (forall k, In k (index L) -> In k (index N)) ->
    exists m, build_model L N n_clusters = Ok m
              /\ m_vars m = index L /\ m_total m = n_clusters
              /\ Forall2 (fun k b => exists sz, lookup gk_eqb k N = Some sz
                                               /\ b = (k, (1%Z, sz)))
                         (index L) (m_bounds m).
Proof.
  intros L N K Hsub. unfold build_model.
  destruct (mapM_total _ _
              (fun k => match lookup gk_eqb k N with
                        | Some sz => Ok (k, (1%Z, sz))
                        | None => Raise (KeyError (fst k ++ snd k))
                        end)
              (fun k b => exists sz, lookup gk_eqb k N = Some sz /\ b = (k, (1%Z, sz)))
              (index L)) as [bs [Hbs Hall]].
  { intros k Hk. destruct (lookup_in_index _ k N (Hsub k Hk)) as [sz Hsz].
    rewrite Hsz. eauto. }
  rewrite Hbs. cbn [bind]. eexists. repeat split. exact Hall.
Qed.

(** The only KeyError of the allocator is a focus country without any group in
    [L]: the lookup [N[n_id]] of the bounds never fails. *)
Theorem allocator_key_error_is_focus_country :
  forall (slv : Solver) (n : Network) (n_clusters : Z)
         (focus_weights : option (list (string * Q))) (solver_name : string) (c : string),
    distribute_clusters slv n n_clusters focus_weights solver_name = Raise (KeyError c) ->
    exists fw, focus_weights = Some fw /\ In c (map fst fw)
               /\ count_country c (load_share n) = 0%nat.
Proof.
  intros slv n K fw sn c H. unfold distribute_clusters in H.
  destruct (assert _ (range_msg _)) as [[]|e] eqn:Ha; cbn [bind] in H.
  2: { unfold assert in Ha. destruct (_ && _)%bool; discriminate || (injection Ha as <-; discriminate). }
  destruct (adjust_focus fw (load_share n)) as [L|e] eqn:Hf; cbn [bind] in H.
  2: { injection H as ->. unfold adjust_focus in Hf. destruct fw as [fw|]; [|discriminate].
       destruct (Qle_bool (Qsum (map snd fw)) 1); cbn [assert bind] in Hf; [|discriminate].
       destruct (apply_focus fw (load_share n)) as [L1|e] eqn:E; cbn [bind] in Hf;
         [discriminate|]. injection Hf as ->.
       destruct (proj1 (apply_focus_key_error fw _) _ E) as [c' [[= <-] [Hin Hc]]].
       exists fw. auto. }
  destruct (np_isclose _ _ _); cbn [assert bind] in H; [|discriminate].
  destruct (build_model_succeeds L (group_sizes n) K) as [m [Hm _]].
  { intros k Hk. rewrite (adjust_focus_index _ _ _ Hf) in Hk. now apply load_share_groups. }
  rewrite Hm in H. cbn [bind] in H.
  destruct (status_ok _); cbn [assert bind] in H; [|discriminate].
  apply mapM_raise in H. destruct H as [k [_ Hk]].
  destruct (astype_int _) as [z|e] eqn:Ez; cbn [bind] in Hk; [discriminate|].
  injection Hk as ->. apply astype_int_raise in Ez. discriminate.
Qed.

(** A focus country that has no group with load makes the allocator raise a
    KeyError, once the range and the focus total are accepted. *)
Theorem unknown_focus_country_raises :
  forall (slv : Solver) (n : Network) (n_clusters : Z) (fw : list (string * Q))
         (solver_name : string) (c : string),
    range_ok n n_clusters = true ->
    focus_ok (Some fw) = true ->
    In c (map fst fw) ->
    count_country c (load_share n) = 0%nat ->
    exists c', distribute_clusters slv n n_clusters (Some fw) solver_name
               = Raise (KeyError c').
Proof.
  intros slv n K fw sn c Hr Hf Hin Hc. unfold distribute_clusters.
  fold (range_ok n K). rewrite Hr. cbn [assert bind]. unfold adjust_focus.
  cbn in Hf. rewrite Hf. cbn [assert bind].
  destruct (proj2 (apply_focus_key_error fw (load_share n))) as [c' Hc']; [eauto|].
  rewrite Hc'. cbn [bind]. now exists c'.
Qed.

Lemma unknown_focus_country_witness :
  range_ok (determine_network_topology Examples.C Examples.net_demo) 4 = true
  /\ focus_ok (Some [("ZZ", 1 # 2)]) = true
  /\ In "ZZ" (map fst [("ZZ", 1 # 2)])
  /\ count_country "ZZ" (load_share (determine_network_topology Examples.C Examples.net_demo))
     = 0%nat
  /\ exists c', distribute_clusters (solver Examples.C)
                  (determine_network_topology Examples.C Examples.net_demo) 4
                  (Some [("ZZ", 1 # 2)]) "gurobi"
                = Raise (KeyError c').
Proof.
  assert (H1 : range_ok (determine_network_topology Examples.C Examples.net_demo) 4 = true)
    by (vm_compute; reflexivity).
  assert (H2 : focus_ok (Some [("ZZ", 1 # 2)]) = true) by (vm_compute; reflexivity).
  assert (H3 : In "ZZ" (map fst [("ZZ", 1 # 2)])) by (now left).
  assert (H4 : count_country "ZZ"
                 (load_share (determine_network_topology Examples.C Examples.net_demo))
               = 0%nat) by (vm_compute; reflexivity).
  repeat (split; [assumption|]).
  exact (unknown_focus_country_raises _ _ _ _ "gurobi" _ H1 H2 H3 H4).
Defined.

(** *** The budget read off a feasible answer *)

Lemma Qtrunc_floor :
  forall q : Q, 0 <= q -> inject_Z (Qtrunc q) <= q /\ q < inject_Z (Qtrunc q) + 1.
Proof.
  intros [n d] H. unfold Qle in H. cbn in H. unfold Qtrunc. cbn [Qnum Qden].
  assert (Hn : (0 <= n)%Z) by lia.
  rewrite Z.quot_div_nonneg by lia.
  pose proof (Z.div_mod n (Z.pos d) ltac:(lia)) as Hdm.
  pose proof (Z.mod_pos_bound n (Z.pos d) ltac:(lia)) as Hmod.
  split; unfold Qle, Qlt, Qplus, inject_Z; cbn; nia.
Qed.

Lemma Qtrunc_between :
  forall (q : Q) (lo hi : Z),
    (0 <= lo)%Z -> inject_Z lo <= q -> q <= inject_Z hi ->
    (lo <= Qtrunc q <= hi)%Z.
Proof.
  intros q lo hi Hlo H1 H2.
  assert (Hq : 0 <= q).
  { apply Qle_trans with (inject_Z lo); [|exact H1].
    change 0 with (inject_Z 0). now rewrite <- Zle_Qle. }
  destruct (Qtrunc_floor q Hq) as [Ha Hb]. split.
  - assert (H : inject_Z lo < inject_Z (Qtrunc q + 1)).
    { rewrite inject_Z_plus. change (inject_Z 1) with 1. lra. }
    rewrite <- Zlt_Qlt in H. lia.
  - rewrite Zle_Qle. lra.
Qed.

Lemma inject_Z_Zsum :
  forall l : list Z, inject_Z (Zsum l) == Qsum (map inject_Z l).
Proof.
  induction l as [|z t IH]; [reflexivity|].
  cbn [map Zsum fold_right]. fold (Zsum t). rewrite Qsum_cons, inject_Z_plus, IH.
  reflexivity.
Qed.

Lemma bounds_lookup :
  forall (N : Series GroupKey Z) (idx : list GroupKey)
         (bounds : Series GroupKey (Z * Z)) (k : GroupKey),
    Forall2 (fun k b => exists sz, lookup gk_eqb k N = Some sz /\ b = (k, (1%Z, sz)))
            idx bounds ->
    In k idx ->
    exists sz, lookup gk_eqb k N = Some sz /\ lookup gk_eqb k bounds = Some (1%Z, sz).
Proof.
  intros N idx bounds k H. induction H as [|k' b idx' bounds' [sz [Hsz ->]] _ IH];
    intros Hin; [contradiction|].
  cbn [lookup]. destruct (gk_eqb k k') eqn:E.
  - apply gk_eqb_spec in E. subst. eauto.
  - destruct Hin as [->|Hin]; [|now apply IH].
    assert (gk_eqb k k = true) by (now apply gk_eqb_spec). congruence.
Qed.

(** Truncating values that are at least 0 loses less than one unit each. *)
Lemma truncated_sum :
  forall (A : Type) (f : A -> Q) (l : list A),
    (forall a, In a l -> 0 <= f a) ->
    Qsum (map inject_Z (map (fun a => Qtrunc (f a)) l)) <= Qsum (map f l)
    /\ Qsum (map f l)
       <= Qsum (map inject_Z (map (fun a => Qtrunc (f a)) l))
          + inject_Z (Z.of_nat (length l))
    /\ (l <> [] ->
        Qsum (map f l)
        < Qsum (map inject_Z (map (fun a => Qtrunc (f a)) l))
          + inject_Z (Z.of_nat (length l))).
Proof.
  intros A f l. induction l as [|a t IH]; intros H.
  - cbn. unfold inject_Z. split; [lra|]. split; [lra|]. intros E. now contradiction E.
  - destruct (IH (fun a' Ha' => H a' (or_intror Ha'))) as [IH1 [IH2 _]].
    destruct (Qtrunc_floor (f a) (H a (or_introl eq_refl))) as [H1 H2].
    cbn [map length]. rewrite !Qsum_cons, Nat2Z.inj_succ. unfold Z.succ.
    rewrite inject_Z_plus. change (inject_Z 1) with 1.
    split; [lra|]. split; [lra|]. intros _. lra.
Qed.

(** When the solver answers within the bounds and with the right sum, the
    allocator returns one integer per variable, each at least 1 and at most
    the size of its group; the conversion to integers loses less than one
    cluster per group, so the budget sums to more than the requested total
    minus the number of groups and to at most the requested total, and to
    exactly that total when the answer is integral. *)
Theorem budget_of_feasible_answer :
  forall (slv : Solver) (n : Network) (n_clusters : Z)
         (focus_weights : option (list (string * Q))) (solver_name : string) (m : Model),
    allocation_model n n_clusters focus_weights = Ok m ->
    relaxed_feasible m (solve slv (chosen_solver slv solver_name) m) = true ->
    exists budget,
      distribute_clusters slv n n_clusters focus_weights solver_name = Ok budget
      /\ index budget = m_vars m
      /\ (forall g v, In (g, v) budget ->
                      exists sz, lookup gk_eqb g (group_sizes n) = Some sz
                                 /\ (1 <= v <= sz)%Z)
      /\ (n_clusters - Z.of_nat (length budget) < Zsum (values budget) <= n_clusters)%Z
      /\ (integral_answer m (solve slv (chosen_solver slv solver_name) m) = true ->
          Zsum (values budget) = n_clusters).
Proof.
  intros slv n K fw sn m Hm Hfeas.
  unfold allocation_model in Hm. unfold distribute_clusters.
  destruct (assert _ (range_msg _)) as [[]|e]; cbn [bind] in Hm |- *; [|discriminate].
  destruct (adjust_focus fw (load_share n)) as [L|e] eqn:Hf; cbn [bind] in Hm |- *;
    [|discriminate].
  assert (HLne : index L <> []).
  { intros E. destruct L; [|discriminate]. cbn in Hm. discriminate. }
  destruct (assert _ sum_msg) as [[]|e]; cbn [bind] in Hm |- *; [|discriminate].
  destruct (build_model_succeeds L (group_sizes n) K) as [m' [Hm' [Hvars [Htot Hb]]]].
  { intros k Hk. rewrite (adjust_focus_index _ _ _ Hf) in Hk. now apply load_share_groups. }
  rewrite Hm in Hm'. injection Hm' as <-. rewrite Hm. cbn [bind].
  fold (chosen_solver slv sn). set (res := solve slv (chosen_solver slv sn) m) in *.
  unfold relaxed_feasible in Hfeas. apply andb_true_iff in Hfeas.
  destruct Hfeas as [Hfeas Hsum]. apply andb_true_iff in Hfeas.
  destruct Hfeas as [Hok Hbounds]. rewrite Hok. cbn [assert bind].
  rewrite forallb_forall in Hbounds. apply Qeq_bool_iff in Hsum.
  unfold integral_answer. rewrite Hvars, Htot in *.
  set (val := fun k => to_q (solution_value res k)) in *.
  assert (Hvar : forall k, In k (index L) ->
            exists sz, solution_value res k = Fin (val k)
                       /\ lookup gk_eqb k (group_sizes n) = Some sz
                       /\ inject_Z 1 <= val k /\ val k <= inject_Z sz).
  { intros k Hk. specialize (Hbounds k Hk). unfold in_bounds in Hbounds.
    destruct (bounds_lookup _ _ _ k Hb Hk) as [sz [Hsz Hlk]]. rewrite Hlk in Hbounds.
    unfold val. destruct (solution_value res k) as [q| | |]; try discriminate.
    apply andb_true_iff in Hbounds. destruct Hbounds as [H1 H2].
    apply Qle_bool_iff in H1, H2. exists sz. cbn [to_q]. auto. }
  destruct (mapM_total _ _
              (fun k => z <- astype_int (match lookup gk_eqb k (var_values res) with
                                         | Some v => v
                                         | None => NaN
                                         end) ;;
                        Ok (k, z))
              (fun k r => r = (k, Qtrunc (val k)))
              (index L)) as [budget [Hbud Hall]].
  { intros k Hk. destruct (Hvar k Hk) as [sz [Hq _]].
    unfold solution_value in Hq. rewrite Hq. cbn. eauto. }
  exists budget. split; [exact Hbud|].
  assert (Hbudget : budget = map (fun k => (k, Qtrunc (val k))) (index L)).
  { clear - Hall. induction Hall as [|k r idx bs -> _ IH]; [reflexivity|].
    cbn [map]. now rewrite IH. }
  subst budget. split; [unfold index at 1; rewrite map_map; apply map_id|].
  split.
  { intros g v Hin. apply in_map_iff in Hin. destruct Hin as [k [[= <- <-] Hk]].
    destruct (Hvar k Hk) as [sz [Hq [Hsz [H1 H2]]]]. exists sz. split; [exact Hsz|].
    apply Qtrunc_between; [lia|exact H1|exact H2]. }
  unfold values. rewrite map_map, length_map. cbn [snd].
  destruct (truncated_sum _ val (index L)) as [Hup [_ Hlow]].
  { intros k Hk. destruct (Hvar k Hk) as [sz [_ [_ [H1 _]]]].
    change (inject_Z 1) with 1 in H1. lra. }
  specialize (Hlow HLne).
  rewrite <- inject_Z_Zsum in Hup, Hlow. rewrite Hsum in Hup, Hlow.
  rewrite <- inject_Z_plus in Hlow. rewrite <- Zle_Qle in Hup. rewrite <- Zlt_Qlt in Hlow.
  split; [lia|].
  intros Hint. rewrite forallb_forall in Hint.
  apply inject_Z_injective. rewrite <- Hsum, inject_Z_Zsum, map_map.
  apply Qsum_ext. intros k Hk. specialize (Hint k Hk).
  destruct (Hvar k Hk) as [sz [Hq _]]. rewrite Hq in Hint.
  apply Qeq_bool_iff in Hint. now rewrite <- Hint.
Qed.

(** ** More on the resolution search *)

Section LouvainExit.
Variable C : Collaborators.
Variable best_partition : BestPartition.
Variable G : Graph.
Variable n_clusters : Z.

Lemma deviation_zero :
  forall b : Partition, deviation n_clusters b = 0%Z <-> n_communities b = n_clusters.
Proof. intros b. unfold deviation. lia. Qed.

Lemma search_exit :
  forall (fuel : nat) (s : SearchState),
    (deviation n_clusters (st_bu s) <= deviation n_clusters (st_b s))%Z ->
    (500 - st_c s <= Z.of_nat fuel)%Z ->
    n_communities (st_bu (search C best_partition G n_clusters fuel s)) = n_clusters
    \/ (500 <= st_c (search C best_partition G n_clusters fuel s))%Z.
Proof.
  induction fuel as [|fuel IH]; intros s Hs Hc.
  - right. cbn. lia.
  - cbn [search]. destruct (loop_test n_clusters s) eqn:Ht.
    + destruct (attempt_keeps_best C best_partition G n_clusters s) as [_ Hb].
      destruct (n_communities (st_bu (attempt C best_partition G n_clusters s))
                =? n_clusters)%Z eqn:E.
      * left. now apply Z.eqb_eq.
      * apply IH; [exact Hb|]. rewrite attempt_c. lia.
    + unfold loop_test in Ht. apply andb_false_iff in Ht. destruct Ht as [Ht|Ht].
      * left. apply negb_false_iff, Z.eqb_eq in Ht.
        apply deviation_zero. apply deviation_zero in Ht.
        unfold deviation in *. lia.
      * right. apply Z.ltb_ge in Ht. exact Ht.
Qed.

(** A repeat ends with a partition of exactly the requested number of
    communities, or after its 499th pass. *)
Theorem one_repeat_exact_or_exhausted :
  forall (calls : nat) (trace : list float64),
    n_communities (st_bu (one_repeat C best_partition G n_clusters calls trace)) = n_clusters
    \/ st_c (one_repeat C best_partition G n_clusters calls trace) = 500%Z.
Proof.
  intros calls trace.
  destruct (search_exit max_attempts (start C best_partition G n_clusters calls trace))
    as [H|H]; [cbn; lia|cbn; lia|now left|].
  right.
  destruct (search_bounded C best_partition G n_clusters max_attempts
              (start C best_partition G n_clusters calls trace)) as [Hb _]; [cbn; lia|].
  unfold one_repeat in *. lia.
Qed.

End LouvainExit.

Lemma reference_pow15_positive :
  forall v : Z, (1 <= v)%Z -> fpositive (pow15 Examples.C v).
Proof.
  intros v Hv. cbn. unfold Qdiv, Qlt. cbn.
  assert (0 < Z.sqrt (v * v * v * 1000000000000))%Z; [|lia].
  apply Z.sqrt_pos. nia.
Qed.

Lemma resolution_floored_witness :
  (forall v : Z, (1 <= v)%Z -> fpositive (pow15 Examples.C v))
  /\ (1 <= 2)%Z
  /\ resolution_floored Examples.C 2
       (three_repeats Examples.C Examples.fading Examples.G_demo 2).
Proof.
  split; [exact reference_pow15_positive|]. split; [lia|].
  apply (three_repeats_resolution_floored Examples.C Examples.fading Examples.G_demo 2
           reference_pow15_positive). lia.
Defined.

Lemma search_terminates_witness :
  (max_attempts <= 600)%nat
  /\ search Examples.C Examples.fading Examples.G_demo 2 600
            (start Examples.C Examples.fading Examples.G_demo 2 0 [])
     = one_repeat Examples.C Examples.fading Examples.G_demo 2 0 [].
Proof.
  assert (H : (max_attempts <= 600)%nat) by (vm_compute; lia).
  split; [exact H|].
  exact (search_terminates Examples.C Examples.fading Examples.G_demo 2 600 0 [] H).
Defined.

Lemma search_keeps_best_witness :
  (deviation 2 (st_bu (start Examples.C Examples.fading Examples.G_demo 2 2 []))
   <= deviation 2 (st_b (start Examples.C Examples.fading Examples.G_demo 2 2 [])))%Z
  /\ In (start Examples.C Examples.fading Examples.G_demo 2 2 [])
        (visited Examples.C Examples.fading Examples.G_demo 2 5
                 (start Examples.C Examples.fading Examples.G_demo 2 2 []))
  /\ (deviation 2 (st_bu (search Examples.C Examples.fading Examples.G_demo 2 5
                            (start Examples.C Examples.fading Examples.G_demo 2 2 [])))
      <= deviation 2 (st_b (start Examples.C Examples.fading Examples.G_demo 2 2 [])))%Z.
Proof.
  assert (H1 : (deviation 2 (st_bu (start Examples.C Examples.fading Examples.G_demo 2 2 []))
   <= deviation 2 (st_b (start Examples.C Examples.fading Examples.G_demo 2 2 [])))%Z)
    by (cbn [start st_bu st_b]; lia).
  assert (H2 : In (start Examples.C Examples.fading Examples.G_demo 2 2 [])
        (visited Examples.C Examples.fading Examples.G_demo 2 5
                 (start Examples.C Examples.fading Examples.G_demo 2 2 [])))
    by (now left).
  split; [exact H1|]. split; [exact H2|].
  exact (search_keeps_best Examples.C Examples.fading Examples.G_demo 2 5 _ H1 _ H2).
Defined.

(** ** The labels of busmap_by_newman *)

Lemma loc_set_lookup :
  forall (members : list string) (label : string) (s s' : Series string string)
         (k : string),
    loc_set members label s = Ok s' ->
    lookup String.eqb k s'
    = if isin k members
      then match lookup String.eqb k s with Some _ => Some label | None => None end
      else lookup String.eqb k s.
Proof.
  intros members label s s' k H. unfold loc_set in H.
  destruct (find _ members); [discriminate|]. injection H as <-.
  induction s as [|[k' v] t IH]; cbn [map lookup fst].
  - now destruct (isin k members).
  - destruct (isin k' members) eqn:Em; cbn [lookup];
      destruct (String.eqb k k') eqn:E; try exact IH.
    + apply String.eqb_eq in E. subst. now rewrite Em.
    + apply String.eqb_eq in E. subst. now rewrite Em.
Qed.

Lemma loc_set_raise :
  forall (members : list string) (label : string) (s : Series string string) (e : exn),
    loc_set members label s = Raise e ->
    exists m, e = KeyError m /\ In m members /\ ~ In m (index s).
Proof.
  intros members label s e H. unfold loc_set in H.
  destruct (find _ members) as [m|] eqn:E; [|discriminate].
  injection H as <-. apply find_some in E. destruct E as [Hin Hm].
  exists m. repeat split; [exact Hin|]. intros Hi. apply isin_In in Hi.
  rewrite Hi in Hm. discriminate.
Qed.

Lemma lookup_combine_same :
  forall (l : list string) (k : string),
    lookup String.eqb k (combine l l) = if isin k l then Some k else None.
Proof.
  intros l k. induction l as [|h t IH]; [reflexivity|].
  cbn [combine lookup]. rewrite isin_cons.
  destruct (String.eqb k h) eqn:E; [|exact IH].
  apply String.eqb_eq in E. now subst.
Qed.

(** What the labelling loop does to one bus: a bus that no community holds
    keeps the label it had; a bus of the series that the community at position
    [i] holds, and no later one, gets the decimal of [c + i]. *)
Lemma label_communities_lookup :
  forall (output : list (list string)) (c : Z) (s s' : Series string string) (k : string),
    label_communities output c s = Ok s' ->
    ((forall members, In members output -> ~ In k members) ->
     lookup String.eqb k s' = lookup String.eqb k s)
    /\ (forall (pre post : list (list string)) (members : list string),
           output = pre ++ members :: post ->
           In k members -> In k (index s) ->
           (forall later, In later post -> ~ In k later) ->
           lookup String.eqb k s' = Some (string_of_Z (c + Z.of_nat (length pre)))).
Proof.
  induction output as [|members rest IH]; intros c s s' k H; cbn [label_communities] in H.
  - injection H as <-. split; [reflexivity|]. intros [|? ?] ? ? E; discriminate.
  - destruct (loc_set members (string_of_Z c) s) as [s1|e] eqn:E1; cbn [bind] in H;
      [|discriminate].
    destruct (IH _ _ _ k H) as [IHa IHb].
    pose proof (loc_set_lookup _ _ _ _ k E1) as Hl. split.
    + intros Hno. rewrite IHa by (intros m Hm; apply Hno; now right).
      rewrite Hl. rewrite isin_not_In; [reflexivity|]. apply Hno. now left.
    + intros pre post mem Eout Hk Hidx Hlater. destruct pre as [|p pre].
      * cbn [app] in Eout. injection Eout as <- <-.
        rewrite IHa by exact Hlater. rewrite Hl.
        rewrite (proj2 (isin_In k members) Hk).
        assert (Hsome : exists v, lookup String.eqb k s = Some v).
        { clear - Hidx. induction s as [|[k' v] t IHs]; [contradiction|].
          cbn [lookup]. destruct (String.eqb k k') eqn:E; [eauto|].
          destruct Hidx as [Heq|Hin]; [|now apply IHs].
          cbn in Heq. subst. rewrite String.eqb_refl in E. discriminate. }
        destruct Hsome as [v ->]. cbn [length]. now rewrite Z.add_0_r.
      * cbn [app] in Eout. injection Eout as <- ->.
        rewrite (IHb pre post mem eq_refl Hk); [|now rewrite (loc_set_index _ _ _ _ E1)
                                                 |exact Hlater].
        cbn [length]. f_equal. f_equal. lia.
Qed.

(** The labels of [busmap_by_newman] before the prefix: a bus of the group
    that [greedy_modularity] puts in no community is labelled with its own
    name; a bus in the community at position [i], and in no later one, is
    labelled with the decimal of [i]. *)
Theorem newman_labels :
  forall (C : Collaborators) (n : Network) (n_clusters : Z) (buses_i : list string)
         (bm : Series string string) (k : string),
    snd (busmap_by_newman C n n_clusters buses_i) = Ok bm ->
    In k buses_i ->
    let output := greedy_modularity C (newman_graph (calculate_dependent_values C n) buses_i)
                                    n_clusters in
    index bm = buses_i
    /\ ((forall members, In members output -> ~ In k members) ->
        lookup String.eqb k bm = Some k)
    /\ (forall (pre post : list (list string)) (members : list string),
           output = pre ++ members :: post ->
           In k members ->
           (forall later, In later post -> ~ In k later) ->
           lookup String.eqb k bm = Some (string_of_Z (Z.of_nat (length pre)))).
Proof.
  intros C n K buses_i bm k H Hk output. unfold busmap_by_newman in H. cbn [snd] in H.
  fold output in H.
  assert (Hi : index (combine buses_i buses_i) = buses_i) by (now apply combine_index).
  destruct (label_communities_lookup _ _ _ _ k H) as [Ha Hb].
  split; [rewrite (label_communities_index _ _ _ _ H); exact Hi|]. split.
  - intros Hno. rewrite (Ha Hno), lookup_combine_same.
    now rewrite (proj2 (isin_In k buses_i) Hk).
  - intros pre post members Eout Hm Hlater.
    rewrite (Hb pre post members Eout Hm); [reflexivity| |exact Hlater].
    now rewrite Hi.
Qed.

Lemma label_communities_raise :
  forall (output : list (list string)) (c : Z) (s : Series string string) (e : exn),
    label_communities output c s = Raise e ->
    exists m members,
      e = KeyError m /\ In members output /\ In m members /\ ~ In m (index s).
Proof.
  induction output as [|members rest IH]; intros c s e H;
    cbn [label_communities] in H; [discriminate|].
  destruct (loc_set members (string_of_Z c) s) as [s1|e1] eqn:E1; cbn [bind] in H.
  - destruct (IH _ _ _ H) as [m [mem [He [Hin [Hm Hn]]]]].
    exists m, mem. repeat split; [exact He|now right|exact Hm|].
    now rewrite <- (loc_set_index _ _ _ _ E1).
  - injection H as <-. destruct (loc_set_raise _ _ _ _ E1) as [m [He [Hm Hn]]].
    exists m, members. repeat split; [exact He|now left|exact Hm|exact Hn].
Qed.

(** [busmap_by_newman] raises only a KeyError, and only when
    [greedy_modularity] returns a community with a member that is no bus of
    the group. *)
Theorem newman_key_error :
  forall (C : Collaborators) (n : Network) (n_clusters : Z) (buses_i : list string)
         (e : exn),
    snd (busmap_by_newman C n n_clusters buses_i) = Raise e ->
    exists m members,
      e = KeyError m
      /\ In members (greedy_modularity C
                       (newman_graph (calculate_dependent_values C n) buses_i) n_clusters)
      /\ In m members /\ ~ In m buses_i.
Proof.
  intros C n K buses_i e H. unfold busmap_by_newman in H. cbn [snd] in H.
  destruct (label_communities_raise _ _ _ _ H) as [m [mem [He [Hin [Hm Hn]]]]].
  exists m, mem. repeat split; try assumption.
  now rewrite combine_index in Hn.
Qed.

(** ** Edge cases of busmap_for_n_clusters *)

(** A network of exactly one bus never gets a busmap: either the allocator
    refuses it, or the one-row result is squeezed to a string, on which
    [rename] fails. *)
Theorem one_bus_network_raises :
  forall (C : Collaborators) (n : Network) (n_clusters : Z) (solver_name : string)
         (focus_weights : option (list (string * Q))) (algorithm : string) (kw : Kwds)
         (b : Bus),
    buses n = [b] ->
    (exists e, distribute_clusters (solver C) (determine_network_topology C n) n_clusters
                 focus_weights solver_name = Raise e
               /\ snd (busmap_for_n_clusters C n n_clusters solver_name focus_weights
                         algorithm kw) = Raise e)
    \/ snd (busmap_for_n_clusters C n n_clusters solver_name focus_weights algorithm kw)
       = Raise (AttributeError "'str' object has no attribute 'rename'").
Proof.
  intros C n K sn fw alg kw b Hb. unfold busmap_for_n_clusters.
  set (n1 := determine_network_topology C n).
  destruct (distribute_clusters (solver C) n1 K fw sn) as [budget|e]; [|left; eauto].
  right.
  assert (Hb1 : buses n1 = [set_sub_network b (string_of_Z (component_label C n (bus_name b)))]).
  { unfold n1, determine_network_topology. cbn [buses]. now rewrite Hb. }
  rewrite Hb1. set (b1 := set_sub_network b _).
  unfold groupby, group_keys. cbn [map dedup existsb sort_keys fold_right insert_sorted filter].
  assert (Hk : gk_eqb (bus_key b1) (bus_key b1) = true) by (now apply gk_eqb_spec).
  rewrite Hk. unfold busmap_for_country. cbn [apply_groups fst snd length Nat.eqb map].
  reflexivity.
Qed.

(** An algorithm name outside the five known ones is reported, with a
    ValueError, by every group of more than one bus whose weighting succeeds. *)
Theorem unknown_algorithm_raises :
  forall (C : Collaborators) (algorithm : string) (kw : Kwds)
         (budget : Series GroupKey Z) (n : Network) (grp : GroupKey * list Bus)
         (weight : Series string Z),
    ~ In algorithm ["kmeans"; "spectral"; "hac"; "louvain"; "newman"] ->
    length (snd grp) <> 1%nat ->
    weighting_for_country n (map bus_name (snd grp)) = Ok weight ->
    busmap_for_country C algorithm kw budget n grp
    = (n, Raise (ValueError
                   ("`algorithm` must be one of 'kmeans', 'spectral' or 'louvain'. Is "
                    ++ algorithm ++ "."))).
Proof.
  intros C alg kw budget n grp weight Hnot Hlen Hw. unfold busmap_for_country.
  apply Nat.eqb_neq in Hlen. rewrite Hlen, Hw.
  assert (Hne : forall s, In s ["kmeans"; "spectral"; "hac"; "louvain"; "newman"] ->
                          String.eqb alg s = false).
  { intros s Hs. apply String.eqb_neq. intros ->. contradiction. }
  rewrite !Hne by (cbn; tauto). reflexivity.
Qed.

Lemma apply_groups_ext :
  forall (f g : Network -> GroupKey * list Bus -> Network * result (Series string string))
         (groups : list (GroupKey * list Bus)),
    (forall n grp, In grp groups -> f n grp = g n grp) ->
    forall n, apply_groups f n groups = apply_groups g n groups.
Proof.
  intros f g groups. induction groups as [|grp rest IH]; intros H n; [reflexivity|].
  cbn [apply_groups]. rewrite (H n grp (or_introl eq_refl)).
  destruct (g n grp) as [n1 [bm|e]]; [|reflexivity].
  rewrite (IH (fun n' grp' Hin => H n' grp' (or_intror Hin)) n1). reflexivity.
Qed.

(** On a network whose groups all have exactly one bus the algorithm name and
    the options play no part: any two calls that differ only in them agree,
    so a misspelt algorithm name goes unnoticed. *)
Theorem single_bus_groups_ignore_algorithm :
  forall (C : Collaborators) (n : Network) (n_clusters : Z) (solver_name : string)
         (focus_weights : option (list (string * Q)))
         (algorithm algorithm' : string) (kw kw' : Kwds),
    Forall (fun grp => length (snd grp) = 1%nat)
           (groupby gk_eqb gk_leb bus_key (buses (determine_network_topology C n))) ->
    busmap_for_n_clusters C n n_clusters solver_name focus_weights algorithm kw
    = busmap_for_n_clusters C n n_clusters solver_name focus_weights algorithm' kw'.
Proof.
  intros C n K sn fw alg alg' kw kw' Hall. unfold busmap_for_n_clusters.
  destruct (distribute_clusters (solver C) (determine_network_topology C n) K fw sn)
    as [budget|e]; [|reflexivity].
  rewrite (apply_groups_ext
             (busmap_for_country C alg (default_kwds alg kw) budget)
             (busmap_for_country C alg' (default_kwds alg' kw') budget)); [reflexivity|].
  intros n' grp Hin. rewrite Forall_forall in Hall. specialize (Hall grp Hin).
  unfold busmap_for_country. now rewrite Hall.
Qed.

(** ** The default options of kmeans *)

Lemma setdefault_spec :
  forall (k : string) (v : Q) (kw : Kwds),
    exists extra, setdefault k v kw = kw ++ extra
                  /\ (forall k' v', In (k', v') extra -> k' = k /\ v' = v /\ ~ In k (map fst kw))
                  /\ In k (map fst (setdefault k v kw)).
Proof.
  intros k v kw. unfold setdefault. destruct (isin k (map fst kw)) eqn:E.
  - exists []. rewrite app_nil_r. split; [reflexivity|]. split; [intros ? ? []|].
    now apply isin_In.
  - exists [(k, v)]. split; [reflexivity|]. split.
    + intros k' v' [[= <- <-]|[]]. repeat split. intros H. apply isin_In in H. congruence.
    + rewrite map_app. apply in_or_app. right. now left.
Qed.

(** The options a caller passes are never overwritten: the defaults of kmeans
    are appended after them, each only if the caller did not give that key,
    and for every other algorithm the options are left as they are. *)
Theorem default_kwds_keep_caller_options :
  forall (algorithm : string) (kw : Kwds),
    exists extra,
      default_kwds algorithm kw = kw ++ extra
      /\ (forall k v, In (k, v) extra ->
                      ~ In k (map fst kw)
                      /\ In (k, v) [("n_init", 1000); ("max_iter", 30000);
                                    ("tol", 1 # 1000000)])
      /\ (algorithm <> "kmeans" -> extra = [])
      /\ (algorithm = "kmeans" ->
          forall k, In k ["n_init"; "max_iter"; "tol"] ->
                    In k (map fst (default_kwds algorithm kw))).
Proof.
  intros alg kw. unfold default_kwds. destruct (String.eqb alg "kmeans") eqn:E.
  - remember (setdefault "n_init" 1000 kw) as s1 eqn:E1.
    remember (setdefault "max_iter" 30000 s1) as s2 eqn:E2.
    remember (setdefault "tol" (1 # 1000000) s2) as s3 eqn:E3.
    destruct (setdefault_spec "n_init" 1000 kw) as [e1 [H1 [H1' H1'']]].
    destruct (setdefault_spec "max_iter" 30000 s1) as [e2 [H2 [H2' H2'']]].
    destruct (setdefault_spec "tol" (1 # 1000000) s2) as [e3 [H3 [H3' H3'']]].
    rewrite <- E1 in H1, H1''. rewrite <- E2 in H2, H2''. rewrite <- E3 in H3, H3''.
    assert (Hs2 : s2 = kw ++ e1 ++ e2) by (now rewrite H2, H1, <- app_assoc).
    assert (Hs3 : s3 = kw ++ e1 ++ e2 ++ e3) by (now rewrite H3, Hs2, <- !app_assoc).
    exists (e1 ++ e2 ++ e3). split; [exact Hs3|]. split.
    { intros k v Hin. apply in_app_or in Hin. destruct Hin as [Hin|Hin].
      - destruct (H1' k v Hin) as [-> [-> Hn]]. split; [exact Hn|]. cbn. tauto.
      - apply in_app_or in Hin. destruct Hin as [Hin|Hin].
        + destruct (H2' k v Hin) as [-> [-> Hn]]. split; [|cbn; tauto].
          intros Hk. apply Hn. rewrite H1, map_app. apply in_or_app. now left.
        + destruct (H3' k v Hin) as [-> [-> Hn]]. split; [|cbn; tauto].
          intros Hk. apply Hn. rewrite Hs2, map_app. apply in_or_app. now left. }
    split.
    { intros Hne. apply String.eqb_eq in E. contradiction. }
    intros _ k Hk.
    assert (Hsub : forall x, In x (map fst s1) -> In x (map fst s3)).
    { intros x Hx. rewrite H3, H2, !map_app. apply in_or_app. left.
      apply in_or_app. now left. }
    assert (Hsub2 : forall x, In x (map fst s2) -> In x (map fst s3)).
    { intros x Hx. rewrite H3, map_app. apply in_or_app. now left. }
    destruct Hk as [<-|[<-|[<-|[]]]]; auto.
  - exists []. rewrite app_nil_r. split; [reflexivity|]. split; [intros ? ? []|].
    split; [reflexivity|]. intros ->. discriminate.
Qed.

(** ** cluster_regions *)

Lemma lookup_map_values :
  forall (V W : Type) (f : V -> W) (s : Series string V) (k : string),
    lookup String.eqb k (map_values f s) = option_map f (lookup String.eqb k s).
Proof.
  intros V W f s k. induction s as [|[k' v] t IH]; [reflexivity|].
  cbn [map_values map lookup fst snd]. now destruct (String.eqb k k').
Qed.

(** The label that a chain of busmaps gives to a bus: the label of the first
    busmap, looked up in each later busmap in turn; once a lookup fails the
    bus has no label. The keys are those of the first busmap. *)
Theorem chain_busmaps_composes :
  forall (first : Series string string) (rest : list (Series string string)) (k : string),
    index (chain_busmaps first rest) = index first
    /\ lookup String.eqb k (chain_busmaps first rest)
       = option_map (fun l => fold_left (fun v y => match v with
                                                    | Some l' => lookup String.eqb l' y
                                                    | None => None
                                                    end) rest (Some l))
                    (lookup String.eqb k first).
Proof.
  intros first rest k. unfold chain_busmaps.
  assert (Hgen : forall (x : Series string (option string)),
            index (fold_left series_map rest x) = index x
            /\ lookup String.eqb k (fold_left series_map rest x)
               = option_map (fun v => fold_left (fun v y => match v with
                                                            | Some l' => lookup String.eqb l' y
                                                            | None => None
                                                            end) rest v)
                            (lookup String.eqb k x)).
  { induction rest as [|y rest IH]; intros x; cbn [fold_left].
    - split; [reflexivity|]. now destruct (lookup String.eqb k x).
    - destruct (IH (series_map x y)) as [IH1 IH2]. split.
      + rewrite IH1. unfold series_map, index, map_values. rewrite map_map. reflexivity.
      + rewrite IH2. unfold series_map. rewrite lookup_map_values.
        now destruct (lookup String.eqb k x). }
  destruct (Hgen (map_values Some first)) as [H1 H2]. split.
  - rewrite H1. unfold index, map_values. rewrite map_map. reflexivity.
  - rewrite H2, lookup_map_values. now destruct (lookup String.eqb k first).
Qed.

(** The clustered regions: one region per label that some input region
    carries, each label once; every labelled input region goes into exactly
    one union, and a region whose name the busmap does not label goes into
    none. *)
Lemma region_groups_partition :
  forall (Geometry : Type) (busmap : Series string (option string))
         (regions : Series string Geometry),
    NoDup (index (region_groups busmap regions))
    /\ Permutation (concat (values (region_groups busmap regions)))
                   (map snd (labelled_regions busmap regions))
    /\ (forall l, In l (index (region_groups busmap regions)) <->
                  exists r, In r regions
                            /\ lookup String.eqb (fst r) busmap = Some (Some l)).
Proof.
  intros Geometry busmap regions.
  assert (Hidx : index (region_groups busmap regions)
                 = group_keys String.eqb String.leb fst (labelled_regions busmap regions)).
  { unfold region_groups, groupby, index. rewrite !map_map. cbn [fst]. apply map_id. }
  split; [rewrite Hidx; apply group_keys_NoDup; exact String.eqb_eq|]. split.
  - unfold values, region_groups. rewrite map_map. cbn [snd].
    rewrite <- (map_map snd (map snd)), <- concat_map.
    apply Permutation_map. apply groupby_concat. exact String.eqb_eq.
  - intros l. rewrite Hidx, (group_keys_In String.eqb String.leb String.eqb_eq).
    unfold labelled_regions. rewrite in_map_iff. split.
    + intros [[l' g] [<- Hin]]. apply in_flat_map in Hin. destruct Hin as [r [Hr Hin]].
      exists r. split; [exact Hr|].
      destruct (lookup String.eqb (fst r) busmap) as [[l0|]|]; try contradiction.
      destruct Hin as [[= -> _]|[]]. reflexivity.
    + intros [r [Hr Hl]]. exists (l, snd r). split; [reflexivity|].
      apply in_flat_map. exists r. split; [exact Hr|]. rewrite Hl. now left.
Qed.

Lemma index_map_values :
  forall (K V W : Type) (f : V -> W) (s : Series K V), index (map_values f s) = index s.
Proof.
  intros K V W f s. unfold index, map_values. rewrite map_map. reflexivity.
Qed.

(** Both tables that [cluster_regions] writes have one row per label that
    some input region carries, each label once; the geometries that go into
    the unions are those of the labelled input regions, each once. *)
Theorem cluster_regions_partition :
  forall (Geometry : Type) (cascaded_union : list Geometry -> Geometry)
         (first : Series string string) (rest : list (Series string string))
         (regions_onshore regions_offshore : Series string Geometry),
    let busmap := chain_busmaps first rest in
    let out := cluster_regions cascaded_union first rest regions_onshore regions_offshore in
    NoDup (index (fst out)) /\ NoDup (index (snd out))
    /\ (forall l, In l (index (fst out)) <->
                  exists r, In r regions_onshore
                            /\ lookup String.eqb (fst r) busmap = Some (Some l))
    /\ (forall l, In l (index (snd out)) <->
                  exists r, In r regions_offshore
                            /\ lookup String.eqb (fst r) busmap = Some (Some l))
    /\ values (fst out) = map cascaded_union (values (region_groups busmap regions_onshore))
    /\ values (snd out) = map cascaded_union (values (region_groups busmap regions_offshore))
    /\ Permutation (concat (values (region_groups busmap regions_onshore)))
                   (map snd (labelled_regions busmap regions_onshore))
    /\ Permutation (concat (values (region_groups busmap regions_offshore)))
                   (map snd (labelled_regions busmap regions_offshore)).
Proof.
  intros Geometry union first rest on off busmap out. unfold out, cluster_regions.
  fold busmap. cbn [fst snd]. rewrite !index_map_values.
  destruct (region_groups_partition Geometry busmap on) as [H1 [H2 H3]].
  destruct (region_groups_partition Geometry busmap off) as [H4 [H5 H6]].
  split; [exact H1|]. split; [exact H4|]. split; [exact H3|]. split; [exact H6|].
  split; [unfold values, map_values; rewrite !map_map; reflexivity|].
  split; [unfold values, map_values; rewrite !map_map; reflexivity|].
  split; [exact H2|exact H5].
Qed.

(** ** The allocator and the groups, in summary *)


(** The sum of the shares after the focus override, in both cases: 1 when the
    groups outside the focus countries carry a positive total, the focus total
    when they carry none. *)
Theorem focus_override_sum_cases :
  forall (fw : list (string * Q)) (L L' : Series GroupKey float64),
    NoDup (map fst fw) ->
    Forall fnonneg (values L) ->
    adjust_focus (Some fw) L = Ok L' ->
    exists s t,
      fsum (values L') = Fin s /\ remainder_total fw L = Fin t /\ 0 <= t
      /\ (0 < t -> s == 1) /\ (t == 0 -> s == Qsum (map snd fw)).
Proof.
  intros fw L L' Hnd Hnn H. exact (adjusted_sum fw L L' Hnd Hnn H).
Qed.

(** The allocator returns only for a network with at least one bus. *)
Theorem allocator_needs_a_bus :
  forall (slv : Solver) (n : Network) (n_clusters : Z)
         (focus_weights : option (list (string * Q))) (solver_name : string)
         (budget : Series GroupKey Z),
    distribute_clusters slv n n_clusters focus_weights solver_name = Ok budget ->
    buses n <> [].
Proof.
  intros slv n K fw sn budget H. exact (distribute_clusters_nonempty slv n K fw sn budget H).
Qed.

(** The series returned for one group is keyed by the buses of that group, in
    their order, and each of its labels starts with the prefix of the group,
    when the collaborating strategies index their result by the buses given. *)
Theorem group_busmap_keys_and_prefix :
  forall (C : Collaborators) (algorithm : string) (kw : Kwds)
         (budget : Series GroupKey Z) (n n' : Network) (grp : GroupKey * list Bus)
         (bm : Series string string),
    strategies_indexed C ->
    busmap_for_country C algorithm kw budget n grp = (n', Ok bm) ->
    index bm = map bus_name (snd grp)
    /\ forall kv, In kv bm -> exists l0, snd kv = (group_prefix (fst grp) ++ l0)%string.
Proof.
  intros C alg kw budget n n' grp bm Hs H.
  exact (busmap_for_country_part C alg kw budget n n' grp bm Hs H).
Qed.

(** ** Runs of the theorems above on the example networks *)

(** The relaxed answer of ipopt on two equal groups: three clusters asked
    for, two handed out. *)
Lemma budget_of_feasible_answer_witness :
  allocation_model (determine_network_topology Examples.C Examples.net_even) 3 None
  = Ok model_even
  /\ relaxed_feasible model_even
       (solve (solver Examples.C) (chosen_solver (solver Examples.C) "cbc") model_even)
     = true
  /\ exists budget,
       distribute_clusters (solver Examples.C)
         (determine_network_topology Examples.C Examples.net_even) 3 None "cbc" = Ok budget
       /\ index budget = m_vars model_even
       /\ (forall g v, In (g, v) budget ->
             exists sz, lookup gk_eqb g
                          (group_sizes (determine_network_topology Examples.C Examples.net_even))
                        = Some sz /\ (1 <= v <= sz)%Z)
       /\ (3 - Z.of_nat (length budget) < Zsum (values budget) <= 3)%Z
       /\ (integral_answer model_even
             (solve (solver Examples.C) (chosen_solver (solver Examples.C) "cbc") model_even)
           = true -> Zsum (values budget) = 3%Z).
Proof.
  assert (H1 : allocation_model (determine_network_topology Examples.C Examples.net_even)
                 3 None = Ok model_even) by (vm_compute; reflexivity).
  assert (H2 : relaxed_feasible model_even
       (solve (solver Examples.C) (chosen_solver (solver Examples.C) "cbc") model_even)
     = true) by (vm_compute; reflexivity).
  split; [exact H1|]. split; [exact H2|].
  exact (budget_of_feasible_answer (solver Examples.C) _ 3 None "cbc" model_even H1 H2).
Defined.

Lemma newman_labels_witness :
  snd (busmap_by_newman Examples.C Examples.net_demo 2 ["a1"; "a2"; "a3"])
  = Ok [("a1", "0"); ("a2", "1"); ("a3", "0")]
  /\ In "a2" ["a1"; "a2"; "a3"]
  /\ index [("a1", "0"); ("a2", "1"); ("a3", "0")] = ["a1"; "a2"; "a3"]
  /\ lookup String.eqb "a2" [("a1", "0"); ("a2", "1"); ("a3", "0")]
     = Some (string_of_Z (Z.of_nat (length [["a1"; "a3"]]))).
Proof.
  assert (H1 : snd (busmap_by_newman Examples.C Examples.net_demo 2 ["a1"; "a2"; "a3"])
               = Ok [("a1", "0"); ("a2", "1"); ("a3", "0")]) by (vm_compute; reflexivity).
  assert (H2 : In "a2" ["a1"; "a2"; "a3"]) by (cbn; tauto).
  split; [exact H1|]. split; [exact H2|].
  destruct (newman_labels Examples.C Examples.net_demo 2 ["a1"; "a2"; "a3"] _ "a2" H1 H2)
    as [Hi [_ Hc]].
  split; [exact Hi|].
  apply (Hc [["a1"; "a3"]] [] ["a2"]).
  - vm_compute. reflexivity.
  - now left.
  - intros later [].
Defined.

Lemma newman_key_error_witness :
  snd (busmap_by_newman stray_collaborators Examples.net_demo 2 ["a1"; "a2"; "a3"])
  = Raise (KeyError "zz")
  /\ exists m members,
       KeyError "zz" = KeyError m
       /\ In members (greedy_modularity stray_collaborators
                        (newman_graph (calculate_dependent_values stray_collaborators
                                         Examples.net_demo) ["a1"; "a2"; "a3"]) 2)
       /\ In m members /\ ~ In m ["a1"; "a2"; "a3"].
Proof.
  assert (H : snd (busmap_by_newman stray_collaborators Examples.net_demo 2
                     ["a1"; "a2"; "a3"]) = Raise (KeyError "zz"))
    by (vm_compute; reflexivity).
  split; [exact H|].
  exact (newman_key_error stray_collaborators Examples.net_demo 2 ["a1"; "a2"; "a3"] _ H).
Defined.

Lemma group_busmap_witness :
  strategies_indexed Examples.C
  /\ busmap_for_country Examples.C "kmeans" [] [("AA", "0", 2%Z)]
       (determine_network_topology Examples.C Examples.net_demo)
       ("AA", "0", [mkBus "a1" "AA" "0" 0 0; mkBus "a2" "AA" "0" 0 0; mkBus "a3" "AA" "0" 0 0])
     = (determine_network_topology Examples.C Examples.net_demo,
        Ok [("a1", "AA0 0"); ("a2", "AA0 1"); ("a3", "AA0 0")])
  /\ index [("a1", "AA0 0"); ("a2", "AA0 1"); ("a3", "AA0 0")]
     = map bus_name [mkBus "a1" "AA" "0" 0 0; mkBus "a2" "AA" "0" 0 0; mkBus "a3" "AA" "0" 0 0]
  /\ forall kv, In kv [("a1", "AA0 0"); ("a2", "AA0 1"); ("a3", "AA0 0")] ->
                exists l0, snd kv = (group_prefix ("AA", "0") ++ l0)%string.
Proof.
  assert (H1 : strategies_indexed Examples.C) by exact reference_strategies_indexed.
  assert (H2 : busmap_for_country Examples.C "kmeans" [] [("AA", "0", 2%Z)]
       (determine_network_topology Examples.C Examples.net_demo)
       ("AA", "0", [mkBus "a1" "AA" "0" 0 0; mkBus "a2" "AA" "0" 0 0; mkBus "a3" "AA" "0" 0 0])
     = (determine_network_topology Examples.C Examples.net_demo,
        Ok [("a1", "AA0 0"); ("a2", "AA0 1"); ("a3", "AA0 0")]))
    by (vm_compute; reflexivity).
  split; [exact H1|]. split; [exact H2|].
  exact (group_busmap_keys_and_prefix _ _ _ _ _ _ _ _ H1 H2).
Defined.

Lemma allocator_needs_a_bus_witness :
  distribute_clusters (solver Examples.C)
    (determine_network_topology Examples.C Examples.net_demo) 4 None "gurobi"
  = Ok [("AA", "0", 2%Z); ("BB", "1", 2%Z)]
  /\ buses (determine_network_topology Examples.C Examples.net_demo) <> [].
Proof.
  assert (H : distribute_clusters (solver Examples.C)
                (determine_network_topology Examples.C Examples.net_demo) 4 None "gurobi"
              = Ok [("AA", "0", 2%Z); ("BB", "1", 2%Z)]) by (vm_compute; reflexivity).
  split; [exact H|].
  exact (allocator_needs_a_bus _ _ _ _ _ _ H).
Defined.

Lemma weighting_succeeds_witness :
  inputs_in_range Examples.net_demo
  /\ (fpositive (fsum (values (group_gen Examples.net_demo ["a1"; "a2"; "a3"])))
      \/ fpositive (fsum (values (group_load Examples.net_demo ["a1"; "a2"; "a3"]))))
  /\ exists ws, weighting_for_country Examples.net_demo ["a1"; "a2"; "a3"] = Ok ws
                /\ index ws = ["a1"; "a2"; "a3"]
                /\ Forall (fun z => (1 <= z)%Z) (values ws).
Proof.
  assert (Hr : inputs_in_range Examples.net_demo).
  { unfold inputs_in_range. split; [|split; [|split]].
    - vm_compute. repeat constructor; discriminate.
    - vm_compute. repeat constructor; discriminate.
    - vm_compute. discriminate.
    - vm_compute. discriminate. }
  assert (Hp : fpositive (fsum (values (group_gen Examples.net_demo ["a1"; "a2"; "a3"])))
      \/ fpositive (fsum (values (group_load Examples.net_demo ["a1"; "a2"; "a3"])))).
  { left. vm_compute. reflexivity. }
  repeat (split; [assumption|]).
  exact (weighting_succeeds_with_positive_total _ _ Hr Hp).
Defined.

(** With the only country as focus at weight one half nothing is left over:
    the shares sum to the focus total. *)
Lemma focus_override_sum_cases_witness :
  NoDup (map fst [("AA", 1 # 2)])
  /\ Forall fnonneg
       (values (load_share (determine_network_topology Examples.C Examples.net_mono)))
  /\ adjust_focus (Some [("AA", 1 # 2)])
       (load_share (determine_network_topology Examples.C Examples.net_mono))
     = Ok [("AA", "0", Fin (1 # 2))]
  /\ exists s t,
       fsum (values [("AA", "0", Fin (1 # 2))]) = Fin s
       /\ remainder_total [("AA", 1 # 2)]
            (load_share (determine_network_topology Examples.C Examples.net_mono)) = Fin t
       /\ 0 <= t /\ (0 < t -> s == 1) /\ (t == 0 -> s == Qsum (map snd [("AA", 1 # 2)])).
Proof.
  assert (H1 : NoDup (map fst [("AA", 1 # 2)])).
  { constructor; [intros []|constructor]. }
  assert (H2 : Forall fnonneg
       (values (load_share (determine_network_topology Examples.C Examples.net_mono)))).
  { vm_compute. repeat constructor; discriminate. }
  assert (H3 : adjust_focus (Some [("AA", 1 # 2)])
       (load_share (determine_network_topology Examples.C Examples.net_mono))
     = Ok [("AA", "0", Fin (1 # 2))]) by (vm_compute; reflexivity).
  repeat (split; [assumption|]).
  exact (focus_override_sum_cases _ _ _ H1 H2 H3).
Defined.


Lemma allocator_key_error_witness :
  distribute_clusters (solver Examples.C)
    (determine_network_topology Examples.C Examples.net_demo) 4
    (Some [("ZZ", 1 # 2)]) "gurobi"
  = Raise (KeyError "ZZ")
  /\ exists fw, Some [("ZZ", 1 # 2)] = Some fw /\ In "ZZ" (map fst fw)
                /\ count_country "ZZ"
                     (load_share (determine_network_topology Examples.C Examples.net_demo))
                   = 0%nat.
Proof.
  assert (H : distribute_clusters (solver Examples.C)
                (determine_network_topology Examples.C Examples.net_demo) 4
                (Some [("ZZ", 1 # 2)]) "gurobi" = Raise (KeyError "ZZ"))
    by (vm_compute; reflexivity).
  split; [exact H|].
  exact (allocator_key_error_is_focus_country _ _ _ _ _ _ H).
Defined.

Lemma one_bus_network_witness :
  buses net_single = [Examples.bus "s1" "AA"]
  /\ ((exists e, distribute_clusters (solver Examples.C)
                   (determine_network_topology Examples.C net_single) 1 None "gurobi"
                 = Raise e
                 /\ snd (busmap_for_n_clusters Examples.C net_single 1 "gurobi" None
                           "kmeans" []) = Raise e)
      \/ snd (busmap_for_n_clusters Examples.C net_single 1 "gurobi" None "kmeans" [])
         = Raise (AttributeError "'str' object has no attribute 'rename'")).
Proof.
  assert (H : buses net_single = [Examples.bus "s1" "AA"]) by reflexivity.
  split; [exact H|].
  exact (one_bus_network_raises Examples.C net_single 1 "gurobi" None "kmeans" [] _ H).
Defined.

Lemma unknown_algorithm_witness :
  ~ In "kmean" ["kmeans"; "spectral"; "hac"; "louvain"; "newman"]
  /\ length [mkBus "a1" "AA" "0" 0 0; mkBus "a2" "AA" "0" 0 0; mkBus "a3" "AA" "0" 0 0]
     <> 1%nat
  /\ weighting_for_country (determine_network_topology Examples.C Examples.net_demo)
       ["a1"; "a2"; "a3"]
     = Ok [("a1", 100%Z); ("a2", 1%Z); ("a3", 14%Z)]
  /\ busmap_for_country Examples.C "kmean" [] [("AA", "0", 2%Z)]
       (determine_network_topology Examples.C Examples.net_demo)
       ("AA", "0", [mkBus "a1" "AA" "0" 0 0; mkBus "a2" "AA" "0" 0 0; mkBus "a3" "AA" "0" 0 0])
     = (determine_network_topology Examples.C Examples.net_demo,
        Raise (ValueError
                 "`algorithm` must be one of 'kmeans', 'spectral' or 'louvain'. Is kmean.")).
Proof.
  assert (H1 : ~ In "kmean" ["kmeans"; "spectral"; "hac"; "louvain"; "newman"]).
  { cbn. intuition discriminate. }
  assert (H2 : length [mkBus "a1" "AA" "0" 0 0; mkBus "a2" "AA" "0" 0 0;
                       mkBus "a3" "AA" "0" 0 0] <> 1%nat) by (cbn; lia).
  assert (H3 : weighting_for_country (determine_network_topology Examples.C Examples.net_demo)
                 ["a1"; "a2"; "a3"]
               = Ok [("a1", 100%Z); ("a2", 1%Z); ("a3", 14%Z)]) by (vm_compute; reflexivity).
  repeat (split; [assumption|]).
  exact (unknown_algorithm_raises Examples.C "kmean" [] [("AA", "0", 2%Z)]
           (determine_network_topology Examples.C Examples.net_demo)
           ("AA", "0", [mkBus "a1" "AA" "0" 0 0; mkBus "a2" "AA" "0" 0 0;
                        mkBus "a3" "AA" "0" 0 0])
           _ H1 H2 H3).
Defined.

Lemma single_bus_groups_witness :
  Forall (fun grp => length (snd grp) = 1%nat)
         (groupby gk_eqb gk_leb bus_key
                  (buses (determine_network_topology Examples.C net_isolated)))
  /\ busmap_for_n_clusters Examples.C net_isolated 3 "gurobi" None "kmeans" []
     = busmap_for_n_clusters Examples.C net_isolated 3 "gurobi" None "k-means" [("n_init", 5)].
Proof.
  assert (H : Forall (fun grp => length (snd grp) = 1%nat)
         (groupby gk_eqb gk_leb bus_key
                  (buses (determine_network_topology Examples.C net_isolated)))).
  { vm_compute. repeat constructor. }
  split; [exact H|].
  exact (single_bus_groups_ignore_algorithm Examples.C net_isolated 3 "gurobi" None
           "kmeans" "k-means" [] [("n_init", 5)] H).
Defined.

(** A group of more than one bus that has no entry in the budget makes every
    known strategy fail with a KeyError at [n_clusters[x.name]], once its
    weighting has succeeded. *)
Theorem group_without_budget_raises :
  forall (C : Collaborators) (algorithm : string) (kw : Kwds)
         (budget : Series GroupKey Z) (n : Network) (grp : GroupKey * list Bus)
         (weight : Series string Z),
    In algorithm ["kmeans"; "spectral"; "hac"; "louvain"; "newman"] ->
    length (snd grp) <> 1%nat ->
    weighting_for_country n (map bus_name (snd grp)) = Ok weight ->
    lookup gk_eqb (fst grp) budget = None ->
    busmap_for_country C algorithm kw budget n grp
    = (n, Raise (KeyError (fst (fst grp) ++ snd (fst grp)))).
Proof.
  intros C alg kw budget n grp weight Halg Hlen Hw Hb. unfold busmap_for_country.
  apply Nat.eqb_neq in Hlen. rewrite Hlen, Hw. unfold budget_of. rewrite Hb.
  cbn in Halg. destruct Halg as [<-|[<-|[<-|[<-|[<-|[]]]]]]; reflexivity.
Qed.

(** The two-bus group of the network above, had BB a second bus: no load in
    the group, so no budget entry. *)
Lemma group_without_budget_witness :
  In "kmeans" ["kmeans"; "spectral"; "hac"; "louvain"; "newman"]
  /\ length [mkBus "a1" "AA" "0" 0 0; mkBus "a2" "AA" "0" 0 0; mkBus "a3" "AA" "0" 0 0]
     <> 1%nat
  /\ weighting_for_country (determine_network_topology Examples.C Examples.net_demo)
       ["a1"; "a2"; "a3"]
     = Ok [("a1", 100%Z); ("a2", 1%Z); ("a3", 14%Z)]
  /\ lookup gk_eqb ("AA", "0") [("BB", "1", 2%Z)] = None
  /\ busmap_for_country Examples.C "kmeans" [] [("BB", "1", 2%Z)]
       (determine_network_topology Examples.C Examples.net_demo)
       ("AA", "0", [mkBus "a1" "AA" "0" 0 0; mkBus "a2" "AA" "0" 0 0; mkBus "a3" "AA" "0" 0 0])
     = (determine_network_topology Examples.C Examples.net_demo, Raise (KeyError "AA0")).
Proof.
  assert (H1 : In "kmeans" ["kmeans"; "spectral"; "hac"; "louvain"; "newman"])
    by (now left).
  assert (H2 : length [mkBus "a1" "AA" "0" 0 0; mkBus "a2" "AA" "0" 0 0;
                       mkBus "a3" "AA" "0" 0 0] <> 1%nat) by (cbn; lia).
  assert (H3 : weighting_for_country (determine_network_topology Examples.C Examples.net_demo)
                 ["a1"; "a2"; "a3"]
               = Ok [("a1", 100%Z); ("a2", 1%Z); ("a3", 14%Z)]) by (vm_compute; reflexivity).
  assert (H4 : lookup gk_eqb ("AA", "0") [("BB", "1", 2%Z)] = None) by reflexivity.
  repeat (split; [assumption|]).
  exact (group_without_budget_raises Examples.C "kmeans" [] [("BB", "1", 2%Z)]
           (determine_network_topology Examples.C Examples.net_demo)
           ("AA", "0", [mkBus "a1" "AA" "0" 0 0; mkBus "a2" "AA" "0" 0 0;
                        mkBus "a3" "AA" "0" 0 0])
           _ H1 H2 H3 H4).
Defined.
